(** * The lexical relationship and prediction engine of AdvancedOpenSourceLLM.py

    A shallow embedding of the class [ExpertFieldLLM] and of the part of
    [main] that sets the word limits, followed by the properties of the
    specification that concern them.

    Modelling conventions.
    - A Python [str] is the [string] of its UTF-8 bytes.  White space
      ([str.strip], [str.split]) is every character of [str.isspace], the
      ones beyond ASCII as their two or three bytes.  The word class [\w]
      and the class [\s] of the token scanner, [str.lower], [str.capitalize],
      [len] and the slices of a string are those of ASCII text, where a byte
      is a character: a property whose outcome depends on them is stated
      for ASCII text ([PyStr.is_ascii]).
    - A Python [int] is a [Z]; a Python [float] is an exact rational [Q],
      compared with [Qeq], [Qlt], [Qle].  The constants [2.0], [1.5], [1.0]
      and their sums are exact in binary floating point as well.
    - A [dict] is an association list in insertion order ([odict]), since
      iteration order is observable in the ranked lists.  A [defaultdict]
      is an [odict] whose read operation also returns the store with the
      missing key inserted, as the Python container does.
    - A method of [ExpertFieldLLM] is a function of the engine state
      [self : LLM]; a method that mutates [self] returns the new state. *)

From Stdlib Require Import String Ascii List Bool Arith ZArith QArith Qabs Lia.
From Stdlib Require Import Sorted Permutation.
Import ListNotations.

#[local] Set Warnings "-register-all".

Local Open Scope string_scope.
Local Open Scope list_scope.

(** ** Python strings *)

Module PyStr.

Definition dquote : ascii := "034"%char.

(** [string.punctuation] *)
Definition punctuation : string :=
  "!" ++ String dquote "#$%&'()*+,-./:;<=>?@[\]^_`{|}~".

Definition code (c : ascii) : nat := nat_of_ascii c.

Definition between (lo hi n : nat) : bool := (lo <=? n)%nat && (n <=? hi)%nat.

(** [str.isspace] on an ASCII character: U+0009 to U+000D, U+001C to
    U+0020 *)
Definition is_space (c : ascii) : bool :=
  between 9 13 (code c) || between 28 32 (code c).

(** The white space of two bytes: U+0085 (C2 85) and U+00A0 (C2 A0) *)
Definition is_space2 (a b : ascii) : bool :=
  (code a =? 194)%nat && ((code b =? 133)%nat || (code b =? 160)%nat).

(** The white space of three bytes: U+1680 (E1 9A 80), U+2000 to U+200A
    (E2 80 80 to E2 80 8A), U+2028 and U+2029 (E2 80 A8, E2 80 A9), U+202F
    (E2 80 AF), U+205F (E2 81 9F) and U+3000 (E3 80 80) *)
Definition is_space3 (a b c : ascii) : bool :=
  (code a =? 225)%nat && (code b =? 154)%nat && (code c =? 128)%nat
  || (code a =? 226)%nat && (code b =? 128)%nat
     && (between 128 138 (code c) || between 168 169 (code c)
         || (code c =? 175)%nat)
  || (code a =? 226)%nat && (code b =? 129)%nat && (code c =? 159)%nat
  || (code a =? 227)%nat && (code b =? 128)%nat && (code c =? 128)%nat.

(** A text of ASCII characters only *)
Fixpoint is_ascii (s : string) : bool :=
  match s with
  | EmptyString => true
  | String c s' => (code c <? 128)%nat && is_ascii s'
  end.

(** the class [\w] of [re] *)
Definition is_word_char (c : ascii) : bool :=
  between 48 57 (code c) || between 65 90 (code c)
  || between 97 122 (code c) || (code c =? 95)%nat.

Definition is_digit (c : ascii) : bool := between 48 57 (code c).

Definition lower_char (c : ascii) : ascii :=
  if between 65 90 (code c) then ascii_of_nat (code c + 32) else c.

Definition upper_char (c : ascii) : ascii :=
  if between 97 122 (code c) then ascii_of_nat (code c - 32) else c.

Fixpoint map_chars (f : ascii -> ascii) (s : string) : string :=
  match s with
  | EmptyString => EmptyString
  | String c s' => String (f c) (map_chars f s')
  end.

(** [s.lower()] *)
Definition lower (s : string) : string := map_chars lower_char s.

(** [s.capitalize()] *)
Definition capitalize (s : string) : string :=
  match s with
  | EmptyString => EmptyString
  | String c s' => String (upper_char c) (lower s')
  end.

(** [s[:n]] for [n >= 0] *)
Fixpoint take (n : nat) (s : string) : string :=
  match n, s with
  | O, _ => EmptyString
  | S _, EmptyString => EmptyString
  | S n', String c s' => String c (take n' s')
  end.

(** [s.startswith(p)] *)
Fixpoint startswith (p s : string) : bool :=
  match p, s with
  | EmptyString, _ => true
  | String _ _, EmptyString => false
  | String a p', String b s' => Ascii.eqb a b && startswith p' s'
  end.

(** [needle in hay], the substring test of [str] *)
Fixpoint contains (needle hay : string) : bool :=
  startswith needle hay
  || match hay with
     | EmptyString => false
     | String _ hay' => contains needle hay'
     end.

Definition is_empty (s : string) : bool :=
  match s with EmptyString => true | String _ _ => false end.

(** [s.lstrip()]: the white space characters the text starts with are
    dropped, whatever their number of bytes *)
Fixpoint lstrip (s : string) : string :=
  match s with
  | EmptyString => EmptyString
  | String a s1 =>
      if is_space a then lstrip s1
      else
        match s1 with
        | String b s2 =>
            if is_space2 a b then lstrip s2
            else
              match s2 with
              | String c s3 => if is_space3 a b c then lstrip s3 else s
              | EmptyString => s
              end
        | EmptyString => s
        end
  end.

(** [s.rstrip()]: the text is cut where what follows is white space only *)
Fixpoint rstrip (s : string) : string :=
  match s with
  | EmptyString => EmptyString
  | String c s' =>
      if is_empty (lstrip s) then EmptyString else String c (rstrip s')
  end.

(** [s.strip()] *)
Definition strip (s : string) : string := rstrip (lstrip s).

(** [s.split(sep)] for a one-character separator: never an empty list *)
Fixpoint split_on (sep : ascii) (s : string) : list string :=
  match s with
  | EmptyString => [EmptyString]
  | String c s' =>
      if Ascii.eqb c sep then EmptyString :: split_on sep s'
      else match split_on sep s' with
           | [] => [String c EmptyString]
           | p :: ps => String c p :: ps
           end
  end.

Definition flush (cur : string) : list string :=
  if is_empty cur then [] else [cur].

Definition snoc (s : string) (c : ascii) : string := s ++ String c EmptyString.

(** [s.split()]: the maximal runs of non-space characters *)
Fixpoint split_ws_from (cur s : string) : list string :=
  match s with
  | EmptyString => flush cur
  | String a s1 =>
      if is_space a then flush cur ++ split_ws_from EmptyString s1
      else
        match s1 with
        | String b s2 =>
            if is_space2 a b then flush cur ++ split_ws_from EmptyString s2
            else
              match s2 with
              | String c s3 =>
                  if is_space3 a b c
                  then flush cur ++ split_ws_from EmptyString s3
                  else split_ws_from (snoc cur a) s1
              | EmptyString => split_ws_from (snoc cur a) s1
              end
        | EmptyString => split_ws_from (snoc cur a) s1
        end
  end.

Definition split_ws (s : string) : list string := split_ws_from EmptyString s.

(** [sep.join(l)] *)
Fixpoint join (sep : string) (l : list string) : string :=
  match l with
  | [] => EmptyString
  | [x] => x
  | x :: rest => x ++ sep ++ join sep rest
  end.

(** The scanner behind both [re.findall] calls of the engine.  A token of
    [\b\w+\b] is a maximal run of word characters; with [symbols] set the
    alternative [[^\w\s]] adds every other non-space character as a token of
    its own. *)
Fixpoint scan (symbols : bool) (cur s : string) : list string :=
  match s with
  | EmptyString => flush cur
  | String c s' =>
      if is_word_char c then scan symbols (snoc cur c) s'
      else flush cur
           ++ (if symbols && negb (is_space c) then [String c EmptyString] else [])
           ++ scan symbols EmptyString s'
  end.

(** [re.findall(r'\b\w+\b', s)] *)
Definition findall_words (s : string) : list string := scan false EmptyString s.

(** [re.findall(r'\b\w+\b|[^\w\s]', s)] *)
Definition findall_words_or_symbols (s : string) : list string :=
  scan true EmptyString s.

(** [w in string.punctuation]: a substring test, true of ["_"] as well *)
Definition in_punctuation (w : string) : bool := contains w punctuation.

(** [x in l] for a list of strings *)
Fixpoint mem (x : string) (l : list string) : bool :=
  match l with
  | [] => false
  | y :: l' => String.eqb x y || mem x l'
  end.

(** [l.index(x)] when [x in l] *)
Fixpoint index_of (x : string) (l : list string) : nat :=
  match l with
  | [] => O
  | y :: l' => if String.eqb x y then O else S (index_of x l')
  end.

End PyStr.

(** ** Insertion-ordered dictionaries *)

Module ODict.

Definition odict (V : Type) : Type := list (string * V).

Section Ops.
Context {V : Type}.

(** [d.get(k)] *)
Fixpoint get (k : string) (d : odict V) : option V :=
  match d with
  | [] => None
  | (k', v) :: d' => if String.eqb k k' then Some v else get k d'
  end.

(** [k in d] *)
Definition mem (k : string) (d : odict V) : bool :=
  match get k d with Some _ => true | None => false end.

(** [d[k] = v]: an existing key keeps its place, a new key goes last *)
Fixpoint set (k : string) (v : V) (d : odict V) : odict V :=
  match d with
  | [] => [(k, v)]
  | (k', v') :: d' =>
      if String.eqb k k' then (k', v) :: d' else (k', v') :: set k v d'
  end.

(** [d.get(k, dflt)] *)
Definition get_or (dflt : V) (k : string) (d : odict V) : V :=
  match get k d with Some v => v | None => dflt end.

(** [d[k]] on a [defaultdict] with default [dflt]: the value, and the
    dictionary with the key created when it was missing *)
Definition read (dflt : V) (k : string) (d : odict V) : V * odict V :=
  match get k d with
  | Some v => (v, d)
  | None => (dflt, set k dflt d)
  end.

Definition keys (d : odict V) : list string := map fst d.

End Ops.

End ODict.

Abbreviation odict := ODict.odict.

(** ** Data model *)

(** A JSON value, as [json.loads] returns it for the [pattern_data] field. *)
Inductive Json : Type :=
| JNull
| JBool (b : bool)
| JNumber (q : Q)
| JString (s : string)
| JArray (items : list Json)
| JObject (fields : list (string * Json)).

(** A value of [word_db]. *)
Record WordEntry : Type := mkWordEntry {
  wclass : string;
  singular : string;
  plural : string;
  synonyms : list string;
  antonyms : list string;
  meaning : string;
  acronyms : list string;
  pattern_data : Json;
  expert_field : string
}.

(** [grammar_rules]; a key that is missing from the loaded object reads as
    the empty dictionary everywhere ([.get(key, {})]). *)
Record GrammarRules : Type := mkGrammarRules {
  common_pairs : odict (list string);
  compatibility_rules : odict (odict Q);
  flow_rules : odict (odict Q);
  sentence_order : odict (list string)
}.

(** A value of [pattern_relationships]: the keys ['before'], ['after'] and
    ['position_context'], each present or not yet created. *)
Record PatternEntry : Type := mkPatternEntry {
  before : option (odict Q);
  after : option (odict Q);
  position_context : option (odict (odict Q))
}.

Definition empty_pattern_entry : PatternEntry := mkPatternEntry None None None.

Record WordLists : Type := mkWordLists {
  question_words : list string;
  answer_words : list string;
  fact_words : list string;
  theory_words : list string;
  past_indicators : list string;
  future_indicators : list string
}.

Record Flags : Type := mkFlags {
  internet_enabled : bool;
  code_enabled : bool;
  image_enabled : bool;
  ascii_enabled : bool
}.

Record ExpertField : Type := mkExpertField {
  field_weight : Q;
  keywords : list string
}.

Record Tone : Type := mkTone {
  tone_weight : Q;
  tone_words : list string
}.

Record Specialist : Type := mkSpecialist {
  vocabulary : list string;
  specialist_weight : Q
}.

Record Profile : Type := mkProfile {
  preferred_words : list string;
  learning_adaptation : Q;
  interaction_count : Z
}.

Record Enhancements : Type := mkEnhancements {
  emotional_tones : odict Tone;
  current_tone : string;
  specialists : odict Specialist;
  current_domain : string;
  creativity_level : Q;
  creativity_boost : Q;
  user_profiles : odict Profile;
  current_user : string
}.

(** The engine instance.  [_min_words] and [_max_words] are the private
    fields of lines 28-29; [min_words] and [max_words] are the instance
    attributes that lines 73-74 and [main] assign and that
    [generate_sentence] reads. *)
Record LLM : Type := mkLLM {
  word_db : odict WordEntry;
  word_relationships : odict (odict Q);
  pattern_relationships : odict PatternEntry;
  mode : string;
  operation_mode : string;
  grammar_rules : GrammarRules;
  _min_words : Z;
  _max_words : Z;
  min_words : Z;
  max_words : Z;
  flags : Flags;
  word_lists : WordLists;
  expert_fields : odict ExpertField;
  enhancements : Enhancements
}.

Definition with_word_db (v : odict WordEntry) (self : LLM) : LLM :=
  mkLLM v (word_relationships self) (pattern_relationships self) (mode self)
    (operation_mode self) (grammar_rules self) (_min_words self)
    (_max_words self) (min_words self) (max_words self) (flags self)
    (word_lists self) (expert_fields self) (enhancements self).

Definition with_word_relationships (v : odict (odict Q)) (self : LLM) : LLM :=
  mkLLM (word_db self) v (pattern_relationships self) (mode self)
    (operation_mode self) (grammar_rules self) (_min_words self)
    (_max_words self) (min_words self) (max_words self) (flags self)
    (word_lists self) (expert_fields self) (enhancements self).

Definition with_pattern_relationships (v : odict PatternEntry) (self : LLM) : LLM :=
  mkLLM (word_db self) (word_relationships self) v (mode self)
    (operation_mode self) (grammar_rules self) (_min_words self)
    (_max_words self) (min_words self) (max_words self) (flags self)
    (word_lists self) (expert_fields self) (enhancements self).

Definition with__min_words (v : Z) (self : LLM) : LLM :=
  mkLLM (word_db self) (word_relationships self) (pattern_relationships self)
    (mode self) (operation_mode self) (grammar_rules self) v
    (_max_words self) (min_words self) (max_words self) (flags self)
    (word_lists self) (expert_fields self) (enhancements self).

Definition with__max_words (v : Z) (self : LLM) : LLM :=
  mkLLM (word_db self) (word_relationships self) (pattern_relationships self)
    (mode self) (operation_mode self) (grammar_rules self) (_min_words self)
    v (min_words self) (max_words self) (flags self)
    (word_lists self) (expert_fields self) (enhancements self).

Definition with_min_words (v : Z) (self : LLM) : LLM :=
  mkLLM (word_db self) (word_relationships self) (pattern_relationships self)
    (mode self) (operation_mode self) (grammar_rules self) (_min_words self)
    (_max_words self) v (max_words self) (flags self)
    (word_lists self) (expert_fields self) (enhancements self).

Definition with_max_words (v : Z) (self : LLM) : LLM :=
  mkLLM (word_db self) (word_relationships self) (pattern_relationships self)
    (mode self) (operation_mode self) (grammar_rules self) (_min_words self)
    (_max_words self) (min_words self) v (flags self)
    (word_lists self) (expert_fields self) (enhancements self).

Definition with_flags (v : Flags) (self : LLM) : LLM :=
  mkLLM (word_db self) (word_relationships self) (pattern_relationships self)
    (mode self) (operation_mode self) (grammar_rules self) (_min_words self)
    (_max_words self) (min_words self) (max_words self) v
    (word_lists self) (expert_fields self) (enhancements self).

Definition with_enhancements (v : Enhancements) (self : LLM) : LLM :=
  mkLLM (word_db self) (word_relationships self) (pattern_relationships self)
    (mode self) (operation_mode self) (grammar_rules self) (_min_words self)
    (_max_words self) (min_words self) (max_words self) (flags self)
    (word_lists self) (expert_fields self) v.

(** ** A state monad for the methods that touch [self] *)

Definition M (A : Type) : Type := LLM -> A * LLM.

Definition ret {A : Type} (a : A) : M A := fun self => (a, self).

Definition bind {A B : Type} (m : M A) (k : A -> M B) : M B :=
  fun self => let (a, self') := m self in k a self'.

Notation "x <- m ;; k" := (bind m (fun x => k))
  (at level 61, m at next level, right associativity).
Notation "m ;;; k" := (bind m (fun _ => k))
  (at level 61, right associativity).

Definition gets {A : Type} (f : LLM -> A) : M A := fun self => (f self, self).

Definition modify (f : LLM -> LLM) : M unit := fun self => (tt, f self).

(** [for x in l: body(x)] *)
Fixpoint for_each {A : Type} (l : list A) (body : A -> M unit) : M unit :=
  match l with
  | [] => ret tt
  | x :: l' => body x ;;; for_each l' body
  end.

(** [sum(1 for x in l if test(x))] when the test touches [self] *)
Fixpoint count_where {A : Type} (l : list A) (test : A -> M bool) : M nat :=
  match l with
  | [] => ret O
  | x :: l' =>
      b <- test x ;;
      n <- count_where l' test ;;
      ret (if b then S n else n)
  end.

(** ** The relationship graph and the pattern index as [defaultdict]s *)

(** [self.word_relationships[w1]] *)
Definition rel_row (w1 : string) : M (odict Q) :=
  fun self =>
    let (row, rels) := ODict.read [] w1 (word_relationships self) in
    (row, with_word_relationships rels self).

(** [self.word_relationships[w1][w2]] *)
Definition rel_read (w1 w2 : string) : M Q :=
  fun self =>
    let (row, rels) := ODict.read [] w1 (word_relationships self) in
    let (x, row') := ODict.read 0%Q w2 row in
    (x, with_word_relationships (ODict.set w1 row' rels) self).

(** [self.word_relationships[w1][w2] += x] *)
Definition rel_add (w1 w2 : string) (x : Q) : M unit :=
  fun self =>
    let (row, rels) := ODict.read [] w1 (word_relationships self) in
    let (old, row') := ODict.read 0%Q w2 row in
    (tt, with_word_relationships
           (ODict.set w1 (ODict.set w2 (old + x)%Q row') rels) self).

(** [w1 in self.word_relationships] *)
Definition rel_has_row (w1 : string) : M bool :=
  gets (fun self => ODict.mem w1 (word_relationships self)).

(** The weight of the edge from [w1] to [w2]; a missing entry reads as 0. *)
Definition graph_weight (self : LLM) (w1 w2 : string) : Q :=
  ODict.get_or 0%Q w2 (ODict.get_or [] w1 (word_relationships self)).

(** [self.pattern_relationships[w]] *)
Definition pat_entry (w : string) : M PatternEntry :=
  fun self =>
    let (e, pats) := ODict.read empty_pattern_entry w (pattern_relationships self) in
    (e, with_pattern_relationships pats self).

Definition put_pat_entry (w : string) (e : PatternEntry) : M unit :=
  modify (fun self =>
    with_pattern_relationships (ODict.set w e (pattern_relationships self)) self).

Definition bucket (o : option (odict Q)) : odict Q :=
  match o with Some d => d | None => [] end.

(** [self.pattern_relationships[w]['after']] *)
Definition pat_after (w : string) : M (odict Q) :=
  e <- pat_entry w ;;
  put_pat_entry w (mkPatternEntry (before e) (Some (bucket (after e)))
                                  (position_context e)) ;;;
  ret (bucket (after e)).

(** [self.pattern_relationships[w]['before']] *)
Definition pat_before (w : string) : M (odict Q) :=
  e <- pat_entry w ;;
  put_pat_entry w (mkPatternEntry (Some (bucket (before e))) (after e)
                                  (position_context e)) ;;;
  ret (bucket (before e)).

(** [self.pattern_relationships[w]['after'][k]] *)
Definition pat_after_read (w k : string) : M Q :=
  e <- pat_entry w ;;
  let (x, d) := ODict.read 0%Q k (bucket (after e)) in
  put_pat_entry w (mkPatternEntry (before e) (Some d) (position_context e)) ;;;
  ret x.

(** [self.pattern_relationships[w]['before'][k] += x] *)
Definition pat_add_before (w k : string) (x : Q) : M unit :=
  e <- pat_entry w ;;
  let d := bucket (before e) in
  put_pat_entry w
    (mkPatternEntry (Some (ODict.set k (ODict.get_or 0%Q k d + x)%Q d))
                    (after e) (position_context e)).

(** [self.pattern_relationships[w]['after'][k] += x] *)
Definition pat_add_after (w k : string) (x : Q) : M unit :=
  e <- pat_entry w ;;
  let d := bucket (after e) in
  put_pat_entry w
    (mkPatternEntry (before e)
                    (Some (ODict.set k (ODict.get_or 0%Q k d + x)%Q d))
                    (position_context e)).

(** Lines 611-614: the ['position_context'] dictionary is created when the
    key is missing, then
    [self.pattern_relationships[w]['position_context'][pos][k] += x]. *)
Definition pat_add_position (w pos k : string) (x : Q) : M unit :=
  e <- pat_entry w ;;
  let ctx := match position_context e with Some c => c | None => [] end in
  let d := ODict.get_or [] pos ctx in
  put_pat_entry w
    (mkPatternEntry (before e) (after e)
       (Some (ODict.set pos (ODict.set k (ODict.get_or 0%Q k d + x)%Q d) ctx))).

(** ** Utility functions *)

(** The prefix scan of [_get_word_class]: [word[:i]] for [i] from [i] up,
    [n] prefixes in all. *)
Fixpoint first_known_prefix (db : odict WordEntry) (word : string)
    (i n : nat) : option WordEntry :=
  match n with
  | O => None
  | S n' =>
      match ODict.get (PyStr.take i word) db with
      | Some e => Some e
      | None => first_known_prefix db word (S i) n'
      end
  end.

(** [_get_word_class]: get word class with partial matching *)
Definition _get_word_class (self : LLM) (word : string) : string :=
  match ODict.get word (word_db self) with
  | Some e => wclass e
  | None =>
      match first_known_prefix (word_db self) word 1 (String.length word) with
      | Some e => wclass e
      | None => "unknown"
      end
  end.

(** [_get_word_position] *)
Definition _get_word_position (index total_words : nat) : string :=
  if (total_words <=? 1)%nat then "single_word"
  else if (index =? 0)%nat then "beginning_sentence"
  else if (index =? total_words - 1)%nat then "end_sentence"
  else "middle_sentence".

Definition not_punctuation (w : string) : bool := negb (PyStr.in_punctuation w).

(** The two counts of [_calculate_known_words_ratio]. *)
Definition word_count (words : list string) : nat :=
  length (filter not_punctuation words).

Definition known_count (self : LLM) (words : list string) : nat :=
  length (filter (fun w => not_punctuation w
                           && negb (String.eqb (_get_word_class self w) "unknown"))
                 words).

(** [_calculate_known_words_ratio]: percentage of known words *)
Definition _calculate_known_words_ratio (self : LLM) (words : list string) : Q :=
  if (word_count words =? 0)%nat then 0%Q
  else ((Z.of_nat (known_count self words) # 1)
        / (Z.of_nat (word_count words) # 1) * 100)%Q.

Definition any_in (words : list string) (l : list string) : bool :=
  existsb (fun w => PyStr.mem w l) words.

(** [_detect_sentence_type] *)
Definition _detect_sentence_type (self : LLM) (words : list string) : string :=
  if any_in words (question_words (word_lists self)) then "question"
  else if any_in words (answer_words (word_lists self)) then "answer"
  else if any_in words (fact_words (word_lists self)) then "fact"
  else if any_in words (theory_words (word_lists self)) then "theory"
  else "statement".

(** [_detect_tense] *)
Definition _detect_tense (self : LLM) (words : list string) : string :=
  if existsb (fun w => existsb (fun indicator => PyStr.contains indicator w)
                               (past_indicators (word_lists self))) words
  then "past"
  else if existsb (fun w => existsb (fun indicator => PyStr.contains indicator w)
                                    (future_indicators (word_lists self))) words
  then "future"
  else "present".

(** ** Arithmetic on scores *)

Definition Qltb (a b : Q) : bool := negb (Qle_bool b a).

(** [max(a, b)] of Python: the first argument unless the second is greater *)
Definition py_max (a b : Q) : Q := if Qltb a b then b else a.

(** [min(a, b)] of Python: the first argument unless the second is smaller *)
Definition py_min (a b : Q) : Q := if Qltb b a then b else a.

Definition Qnat (n : nat) : Q := Z.of_nat n # 1.

(** [enumerate(l)] *)
Definition enumerate {A : Type} (l : list A) : list (nat * A) :=
  combine (seq 0 (length l)) l.

(** [abs(a - b)] on indices *)
Definition index_distance (a b : nat) : nat := (a - b) + (b - a).

(** [max(items, key=lambda x: x[1])]: the first item of greatest value *)
Fixpoint argmax_from (best : string * Q) (l : list (string * Q)) : string * Q :=
  match l with
  | [] => best
  | x :: l' => argmax_from (if Qltb (snd best) (snd x) then x else best) l'
  end.

Definition argmax (l : list (string * Q)) : option (string * Q) :=
  match l with
  | [] => None
  | x :: l' => Some (argmax_from x l')
  end.

(** ** Pattern analysis *)

(** [_calculate_grammatical_compatibility] *)
Definition _calculate_grammatical_compatibility (self : LLM) (word1 word2 : string) : Q :=
  let class1 := _get_word_class self word1 in
  let class2 := _get_word_class self word2 in
  ODict.get_or 0.1%Q class2
    (ODict.get_or [] class1 (compatibility_rules (grammar_rules self))).

(** [_calculate_semantic_proximity] *)
Definition _calculate_semantic_proximity (word1 word2 : string)
    (all_words : list string) (current_index : nat) : M Q :=
  row1 <- rel_row word1 ;;
  shared_connections <-
    count_where (ODict.keys row1) (fun word =>
      row2 <- rel_row word2 ;;
      if ODict.mem word row2
      then (x <- rel_read word2 word ;; ret (Qltb 0 x))
      else ret false) ;;
  let proximity := (0 + Qnat shared_connections * 0.2)%Q in
  let word2_index :=
    if PyStr.mem word2 all_words then PyStr.index_of word2 all_words
    else current_index in
  let distance := index_distance current_index word2_index in
  let proximity :=
    if (0 <? distance)%nat then (proximity + (1 / Qnat distance) * 0.3)%Q
    else proximity in
  ret (py_min 1 proximity).

(** [_calculate_contextual_relevance] *)
Definition _calculate_contextual_relevance (word1 word2 : string)
    (all_words : list string) : M Q :=
  let theme_words :=
    filter (fun w => negb (PyStr.mem w [word1; word2]) && not_punctuation w)
           all_words in
  shared_theme_connections <-
    count_where (firstn 3 theme_words) (fun theme_word =>
      x1 <- rel_read word1 theme_word ;;
      if Qltb 0 x1
      then (x2 <- rel_read word2 theme_word ;; ret (Qltb 0 x2))
      else ret false) ;;
  ret (py_min 0.5 (0 + Qnat shared_theme_connections * 0.2)%Q).

(** [_calculate_pattern_relationship]: calculate relationship strength *)
Definition _calculate_pattern_relationship (word1 word2 : string)
    (all_words : list string) (current_index : nat) : M Q :=
  direct_rel <- rel_read word1 word2 ;;
  let strength := (0 + Qabs direct_rel * 0.4)%Q in
  semantic_weight <-
    _calculate_semantic_proximity word1 word2 all_words current_index ;;
  let strength := (strength + semantic_weight * 0.25)%Q in
  grammatical_weight <-
    gets (fun self => _calculate_grammatical_compatibility self word1 word2) ;;
  let strength := (strength + grammatical_weight * 0.20)%Q in
  contextual_weight <- _calculate_contextual_relevance word1 word2 all_words ;;
  let strength := (strength + contextual_weight * 0.15)%Q in
  ret (py_max 0 strength).

(** [_build_relationship_patterns]: build pattern relationships between
    words *)
Definition _build_relationship_patterns (current_word : string)
    (all_words : list string) (current_index : nat) : M unit :=
  for_each (enumerate all_words) (fun '(i, other_word) =>
    if (i =? current_index)%nat || PyStr.in_punctuation other_word
    then ret tt
    else
      relationship_strength <-
        _calculate_pattern_relationship current_word other_word all_words
                                        current_index ;;
      (if (i <? current_index)%nat
       then pat_add_before current_word other_word relationship_strength
       else pat_add_after current_word other_word relationship_strength) ;;;
      let sentence_position := _get_word_position i (length all_words) in
      pat_add_position current_word sentence_position other_word
                       relationship_strength).

(** [old + 1] on a JSON value: numbers and booleans add, anything else
    raises [TypeError] *)
Definition json_add_one (j : Json) : option Json :=
  match j with
  | JNumber q => Some (JNumber (q + 1)%Q)
  | JBool b => Some (JNumber ((if b then 1 else 0) + 1)%Q)
  | _ => None
  end.

(** Lines 914-918 on the [pattern_data] of one word; [None] when Python
    raises (the value, or its ['position_patterns'] member, is no object, or
    the old count is no number). *)
Definition bump_position (pd : Json) (position_type : string) : option Json :=
  match pd with
  | JObject fields =>
      let fields1 :=
        if ODict.mem "position_patterns" fields then fields
        else ODict.set "position_patterns" (JObject []) fields in
      match ODict.get "position_patterns" fields1 with
      | Some (JObject counts) =>
          match json_add_one (ODict.get_or (JNumber 0) position_type counts) with
          | Some n =>
              Some (JObject (ODict.set "position_patterns"
                               (JObject (ODict.set position_type n counts))
                               fields1))
          | None => None
          end
      | _ => None
      end
  | _ => None
  end.

Definition with_pattern_data (pd : Json) (e : WordEntry) : WordEntry :=
  mkWordEntry (wclass e) (singular e) (plural e) (synonyms e) (antonyms e)
              (meaning e) (acronyms e) pd (expert_field e).

(** [_update_word_position_data]; the result is [false] when it raises *)
Definition _update_word_position_data (word position_type : string) : M bool :=
  fun self =>
    match ODict.get word (word_db self) with
    | None => (true, self)
    | Some e =>
        match bump_position (pattern_data e) position_type with
        | Some pd =>
            (true, with_word_db (ODict.set word (with_pattern_data pd e)
                                           (word_db self)) self)
        | None => (false, self)
        end
    end.

(** ** Context deduction *)

Record Context : Type := mkContext {
  main_topic : string;
  main_expert : string;
  topic_confidence : Q;
  expert_confidence : Q
}.

(** [d[k] = d.get(k, 0) + x], which is also [d[k] += x] on a
    [defaultdict(float)] *)
Definition od_add (k : string) (x : Q) (d : odict Q) : odict Q :=
  ODict.set k (ODict.get_or 0%Q k d + x)%Q d.

(** The text tokens every entry point works on:
    [[w for w in re.findall(r'\b\w+\b', text.lower())
      if w not in string.punctuation]] *)
Definition text_words (text : string) : list string :=
  filter not_punctuation (PyStr.findall_words (PyStr.lower text)).

(** [Counter(l).items()] as weights *)
Definition counter (l : list string) : odict Q :=
  fold_left (fun d w => od_add w 1 d) l [].

(** [_deduce_context]: the highest probability topic and expert field *)
Definition _deduce_context (self : LLM) (text : string) : Context :=
  let words := text_words text in
  let nouns := filter (fun w => String.eqb (_get_word_class self w) "noun") words in
  let noun_weights : odict Q :=
    match nouns with
    | [] => []
    | first_noun :: _ =>
        let w1 := ODict.set first_noun 2.0%Q [] in
        let w2 := fold_left (fun d '(noun, count) => od_add noun (count * 0.5)%Q d)
                            (counter nouns) w1 in
        fold_left
          (fun d noun =>
             fold_left (fun d' synonym => od_add synonym 0.3%Q d')
                       (match ODict.get noun (word_db self) with
                        | Some e => synonyms e
                        | None => []
                        end) d)
          nouns w2
    end in
  let expert_scores : odict Q :=
    fold_left
      (fun d word =>
         match ODict.get word (word_db self) with
         | Some e =>
             if negb (String.eqb (expert_field e) "general")
             then od_add (expert_field e) 1.0%Q d else d
         | None => d
         end)
      words [] in
  mkContext
    (match argmax noun_weights with
     | Some best => fst best
     | None => match words with w :: _ => w | [] => "general" end
     end)
    (match argmax expert_scores with
     | Some best => fst best
     | None => "general"
     end)
    (match argmax noun_weights with Some best => snd best | None => 0.0%Q end)
    (match argmax expert_scores with Some best => snd best | None => 0.0%Q end).

(** ** Sentence analysis *)

(** The dictionary [analyze_patterns] returns.  The two lists of formatted
    strings are kept as the data they are formatted from. *)
Record Analysis : Type := mkAnalysis {
  word_classes : list (string * string);
  sentence_type : string;
  tense : string;
  relationship_patterns : list (string * string * Q);
  known_words_ratio : Q;
  position_patterns : list (string * string);
  context : Context
}.

(** The body of the loop of [analyze_patterns], from the word at index [i]
    on; [None] when [_update_word_position_data] raises. *)
Fixpoint analyze_loop (items : list (nat * string)) (words : list string)
    (result : Analysis) : M (option Analysis) :=
  match items with
  | [] => ret (Some result)
  | (i, word) :: rest =>
      if PyStr.in_punctuation word then analyze_loop rest words result
      else
        word_class <- gets (fun self => _get_word_class self word) ;;
        _build_relationship_patterns word words i ;;;
        let position_type := _get_word_position i (length words) in
        training <- gets (fun self => String.eqb (operation_mode self) "training") ;;
        ok <- (if training then _update_word_position_data word position_type
               else ret true) ;;
        if negb ok then ret None
        else
          let prev_word := nth (i - 1) words "" in
          rels <-
            (if (0 <? i)%nat && not_punctuation prev_word
             then
               relationship_strength <-
                 _calculate_pattern_relationship prev_word word words i ;;
               ret [(prev_word, word, relationship_strength)]
             else ret []) ;;
          analyze_loop rest words
            (mkAnalysis (word_classes result ++ [(word, word_class)])
                        (sentence_type result) (tense result)
                        (relationship_patterns result ++ rels)
                        (known_words_ratio result)
                        (position_patterns result ++ [(word, position_type)])
                        (context result))
  end.

(** [analyze_patterns]: analyze sentence patterns and relationships *)
Definition analyze_patterns (sentence : string) : M (option Analysis) :=
  let words := PyStr.findall_words_or_symbols (PyStr.lower sentence) in
  result <- gets (fun self =>
    mkAnalysis [] (_detect_sentence_type self words) (_detect_tense self words)
               [] (_calculate_known_words_ratio self words) []
               (_deduce_context self sentence)) ;;
  analyze_loop (enumerate words) words result.

(** ** Relationship building *)

(** [_build_relationships]: build word relationships for the entry stored
    under [word] *)
Definition _build_relationships (word : string) : M unit :=
  found <- gets (fun self => ODict.get word (word_db self)) ;;
  match found with
  | None => ret tt
  | Some data =>
      for_each (synonyms data) (fun synonym =>
        rel_add word synonym 2.0%Q ;;; rel_add synonym word 2.0%Q) ;;;
      for_each (antonyms data) (fun antonym =>
        rel_add word antonym (- 1.5)%Q ;;; rel_add antonym word (- 1.5)%Q) ;;;
      for_each (acronyms data) (fun acronym =>
        rel_add word acronym 1.0%Q ;;; rel_add acronym word 1.0%Q) ;;;
      let word_class := wclass data in
      pairs <- gets (fun self => ODict.get word_class (common_pairs (grammar_rules self))) ;;
      match pairs with
      | None => ret tt
      | Some compatible =>
          db <- gets word_db ;;
          for_each db (fun '(other_word, other_data) =>
            if negb (String.eqb other_word word)
               && PyStr.mem (wclass other_data) compatible
            then rel_add word other_word 0.3%Q
            else ret tt)
      end
  end.

(** [_check_partial_matches]: check for partial word matches *)
Definition _check_partial_matches (word : string) : M unit :=
  for_each (seq 1 (String.length word - 1)) (fun i =>
    let partial := PyStr.take i word in
    known <- gets (fun self => ODict.mem partial (word_db self)) ;;
    if known
    then
      let weight := (0.5 * (Qnat i / Qnat (String.length word)))%Q in
      rel_add word partial weight ;;; rel_add partial word weight
    else ret tt).

(** ** Bridging systems (training passes) *)

(** A Python [set] of strings, built in insertion order. *)
Definition set_add (x : string) (s : list string) : list string :=
  if PyStr.mem x s then s else s ++ [x].

Definition set_of (l : list string) : list string :=
  fold_left (fun s x => set_add x s) l [].

Definition with_synonyms (v : list string) (e : WordEntry) : WordEntry :=
  mkWordEntry (wclass e) (singular e) (plural e) v (antonyms e)
              (meaning e) (acronyms e) (pattern_data e) (expert_field e).

Definition with_antonyms (v : list string) (e : WordEntry) : WordEntry :=
  mkWordEntry (wclass e) (singular e) (plural e) (synonyms e) v
              (meaning e) (acronyms e) (pattern_data e) (expert_field e).

Definition with_wclass (v : string) (e : WordEntry) : WordEntry :=
  mkWordEntry v (singular e) (plural e) (synonyms e) (antonyms e)
              (meaning e) (acronyms e) (pattern_data e) (expert_field e).

Definition with_expert_field (v : string) (e : WordEntry) : WordEntry :=
  mkWordEntry (wclass e) (singular e) (plural e) (synonyms e) (antonyms e)
              (meaning e) (acronyms e) (pattern_data e) v.

Definition update_entry (word : string) (f : WordEntry -> WordEntry) : M unit :=
  modify (fun self =>
    match ODict.get word (word_db self) with
    | Some e => with_word_db (ODict.set word (f e) (word_db self)) self
    | None => self
    end).

(** The closure step shared by [_bridge_synonyms] and [_bridge_antonyms]:
    [related] selects the list that is bridged, [delta] is the weight of a new
    edge.  The set is iterated in insertion order. *)
Definition bridge_word (related : WordEntry -> list string)
    (store : list string -> WordEntry -> WordEntry) (delta : Q)
    (word : string) : M unit :=
  found <- gets (fun self => ODict.get word (word_db self)) ;;
  match found with
  | None => ret tt
  | Some data =>
      db <- gets word_db ;;
      let all_related :=
        fold_left
          (fun acc linked =>
             match ODict.get linked db with
             | Some linked_data =>
                 fold_left
                   (fun acc' sub =>
                      if negb (String.eqb sub word) && negb (PyStr.mem sub acc')
                      then acc' ++ [sub] else acc')
                   (related linked_data) acc
             | None => acc
             end)
          (related data) (set_of (related data)) in
      if (length all_related =? length (set_of (related data)))%nat
      then ret tt
      else
        update_entry word (store all_related) ;;;
        for_each all_related (fun new_related =>
          row <- rel_row word ;;
          if ODict.mem new_related row then ret tt
          else rel_add word new_related delta ;;; rel_add new_related word delta)
  end.

(** [_bridge_synonyms] *)
Definition _bridge_synonyms : M unit :=
  db <- gets word_db ;;
  for_each (ODict.keys db) (bridge_word synonyms with_synonyms 2.0%Q).

(** [_bridge_antonyms] *)
Definition _bridge_antonyms : M unit :=
  db <- gets word_db ;;
  for_each (ODict.keys db) (bridge_word antonyms with_antonyms (- 1.5)%Q).

(** [_deduce_expert_field] *)
Definition _deduce_expert_field (self : LLM) (data : WordEntry) : string :=
  let text := PyStr.lower (meaning data) in
  let expert_scores : odict Q :=
    fold_left
      (fun scores '(expert, expert_data) =>
         let scores1 :=
           fold_left
             (fun sc keyword =>
                if PyStr.contains keyword text
                then od_add expert (field_weight expert_data) sc else sc)
             (keywords expert_data) scores in
         fold_left
           (fun sc synonym =>
              match ODict.get synonym (word_db self) with
              | Some e =>
                  if String.eqb (expert_field e) expert
                  then od_add expert 0.5%Q sc else sc
              | None => sc
              end)
           (synonyms data) scores1)
      (expert_fields self) [] in
  match argmax expert_scores with
  | Some best => fst best
  | None => "general"
  end.

(** [_bridge_experts] *)
Definition _bridge_experts : M unit :=
  db <- gets word_db ;;
  for_each (ODict.keys db) (fun word =>
    found <- gets (fun self => ODict.get word (word_db self)) ;;
    match found with
    | None => ret tt
    | Some data =>
        best_expert <- gets (fun self => _deduce_expert_field self data) ;;
        if negb (String.eqb best_expert "general")
           && String.eqb (expert_field data) "general"
        then update_entry word (with_expert_field best_expert)
        else ret tt
    end).

(** [_infer_word_class_from_patterns] *)
Definition _infer_word_class_from_patterns (word : string) : M string :=
  before_bucket <- pat_before word ;;
  after_bucket <- pat_after word ;;
  self <- gets (fun self => self) ;;
  let compat := compatibility_rules (grammar_rules self) in
  let scores1 : odict Q :=
    fold_left
      (fun scores '(context_word, strength) =>
         match ODict.get context_word (word_db self) with
         | Some e =>
             let rules := ODict.get_or [] (wclass e) compat in
             fold_left
               (fun sc test_class =>
                  match ODict.get test_class rules with
                  | Some w => od_add test_class (strength * w)%Q sc
                  | None => sc
                  end)
               ["noun"; "verb"; "adjective"; "adverb"] scores
         | None => scores
         end)
      (before_bucket ++ after_bucket) [] in
  let class_scores : odict Q :=
    fold_left
      (fun scores '(other_word, other_data) =>
         if PyStr.mem word (synonyms other_data)
            && negb (String.eqb (wclass other_data) "unknown")
         then od_add (wclass other_data) 1.0%Q scores else scores)
      (word_db self) scores1 in
  ret (match argmax class_scores with
       | Some best => fst best
       | None => "unknown"
       end).

(** [_infer_unknown_word_classes] *)
Definition _infer_unknown_word_classes : M unit :=
  db <- gets word_db ;;
  for_each (ODict.keys db) (fun word =>
    found <- gets (fun self => ODict.get word (word_db self)) ;;
    match found with
    | None => ret tt
    | Some data =>
        if String.eqb (wclass data) "unknown"
        then
          inferred_class <- _infer_word_class_from_patterns word ;;
          if negb (String.eqb inferred_class "unknown")
          then update_entry word (with_wclass inferred_class)
          else ret tt
        else ret tt
    end).

(** ** Dictionary management *)

Definition punctuation_entry (char : string) : WordEntry :=
  mkWordEntry "punctuation" char "" [] [] ("punctuation: " ++ char) []
              (JObject []) "general".

Definition number_entry (num_str : string) : WordEntry :=
  mkWordEntry "number" num_str "" [] [] ("number: " ++ num_str) []
              (JObject []) "general".

(** The characters of the literal on line 323, one string each. *)
Definition punctuation_marks : list string :=
  ["!"; ","; "."; "?"; ";"; ":"; "~"; String PyStr.dquote EmptyString; "'";
   "("; ")"; "["; "]"; "{"; "}"].

Definition decimal_digits : list string :=
  ["0"; "1"; "2"; "3"; "4"; "5"; "6"; "7"; "8"; "9"].

Definition add_if_missing (make : string -> WordEntry) (key : string) : M unit :=
  modify (fun self =>
    if ODict.mem key (word_db self) then self
    else with_word_db (ODict.set key (make key) (word_db self)) self).

(** [_add_punctuation_and_numbers] *)
Definition _add_punctuation_and_numbers : M unit :=
  for_each punctuation_marks (add_if_missing punctuation_entry) ;;;
  for_each decimal_digits (add_if_missing number_entry).

(** [[x.strip().lower() for x in field.split(',')]] *)
Definition csv_field (field : string) : list string :=
  map (fun x => PyStr.lower (PyStr.strip x)) (PyStr.split_on "," field).

(** [parts[n]] when [len(parts) > n] and, for the optional lists, the
    field is not empty *)
Definition part (n : nat) (parts : list string) : option string := nth_error parts n.

Definition csv_part (n : nat) (parts : list string) : list string :=
  match part n parts with
  | Some field => if PyStr.is_empty field then [] else csv_field field
  | None => []
  end.

(** [[p.strip() for p in line.split(';')]] *)
Definition record_parts (line : string) : list string :=
  map PyStr.strip (PyStr.split_on ";" line).

(** [parts[1].lower()], the key a record is stored under *)
Definition record_key (line : string) : string :=
  PyStr.lower (nth 1 (record_parts line) "").

(** What the body of the loop of [import_dictionary] does with one line. *)
Inductive LineOutcome : Type :=
| Skipped                                  (* one of the three [continue]s *)
| Stored (word : string) (entry : WordEntry)
| Raised.                                  (* [json.loads] raised *)

Section DictionaryFeed.

(** [json.loads], the parser of the standard library; [None] when it raises. *)
Variable json_loads : string -> option Json.

(** Lines 284-303: the record a line of the feed stands for. *)
Definition parse_line (self : LLM) (line : string) : LineOutcome :=
  if PyStr.is_empty (PyStr.strip line) || PyStr.startswith "#" line then Skipped
  else
    let parts := record_parts line in
    if (length parts <? 2)%nat then Skipped
    else
      let word_class := nth 0 parts "" in
      let word := record_key line in
      if ODict.mem word (word_db self) then Skipped
      else
        let loaded :=
          match part 8 parts with
          | Some field =>
              if PyStr.is_empty field then Some (JObject []) else json_loads field
          | None => Some (JObject [])
          end in
        match loaded with
        | None => Raised
        | Some pd =>
            Stored word
              (mkWordEntry word_class
                 (match part 2 parts with Some s => s | None => word end)
                 (match part 3 parts with Some s => s | None => "" end)
                 (csv_part 4 parts)
                 (csv_part 5 parts)
                 (match part 6 parts with Some s => s | None => "" end)
                 (csv_part 7 parts)
                 pd
                 "general")
        end.

(** Lines 294-306 once the record is built: store it, then build its
    edges. *)
Definition import_record (word : string) (entry : WordEntry) : M unit :=
  modify (fun self => with_word_db (ODict.set word entry (word_db self)) self) ;;;
  _build_relationships word ;;;
  _check_partial_matches word.

(** One iteration of the loop over the lines of the feed; the result is
    [false] when the iteration raises. *)
Definition import_line (line : string) : M bool :=
  outcome <- gets (fun self => parse_line self line) ;;
  match outcome with
  | Skipped => ret true
  | Stored word entry => import_record word entry ;;; ret true
  | Raised => ret false
  end.

(** The loop of lines 283-306; [false] when an iteration raised, which
    ends the loop. *)
Fixpoint import_lines (lines : list string) : M bool :=
  match lines with
  | [] => ret true
  | line :: rest =>
      ok <- import_line line ;;
      if ok then import_lines rest else ret false
  end.

(** [import_dictionary] on a feed that exists, given as its lines.  An
    exception leaves the [try] block at once, so nothing after the loop
    runs. *)
Definition import_dictionary (lines : list string) : M unit :=
  ok <- import_lines lines ;;
  if ok
  then
    _add_punctuation_and_numbers ;;;
    training <- gets (fun self => String.eqb (operation_mode self) "training") ;;
    if training
    then
      _bridge_synonyms ;;;
      _bridge_antonyms ;;;
      _bridge_experts ;;;
      _infer_unknown_word_classes
    else ret tt
  else ret tt.

End DictionaryFeed.

(** ** Prediction system *)

(** A ranked entry [(word, score)]. *)
Definition Prediction : Type := (string * Q)%type.

(** Insertion into a list that is already in descending order of score:
    the new entry goes before the first entry whose score is not greater, so
    an entry that came earlier stays ahead of its equals. *)
Fixpoint insert_desc (x : Prediction) (l : list Prediction) : list Prediction :=
  match l with
  | [] => [x]
  | y :: l' => if Qltb (snd x) (snd y) then y :: insert_desc x l' else x :: y :: l'
  end.

(** [sorted(l, key=lambda x: x[1], reverse=True)]: a stable sort in
    descending order of score *)
Definition sorted_desc (l : list Prediction) : list Prediction :=
  fold_right insert_desc [] l.

(** [_get_top_predictions] with [top_n=10] *)
Definition _get_top_predictions (scores : odict Q) : list Prediction :=
  firstn 10 (sorted_desc (filter (fun '(_, score) => Qltb 0 score) scores)).

(** [_get_expected_classes] *)
Definition _get_expected_classes (self : LLM) (current_class : string) : list string :=
  match ODict.keys (ODict.get_or [] current_class (flow_rules (grammar_rules self))) with
  | [] => ["noun"; "verb"]
  | expected => expected
  end.

(** [_calculate_grammatical_flow] *)
Definition _calculate_grammatical_flow (self : LLM) (last_word candidate_word : string) : Q :=
  let last_class := _get_word_class self last_word in
  let candidate_class := _get_word_class self candidate_word in
  ODict.get_or 0.1%Q candidate_class
    (ODict.get_or [] last_class (flow_rules (grammar_rules self))).

(** [l[-n:]] for [n > 0] *)
Definition last_n {A : Type} (n : nat) (l : list A) : list A :=
  skipn (length l - n) l.

(** The loop of [_calculate_contextual_coherence] over the words it is
    given, from the coherence found so far. *)
Fixpoint coherence_loop (candidate_word : string) (l : list string)
    (coherence : Q) : M Q :=
  match l with
  | [] => ret coherence
  | prev_word :: l' =>
      row <- rel_row candidate_word ;;
      if ODict.mem prev_word row
      then
        rel_strength <- rel_read candidate_word prev_word ;;
        coherence_loop candidate_word l'
          (if Qltb 0 rel_strength
           then (coherence + rel_strength * 0.2)%Q else coherence)
      else coherence_loop candidate_word l' coherence
  end.

(** [_calculate_contextual_coherence] *)
Definition _calculate_contextual_coherence (candidate_word : string)
    (previous_words : list string) : M Q :=
  coherence <- coherence_loop candidate_word (last_n 3 previous_words) 0.0%Q ;;
  ret (py_min 1 coherence).

(** [_get_semantic_field] *)
Definition _get_semantic_field (self : LLM) (word : string) : string :=
  match ODict.get word (word_db self) with
  | Some e =>
      let text := PyStr.lower (meaning e) in
      if existsb (fun term => PyStr.contains term text)
                 ["computer"; "digital"; "electronic"] then "technology"
      else if existsb (fun term => PyStr.contains term text)
                      ["science"; "research"; "study"] then "science"
      else if existsb (fun term => PyStr.contains term text)
                      ["math"; "calculate"; "number"] then "mathematics"
      else "general"
  | None => "general"
  end.

(** [_calculate_field_consistency] *)
Definition _calculate_field_consistency (self : LLM) (candidate_word : string)
    (previous_words : list string) : Q :=
  let candidate_field := _get_semantic_field self candidate_word in
  if String.eqb candidate_field "general" then 0.3%Q
  else
    let field_matches :=
      length (filter (fun prev_word =>
                        String.eqb (_get_semantic_field self prev_word) candidate_field)
                     (last_n 2 previous_words)) in
    (Qnat field_matches * 0.2)%Q.

(** [_simple_relationship_prediction]: simple prediction mode *)
Definition _simple_relationship_prediction (words : list string) : M (list Prediction) :=
  let last_word := last words "" in
  row <- rel_row last_word ;;
  let scores :=
    fold_left (fun sc '(related_word, rel_strength) =>
                 if Qltb 0 rel_strength
                 then od_add related_word (rel_strength * 0.5)%Q sc else sc)
              row [] in
  after_bucket <- pat_after last_word ;;
  let scores :=
    fold_left (fun sc '(next_word, pattern_strength) =>
                 od_add next_word (pattern_strength * 0.3)%Q sc)
              after_bucket scores in
  self <- gets (fun self => self) ;;
  let last_class := _get_word_class self last_word in
  let expected_classes := _get_expected_classes self last_class in
  let scores :=
    fold_left (fun sc '(word, data) =>
                 if PyStr.mem (wclass data) expected_classes
                 then od_add word 0.2%Q sc else sc)
              (word_db self) scores in
  ret (_get_top_predictions scores).

(** The score [_complex_relationship_prediction] gives one candidate. *)
Definition complex_score (last_word candidate_word : string)
    (words : list string) : M Q :=
  direct_rel <- rel_read last_word candidate_word ;;
  let total_score := (0.0 + py_max 0 direct_rel * 0.3)%Q in
  pattern_rel <- pat_after_read last_word candidate_word ;;
  let total_score := (total_score + pattern_rel * 0.25)%Q in
  grammatical_score <-
    gets (fun self => _calculate_grammatical_flow self last_word candidate_word) ;;
  let total_score := (total_score + grammatical_score * 0.20)%Q in
  contextual_score <- _calculate_contextual_coherence candidate_word words ;;
  let total_score := (total_score + contextual_score * 0.15)%Q in
  field_score <-
    gets (fun self => _calculate_field_consistency self candidate_word words) ;;
  ret (total_score + field_score * 0.10)%Q.

(** The loop of [_complex_relationship_prediction] over the keys of the
    lexicon, from the scores found so far. *)
Fixpoint complex_scores (last_word : string) (words : list string)
    (candidates : list string) (scores : odict Q) : M (odict Q) :=
  match candidates with
  | [] => ret scores
  | candidate_word :: rest =>
      if String.eqb candidate_word last_word
      then complex_scores last_word words rest scores
      else
        total_score <- complex_score last_word candidate_word words ;;
        complex_scores last_word words rest
          (if Qltb 0 total_score
           then ODict.set candidate_word total_score scores
           else scores)
  end.

(** [_complex_relationship_prediction]: complex prediction mode *)
Definition _complex_relationship_prediction (words : list string) : M (list Prediction) :=
  let last_word := last words "" in
  db <- gets word_db ;;
  scores <- complex_scores last_word words (ODict.keys db) [] ;;
  ret (_get_top_predictions scores).

(** What [predict_next] returns: the bare empty list of line 624, or the
    pair of line 633. *)
Inductive PredictResult : Type :=
| EmptyList
| Pair (predictions : list Prediction) (known_ratio : Q).

(** [predict_next]: predict next word(s) *)
Definition predict_next (text mode : string) : M PredictResult :=
  let words := text_words text in
  match words with
  | [] => ret EmptyList
  | _ :: _ =>
      known_ratio <- gets (fun self =>
        _calculate_known_words_ratio self
          (PyStr.findall_words_or_symbols (PyStr.lower text))) ;;
      predictions <-
        (if String.eqb mode "simple"
         then _simple_relationship_prediction words
         else _complex_relationship_prediction words) ;;
      ret (Pair predictions known_ratio)
  end.

(** ** Enhancement methods *)

Definition with_current_tone (v : string) (e : Enhancements) : Enhancements :=
  mkEnhancements (emotional_tones e) v (specialists e) (current_domain e)
    (creativity_level e) (creativity_boost e) (user_profiles e) (current_user e).

Definition with_current_domain (v : string) (e : Enhancements) : Enhancements :=
  mkEnhancements (emotional_tones e) (current_tone e) (specialists e) v
    (creativity_level e) (creativity_boost e) (user_profiles e) (current_user e).

Definition with_user_profiles (v : odict Profile) (e : Enhancements) : Enhancements :=
  mkEnhancements (emotional_tones e) (current_tone e) (specialists e)
    (current_domain e) (creativity_level e) (creativity_boost e) v (current_user e).

(** The loop shared by the five layers: rescale the entries the test
    selects, then sort again. *)
Definition rescale (scale : Prediction -> Q) (predictions : list Prediction)
    : list Prediction :=
  sorted_desc (map (fun p => (fst p, scale p)) predictions).

(** [get_contextual_predictions] *)
Definition get_contextual_predictions (self : LLM) (text : string)
    (base_predictions : list Prediction) : list Prediction :=
  let topic := main_topic (_deduce_context self text) in
  if PyStr.is_empty topic then base_predictions
  else
    rescale
      (fun '(word, score) =>
         let context_boost :=
           match ODict.get topic (word_relationships self) with
           | Some row =>
               match ODict.get word row with
               | Some w => (w * 0.1)%Q
               | None => 0.0%Q
               end
           | None => 0.0%Q
           end in
         (score * (1 + context_boost))%Q)
      base_predictions.

(** [detect_emotional_tone] *)
Definition detect_emotional_tone (text : string) : M string :=
  fun self =>
    let words := PyStr.split_ws (PyStr.lower text) in
    let tone_scores : odict Q :=
      fold_left
        (fun scores '(tone, data) =>
           fold_left
             (fun sc tone_word =>
                if PyStr.mem tone_word words
                then od_add tone (tone_weight data) sc else sc)
             (tone_words data) scores)
        (emotional_tones (enhancements self)) [] in
    let tone :=
      match argmax tone_scores with
      | Some best => fst best
      | None => "neutral"
      end in
    (tone, with_enhancements (with_current_tone tone (enhancements self)) self).

(** [adapt_to_tone] *)
Definition adapt_to_tone (self : LLM) (predictions : list Prediction)
    : list Prediction :=
  let tone := current_tone (enhancements self) in
  if String.eqb tone "neutral" then predictions
  else
    let tone_data :=
      ODict.get_or (mkTone 1.0%Q []) tone (emotional_tones (enhancements self)) in
    rescale
      (fun '(word, score) =>
         if PyStr.mem word (tone_words tone_data)
         then (score * tone_weight tone_data)%Q else score)
      predictions.

(** [detect_domain] *)
Definition detect_domain (text : string) : M string :=
  fun self =>
    let words := set_of (PyStr.split_ws (PyStr.lower text)) in
    let domain_scores : odict Q :=
      fold_left
        (fun scores '(domain, data) =>
           let overlap := filter (fun w => PyStr.mem w (vocabulary data)) words in
           ODict.set domain (Qnat (length overlap) * specialist_weight data)%Q scores)
        (specialists (enhancements self)) [] in
    let domain :=
      match argmax domain_scores with
      | Some best => fst best
      | None => "general"
      end in
    (domain, with_enhancements (with_current_domain domain (enhancements self)) self).

(** [get_domain_enhanced_predictions]; [None] stands for the [KeyError] of
    line 1020 *)
Definition get_domain_enhanced_predictions (self : LLM)
    (base_predictions : list Prediction) : option (list Prediction) :=
  let domain := current_domain (enhancements self) in
  if String.eqb domain "general" then Some base_predictions
  else
    match ODict.get domain (specialists (enhancements self)) with
    | None => None
    | Some domain_data =>
        Some (rescale
                (fun '(word, score) =>
                   if PyStr.mem word (vocabulary domain_data)
                   then (score * specialist_weight domain_data)%Q else score)
                base_predictions)
    end.

(** [get_creative_predictions] *)
Definition get_creative_predictions (self : LLM)
    (base_predictions : list Prediction) : list Prediction :=
  if Qltb (creativity_level (enhancements self)) 0.1 then base_predictions
  else
    rescale
      (fun '(word, score) =>
         if Qltb score 0.7
         then (score * (1 + creativity_boost (enhancements self)))%Q else score)
      base_predictions.

(** The value the [defaultdict] of user profiles creates. *)
Definition default_profile : Profile := mkProfile [] 1.0%Q 0.

(** [get_personalized_predictions]; evaluating the default argument of
    [.get] creates the ['default'] profile *)
Definition get_personalized_predictions (base_predictions : list Prediction)
    : M (list Prediction) :=
  fun self =>
    let (dflt, profiles) :=
      ODict.read default_profile "default" (user_profiles (enhancements self)) in
    let self' := with_enhancements (with_user_profiles profiles (enhancements self)) self in
    let profile := ODict.get_or dflt (current_user (enhancements self)) profiles in
    match preferred_words profile with
    | [] => (base_predictions, self')
    | _ :: _ =>
        (rescale
           (fun '(word, score) =>
              if PyStr.mem word (preferred_words profile)
              then (score * (1 + learning_adaptation profile * 0.2))%Q else score)
           base_predictions, self')
    end.

(** How a call ends: with a value, or with an exception that leaves the
    method. *)
Inductive Outcome (A : Type) : Type :=
| Returned (a : A)
| RaisedError (kind : string).

Arguments Returned {A} a.
Arguments RaisedError {A} kind.

(** [enhanced_predict_next]: enhanced prediction.  Unpacking the result of
    [predict_next] into two names raises [ValueError] when that result is the
    empty list. *)
Definition enhanced_predict_next (text mode : string)
    : M (Outcome (list Prediction * Q)) :=
  modify (with_flags (mkFlags false false false false)) ;;;
  if PyStr.is_empty (PyStr.strip text) then ret (Returned ([], 100%Q))
  else
    base <- predict_next text mode ;;
    match base with
    | EmptyList => ret (RaisedError "ValueError")
    | Pair base_predictions known_ratio =>
        match base_predictions with
        | [] => ret (Returned (base_predictions, known_ratio))
        | _ :: _ =>
            enhanced_predictions <-
              gets (fun self => get_contextual_predictions self text base_predictions) ;;
            _ <- detect_emotional_tone text ;;
            enhanced_predictions <-
              gets (fun self => adapt_to_tone self enhanced_predictions) ;;
            _ <- detect_domain text ;;
            domain_enhanced <-
              gets (fun self => get_domain_enhanced_predictions self enhanced_predictions) ;;
            match domain_enhanced with
            | None => ret (RaisedError "KeyError")
            | Some enhanced_predictions =>
                enhanced_predictions <-
                  gets (fun self => get_creative_predictions self enhanced_predictions) ;;
                enhanced_predictions <- get_personalized_predictions enhanced_predictions ;;
                ret (Returned (enhanced_predictions, known_ratio))
            end
        end
    end.

(** ** Sentence generation *)

(** [_is_grammatically_compatible] *)
Definition _is_grammatically_compatible (self : LLM) (last_word candidate_word : string)
    : bool :=
  if PyStr.is_empty last_word then true
  else
    let last_class := _get_word_class self last_word in
    let candidate_class := _get_word_class self candidate_word in
    Qltb 0.3
      (ODict.get_or 0%Q candidate_class
         (ODict.get_or [] last_class (flow_rules (grammar_rules self)))).

(** [_get_most_probable_classes] *)
Definition _get_most_probable_classes (self : LLM) (input_words : list string)
    (predictions : list Prediction) : list string :=
  let sentence_type := _detect_sentence_type self input_words in
  let order :=
    ODict.get_or ["noun"; "verb"; "noun"] sentence_type
                 (sentence_order (grammar_rules self)) in
  let class_weights :=
    fold_left (fun cw '(i, expected_class) => od_add expected_class (1.0 / Qnat (i + 1))%Q cw)
              (enumerate (skipn (length input_words) order)) [] in
  let class_weights :=
    fold_left (fun cw '(word, score) =>
                 od_add (_get_word_class self word) (score * 0.5)%Q cw)
              predictions class_weights in
  map fst (sorted_desc class_weights).

(** [existing_words[-1] if existing_words else ''] *)
Definition last_or_empty (existing_words : list string) : string :=
  last existing_words "".

(** The test of lines 1144-1146 on one prediction. *)
Definition eligible_word (self : LLM) (target_class : string)
    (existing_words : list string) (word : string) : bool :=
  String.eqb (_get_word_class self word) target_class
  && negb (PyStr.mem word existing_words)
  && _is_grammatically_compatible self (last_or_empty existing_words) word.

(** The loop of [_find_best_word_for_class] over the predictions, from the
    candidates found so far. *)
Fixpoint best_word_candidates (target_class : string)
    (existing_words : list string) (l : list Prediction)
    (candidates : list Prediction) : M (list Prediction) :=
  match l with
  | [] => ret candidates
  | (word, score) :: l' =>
      eligible <- gets (fun self =>
        eligible_word self target_class existing_words word) ;;
      if eligible
      then
        pattern_score <-
          (match existing_words with
           | [] => ret 0.0%Q
           | _ :: _ =>
               after_bucket <- pat_after (last_or_empty existing_words) ;;
               ret (ODict.get_or 0.0%Q word after_bucket * 0.3)%Q
           end) ;;
        best_word_candidates target_class existing_words l'
          (candidates ++ [(word, (score + pattern_score)%Q)])
      else best_word_candidates target_class existing_words l' candidates
  end.

(** [_find_best_word_for_class]; [None] is Python's [None] *)
Definition _find_best_word_for_class (predictions : list Prediction)
    (target_class : string) (existing_words : list string) : M (option string) :=
  candidates <- best_word_candidates target_class existing_words predictions [] ;;
  ret (match argmax candidates with
       | Some best => Some (fst best)
       | None => None
       end).

(** The first loop of [generate_sentence] (lines 1079-1086).  [if
    best_word:] also rejects the empty string. *)
Fixpoint expand_by_class (expected_classes : list string)
    (predictions : list Prediction) (generated_words : list string)
    : M (list string) :=
  match expected_classes with
  | [] => ret generated_words
  | expected_class :: rest =>
      limit <- gets max_words ;;
      if (limit <=? Z.of_nat (length generated_words))%Z then ret generated_words
      else
        best_word <-
          _find_best_word_for_class predictions expected_class generated_words ;;
        match best_word with
        | Some w =>
            if PyStr.is_empty w
            then expand_by_class rest predictions generated_words
            else expand_by_class rest predictions (generated_words ++ [w])
        | None => expand_by_class rest predictions generated_words
        end
  end.

(** The [for ... else] of lines 1091-1098: the first prediction that is
    not used yet and is compatible with the last word. *)
Definition next_unused (self : LLM) (predictions : list Prediction)
    (generated_words : list string) : option Prediction :=
  find (fun '(word, _) =>
          negb (PyStr.mem word generated_words)
          && _is_grammatically_compatible self (last_or_empty generated_words) word)
       predictions.

(** The [while] loop of lines 1089-1098, with [missing] the number of words
    still wanted, [min_words - len(generated_words)]: every iteration either
    appends one word or leaves the loop. *)
Fixpoint backfill (self : LLM) (missing : nat) (predictions : list Prediction)
    (generated_words : list string) : list string :=
  match missing with
  | O => generated_words
  | S missing' =>
      match next_unused self predictions generated_words with
      | Some (word, _) => backfill self missing' predictions (generated_words ++ [word])
      | None => generated_words
      end
  end.

(** [l[:n]] for any integer [n] *)
Definition slice_to {A : Type} (n : Z) (l : list A) : list A :=
  if (0 <=? n)%Z then firstn (Z.to_nat n) l
  else firstn (Z.to_nat (Z.of_nat (length l) + n)) l.

(** Lines 1101-1102 *)
Definition truncate (limit : Z) (generated_words : list string) : list string :=
  if (limit <? Z.of_nat (length generated_words))%Z
  then slice_to limit generated_words else generated_words.

(** Lines 1076-1102: the words of the sentence before they are joined. *)
Definition generate_words (input_words : list string)
    (predictions : list Prediction) : M (list string) :=
  expected_classes <- gets (fun self =>
    _get_most_probable_classes self input_words predictions) ;;
  generated_words <- expand_by_class expected_classes predictions input_words ;;
  self <- gets (fun self => self) ;;
  let generated_words :=
    backfill self
      (Z.to_nat (min_words self - Z.of_nat (length generated_words)))
      predictions generated_words in
  ret (truncate (max_words self) generated_words).

(** Lines 1105-1116 on a sentence that is not empty *)
Definition finish_sentence (sentence_type : string) (generated_words : list string)
    : string :=
  let words :=
    match generated_words with
    | [] => []
    | first :: rest => PyStr.capitalize first :: rest
    end in
  let sentence := PyStr.join " " words in
  if String.eqb sentence_type "question" then sentence ++ "?"
  else if (3 <=? length generated_words)%nat then sentence ++ "."
  else sentence.

(** [generate_sentence]: generate grammatical sentence using word class
    patterns with word limits *)
Definition generate_sentence (text : string) (predictions : list Prediction)
    : M string :=
  let input_words := text_words text in
  match input_words with
  | [] => ret text
  | _ :: _ =>
      sentence_type <- gets (fun self => _detect_sentence_type self input_words) ;;
      generated_words <- generate_words input_words predictions ;;
      match generated_words with
      | [] => ret text
      | _ :: _ => ret (finish_sentence sentence_type generated_words)
      end
  end.

(** ** Word limits *)

(** Lines 36-41: the function decorated with [@min_words.setter].  It is a
    local name of [__init__]; nothing binds it to the class. *)
Definition min_words_setter (value : Z) : M unit :=
  let value := Z.max 1 (Z.min value 50) in
  upper <- gets _max_words ;;
  (if (upper <? value)%Z then modify (with__max_words (value + 5)%Z) else ret tt) ;;;
  modify (with__min_words value).

(** Lines 48-53: the function decorated with [@max_words.setter], a local
    name of [__init__] as well. *)
Definition max_words_setter (value : Z) : M unit :=
  let value := Z.max 5 (Z.min value 100) in
  lower <- gets _min_words ;;
  (if (value <? lower)%Z then modify (with__min_words (Z.max 1 (value - 5))) else ret tt) ;;;
  modify (with__max_words value).

(** [obj.min_words = value] and [obj.max_words = value] on an instance whose
    class has no such property: the attribute is stored as given. *)
Definition assign_min_words (value : Z) : M unit := modify (with_min_words value).

Definition assign_max_words (value : Z) : M unit := modify (with_max_words value).

(** The assignments of [__init__] to the limits, lines 28-29 and 73-74. *)
Definition init_limits : M unit :=
  modify (with__min_words 7) ;;;
  modify (with__max_words 100) ;;;
  assign_min_words 3 ;;;
  assign_max_words 20.

(** The maximal run of digits a string starts with. *)
Fixpoint leading_digits (s : string) : string :=
  match s with
  | EmptyString => EmptyString
  | String c s' => if PyStr.is_digit c then String c (leading_digits s') else EmptyString
  end.

Fixpoint drop (n : nat) (s : string) : string :=
  match n, s with
  | O, _ => s
  | S _, EmptyString => EmptyString
  | S n', String _ s' => drop n' s'
  end.

(** [re.search(flag + r'(\d+)', s)]: the digits of the leftmost match *)
Fixpoint search_flag (flag s : string) : option string :=
  let here :=
    if PyStr.startswith flag s
    then leading_digits (drop (String.length flag) s) else EmptyString in
  if negb (PyStr.is_empty here) then Some here
  else match s with
       | EmptyString => None
       | String _ s' => search_flag flag s'
       end.

(** [int(digits)] *)
Definition int_of_digits (digits : string) : Z :=
  let fix go (s : string) (acc : Z) : Z :=
    match s with
    | EmptyString => acc
    | String c s' => go s' (10 * acc + Z.of_nat (PyStr.code c - 48))%Z
    end in
  go digits 0%Z.

(** [s.replace(old, '')] for a non-empty [old]; [skip] counts the
    characters of a match that are still to be dropped *)
Fixpoint remove_from (old : string) (skip : nat) (s : string) : string :=
  match s with
  | EmptyString => EmptyString
  | String c s' =>
      match skip with
      | S k => remove_from old k s'
      | O =>
          if PyStr.startswith old s
          then remove_from old (String.length old - 1) s'
          else String c (remove_from old O s')
      end
  end.

Definition remove_all (old s : string) : string := remove_from old O s.

(** Lines 1233-1246 of [main]: the [--min] and [--max] flags of one line of
    input; the result is the input without the flags. *)
Definition handle_word_limits (user_input : string) : M string :=
  let min_match := search_flag "--min" user_input in
  let max_match := search_flag "--max" user_input in
  user_input <-
    (match min_match with
     | Some digits =>
         assign_min_words (int_of_digits digits) ;;;
         ret (PyStr.strip (remove_all ("--min" ++ digits) user_input))
     | None => ret user_input
     end) ;;
  match max_match with
  | Some digits =>
      assign_max_words (int_of_digits digits) ;;;
      ret (PyStr.strip (remove_all ("--max" ++ digits) user_input))
  | None => ret user_input
  end.

(** The invariant the setters are written for. *)
Definition limits_ok (lo hi : Z) : Prop := (1 <= lo /\ lo <= hi /\ hi <= 100)%Z.

(** ** The default configuration

    The files [_ensure_files_exist] writes on a first run, as the values the
    loaders read back from them, and the state [__init__] builds from
    them. *)

Definition default_word_lists : WordLists :=
  mkWordLists
    ["?"; "what"; "when"; "where"; "why"; "how"; "which"; "who"]
    ["because"; "therefore"; "thus"; "so"; "hence"]
    ["fact"; "actually"; "proven"; "evidence"; "study"; "research"]
    ["theory"; "hypothesis"; "maybe"; "perhaps"; "possibly"; "could"]
    ["ed"; "was"; "were"; "had"; "did"; "been"]
    ["will"; "shall"; "going to"; "gonna"; "about to"].

Definition default_expert_fields : odict ExpertField :=
  [("stem", mkExpertField 1.5%Q
      ["science"; "technology"; "engineering"; "math"; "physics"; "chemistry"]);
   ("art", mkExpertField 1.3%Q
      ["paint"; "draw"; "design"; "creative"; "color"; "artist"]);
   ("music", mkExpertField 1.3%Q
      ["song"; "music"; "sound"; "instrument"; "melody"; "rhythm"]);
   ("strategy", mkExpertField 1.4%Q
      ["plan"; "strategy"; "tactic"; "game"; "win"; "compete"]);
   ("news", mkExpertField 1.2%Q
      ["news"; "current"; "event"; "today"; "update"; "trending"]);
   ("programming", mkExpertField 1.6%Q
      ["code"; "program"; "software"; "algorithm"; "function"; "variable"])].

Definition default_grammar : GrammarRules :=
  mkGrammarRules
    [("noun", ["verb"; "adjective"]); ("verb", ["noun"; "adverb"]);
     ("adjective", ["noun"]); ("adverb", ["verb"; "adjective"])]
    [("noun", [("verb", 0.8%Q); ("adjective", 0.6%Q)]);
     ("verb", [("noun", 0.8%Q); ("adverb", 0.7%Q)]);
     ("adjective", [("noun", 0.9%Q)]); ("adverb", [("verb", 0.8%Q)])]
    [("noun", [("verb", 0.9%Q)]); ("verb", [("noun", 0.8%Q)]);
     ("adjective", [("noun", 0.9%Q)]); ("adverb", [("verb", 0.8%Q)])]
    [("statement", ["noun"; "verb"; "noun"]);
     ("question", ["question_word"; "verb"; "noun"]);
     ("command", ["verb"; "noun"])].

Definition newline : string := String "010"%char EmptyString.

(** The lines of the default [dictionary_data.txt]. *)
Definition sample_data : list string :=
  map (fun line => (line ++ newline)%string)
    ["noun; computer; computer; computers; machine,device,pc; ; electronic device; PC,CPU; {}";
     "verb; compute; compute; computes; calculate,process,analyze; ; perform calculations; ; {}";
     "noun; data; datum; data; information,facts,stats; ; collected information; ; {}";
     "verb; analyze; analyze; analyzes; examine,study,process; ignore,skip; examine methodically; ; {}";
     "adjective; digital; digital; ; electronic,computerized; analog; relating to computers; ; {}"].

Definition default_enhancements : Enhancements :=
  mkEnhancements
    [("formal", mkTone 1.0%Q ["therefore"; "however"; "thus"]);
     ("casual", mkTone 0.8%Q ["hey"; "cool"; "awesome"]);
     ("technical", mkTone 1.2%Q ["algorithm"; "parameter"; "execute"]);
     ("empathetic", mkTone 1.1%Q ["understand"; "feel"; "support"])]
    "neutral"
    [("general", mkSpecialist [] 1.0%Q)]
    "general"
    0.5%Q 0.3%Q
    []
    "default".

(** The instance before any statement of [__init__] that concerns the model
    has run. *)
Definition blank : LLM :=
  mkLLM [] [] [] "formal" "speech" (mkGrammarRules [] [] [] []) 0 0 0 0
        (mkFlags false false false false)
        (mkWordLists [] [] [] [] [] []) [] default_enhancements.

Definition with_configuration (lists : WordLists) (grammar : GrammarRules)
    (experts : odict ExpertField) (self : LLM) : LLM :=
  mkLLM (word_db self) (word_relationships self) (pattern_relationships self)
    (mode self) (operation_mode self) grammar (_min_words self)
    (_max_words self) (min_words self) (max_words self) (flags self)
    lists experts (enhancements self).

(** [__init__] on a first run: the limits, the default configuration, the
    default feed, the enhancement settings. *)
Definition init (json_loads : string -> option Json) : LLM :=
  snd ((init_limits ;;;
        modify (with_flags (mkFlags false false false false)) ;;;
        modify (with_configuration default_word_lists default_grammar
                                   default_expert_fields) ;;;
        import_dictionary json_loads sample_data ;;;
        modify (with_enhancements default_enhancements)) blank).

(** [json.loads] on the one text the default feed holds in its last field;
    every other text is refused. *)
Definition json_loads_empty_object (text : string) : option Json :=
  if String.eqb text "{}" then Some (JObject []) else None.

(** The engine [main] starts from. *)
Definition engine : LLM := init json_loads_empty_object.

(** ** Sessions *)

(** [set_mode]; the word lists, the grammar rules and the expert fields are
    the ones [load_config_files] reads from the files for the new mode. *)
Definition set_mode (new_mode new_operation_mode : string) (lists : WordLists)
    (grammar : GrammarRules) (experts : odict ExpertField) : M unit :=
  modify (fun self =>
    mkLLM (word_db self) (word_relationships self) (pattern_relationships self)
      new_mode new_operation_mode grammar (_min_words self) (_max_words self)
      (min_words self) (max_words self) (flags self) lists experts
      (enhancements self)).

(** The operations a session is made of: the methods the engine exposes,
    and the handling of the limit flags by [main]. *)
Inductive Operation : Type :=
| Analyze (sentence : string)
| Predict (text mode : string)
| EnhancedPredict (text mode : string)
| Generate (text : string) (predictions : list Prediction)
| SetLimits (user_input : string)
| SetMode (new_mode new_operation_mode : string) (lists : WordLists)
          (grammar : GrammarRules) (experts : odict ExpertField)
| ImportDictionary (lines : list string).

(** The state one operation leaves. *)
Definition run (json_loads : string -> option Json) (op : Operation) (self : LLM)
    : LLM :=
  match op with
  | Analyze sentence => snd (analyze_patterns sentence self)
  | Predict text mode => snd (predict_next text mode self)
  | EnhancedPredict text mode => snd (enhanced_predict_next text mode self)
  | Generate text predictions => snd (generate_sentence text predictions self)
  | SetLimits user_input => snd (handle_word_limits user_input self)
  | SetMode new_mode new_operation_mode lists grammar experts =>
      snd (set_mode new_mode new_operation_mode lists grammar experts self)
  | ImportDictionary lines => snd (import_dictionary json_loads lines self)
  end.

(** The state a sequence of operations leaves. *)
Definition session (json_loads : string -> option Json) (ops : list Operation)
    (self : LLM) : LLM :=
  fold_left (fun s op => run json_loads op s) ops self.

(** ** Specialized modules *)

(** [internet_search] *)
Definition internet_search (self : LLM) (query : string) : string :=
  if negb (internet_enabled (flags self))
  then "Internet search disabled. Use --internet flag to enable."
  else "Internet search for: " ++ query ++ " - [Implementation needed]".

(** [python_code_generation] *)
Definition python_code_generation (self : LLM) (context_text : string) : string :=
  if negb (code_enabled (flags self))
  then "Code generation disabled. Use --code flag to enable."
  else "Python code for: " ++ context_text ++ " - [Implementation needed]".

(** [image_processing] *)
Definition image_processing (self : LLM) (description : string) : string :=
  if negb (image_enabled (flags self))
  then "Image processing disabled. Use --image flag to enable."
  else "Image processing for: " ++ description ++ " - [Implementation needed]".

(** An operation that only reads the graph: every one but the import. *)
Definition reads_graph_only (op : Operation) : bool :=
  match op with
  | ImportDictionary _ => false
  | _ => true
  end.

(** ** Notions the properties are stated with *)

(** A text that is empty or holds white space only: a sequence of
    characters of [str.isspace], of one, two or three bytes each. *)
Fixpoint whitespace_only (s : string) : bool :=
  match s with
  | EmptyString => true
  | String a s1 =>
      if PyStr.is_space a then whitespace_only s1
      else
        match s1 with
        | String b s2 =>
            if PyStr.is_space2 a b then whitespace_only s2
            else
              match s2 with
              | String c s3 => PyStr.is_space3 a b c && whitespace_only s3
              | EmptyString => false
              end
        | EmptyString => false
        end
  end.

(** A specification of a method: whatever the state [s] it starts from, the
    state it leaves is related to [s] by [R] and the value it returns
    satisfies [V]. *)
Definition hoare {A : Type} (R : LLM -> LLM -> Prop) (V : A -> Prop) (m : M A) : Prop :=
  forall s, R s (snd (m s)) /\ V (fst (m s)).

Definition any {A : Type} : A -> Prop := fun _ => True.

(** The part of the engine that only the import, the training passes and
    the assignments to the limits change. *)
Definition same_lexicon (s s' : LLM) : Prop :=
  word_db s' = word_db s
  /\ grammar_rules s' = grammar_rules s
  /\ word_lists s' = word_lists s
  /\ min_words s' = min_words s
  /\ max_words s' = max_words s.

(** A relation on states that the writes to the graph respect. *)
Definition graph_blind (R : LLM -> LLM -> Prop) : Prop :=
  forall r s, R s (with_word_relationships r s).

(** A relation on states that the writes to the pattern index respect. *)
Definition pattern_blind (R : LLM -> LLM -> Prop) : Prop :=
  forall p s, R s (with_pattern_relationships p s).

(** The relation that says nothing of the state a method leaves. *)
Definition unrelated (s s' : LLM) : Prop := True.

(** A ranked list in descending order of score: no entry has a greater
    score than an entry before it. *)
Definition descending (l : list Prediction) : Prop :=
  StronglySorted (fun a b => (snd b <= snd a)%Q) l.

(** A ranked list in strictly descending order of score. *)
Definition strictly_descending (l : list Prediction) : Prop :=
  StronglySorted (fun a b => (snd b < snd a)%Q) l.

(** The entries of score [q], in the order of the list. *)
Definition ties (q : Q) (l : list Prediction) : list Prediction :=
  filter (fun p => Qeq_bool (snd p) q) l.

Definition prefix_of {A : Type} (l1 l2 : list A) : Prop :=
  exists rest, l2 = l1 ++ rest.

(** The three buckets of an entry of the pattern index. *)
Inductive BucketKind : Type :=
| Before
| After
| Position (label : string).

Definition contexts (e : PatternEntry) : odict (odict Q) :=
  match position_context e with Some c => c | None => [] end.

(** The strength stored under [key] in a bucket of an entry, if any. *)
Definition entry_strength (e : PatternEntry) (kind : BucketKind) (key : string)
    : option Q :=
  match kind with
  | Before => ODict.get key (bucket (before e))
  | After => ODict.get key (bucket (after e))
  | Position label => ODict.get key (ODict.get_or [] label (contexts e))
  end.

(** The strength the pattern index stores for [word], bucket and [key], if
    any. *)
Definition stored_strength (self : LLM) (word : string) (kind : BucketKind)
    (key : string) : option Q :=
  match ODict.get word (pattern_relationships self) with
  | Some e => entry_strength e kind key
  | None => None
  end.

(** Every strength stored in [s] is still stored in [s'], and is not
    smaller there. *)
Definition patterns_grow (s s' : LLM) : Prop :=
  forall word kind key v,
    stored_strength s word kind key = Some v ->
    exists v', stored_strength s' word kind key = Some v' /\ (v <= v')%Q.

Definition dict_le (d d' : odict Q) : Prop :=
  forall key v,
    ODict.get key d = Some v ->
    exists v', ODict.get key d' = Some v' /\ (v <= v')%Q.

Definition entry_le (e e' : PatternEntry) : Prop :=
  forall kind key v,
    entry_strength e kind key = Some v ->
    exists v', entry_strength e' kind key = Some v' /\ (v <= v')%Q.

(** A relation on states that holds across every operation on the graph,
    every read of the pattern index, every addition of a strength that is not
    negative to the pattern index, and every change of the flags and of the
    enhancement settings. *)
Record Respected (R : LLM -> LLM -> Prop) : Prop := mkRespected {
  r_refl : forall s, R s s;
  r_trans : forall s1 s2 s3, R s1 s2 -> R s2 s3 -> R s1 s3;
  r_graph : graph_blind R;
  r_before : forall w, hoare R any (pat_before w);
  r_after : forall w, hoare R any (pat_after w);
  r_after_read : forall w k, hoare R any (pat_after_read w k);
  r_add_before : forall w k x, (0 <= x)%Q -> hoare R any (pat_add_before w k x);
  r_add_after : forall w k x, (0 <= x)%Q -> hoare R any (pat_add_after w k x);
  r_add_position :
    forall w pos k x, (0 <= x)%Q -> hoare R any (pat_add_position w pos k x);
  r_flags : forall f s, R s (with_flags f s);
  r_enhancements : forall e s, R s (with_enhancements e s)
}.

(** A relation on states that holds across every change of the lexicon. *)
Definition lexicon_blind (R : LLM -> LLM -> Prop) : Prop :=
  forall db s, R s (with_word_db db s).


(** The class-pair rule of [_build_relationships], for a record of class
    [word_class] stored under [word], adds to the edge from [word] to
    [other]: [other] is a word of the lexicon whose class is compatible. *)
Definition class_pair_rule_applies (self : LLM) (word_class word other : string)
    : bool :=
  match ODict.get word_class (common_pairs (grammar_rules self)) with
  | None => false
  | Some compatible =>
      existsb (fun '(other_word, other_data) =>
                 String.eqb other_word other
                 && negb (String.eqb other_word word)
                 && PyStr.mem (wclass other_data) compatible)
              (word_db self)
  end.

(** The partial-match rule of [_check_partial_matches] adds to the edges
    between [word] and [other]: [other] is a proper prefix of [word] and a
    word of the lexicon. *)
Definition partial_match_rule_applies (self : LLM) (word other : string) : bool :=
  existsb (fun i => String.eqb (PyStr.take i word) other
                    && ODict.mem other (word_db self))
          (seq 1 (String.length word - 1)).

(** The weights of the two edges between [w1] and [w2]. *)
Definition both_weights (s : LLM) (w1 w2 : string) : Q * Q :=
  (graph_weight s w1 w2, graph_weight s w2 w1).

(** Both weights of [p'] are those of [p] plus [d]. *)
Definition both_plus (p : Q * Q) (d : Q) (p' : Q * Q) : Prop :=
  (fst p' == fst p + d)%Q /\ (snd p' == snd p + d)%Q.

(** A relation on states that holds across every read of the graph, every
    read of the pattern index and every addition of a strength that is not
    negative to the pattern index. *)
Record Readable (R : LLM -> LLM -> Prop) : Prop := mkReadable {
  rd_refl : forall s, R s s;
  rd_trans : forall s1 s2 s3, R s1 s2 -> R s2 s3 -> R s1 s3;
  rd_row : forall w, hoare R any (rel_row w);
  rd_read : forall w1 w2, hoare R any (rel_read w1 w2);
  rd_before : forall w, hoare R any (pat_before w);
  rd_after : forall w, hoare R any (pat_after w);
  rd_after_read : forall w k, hoare R any (pat_after_read w k);
  rd_add_before : forall w k x, (0 <= x)%Q -> hoare R any (pat_add_before w k x);
  rd_add_after : forall w k x, (0 <= x)%Q -> hoare R any (pat_add_after w k x);
  rd_add_position :
    forall w pos k x, (0 <= x)%Q -> hoare R any (pat_add_position w pos k x)
}.

(** A relation on states that holds across every change of the flags. *)
Definition flags_blind (R : LLM -> LLM -> Prop) : Prop :=
  forall f s, R s (with_flags f s).

(** A relation on states that holds across every change of the
    enhancement settings. *)
Definition enhancements_blind (R : LLM -> LLM -> Prop) : Prop :=
  forall e s, R s (with_enhancements e s).

(** No edge of the graph has changed weight. *)
Definition same_weights (s s' : LLM) : Prop :=
  forall a b, graph_weight s' a b = graph_weight s a b.

(** The flags are as they were. *)
Definition same_flags (s s' : LLM) : Prop := flags s' = flags s.

(** What [add_if_missing] does to the lexicon alone. *)
Definition add_missing_key (make : string -> WordEntry) (db : odict WordEntry)
    (key : string) : odict WordEntry :=
  if ODict.mem key db then db else ODict.set key (make key) db.

(** What may change in a stored entry: the lists of synonyms and antonyms
    may get longer, a class ["unknown"] and an expert field ["general"] may be
    replaced, the position counts in [pattern_data] may change; nothing else
    does. *)
Definition entry_grows (e e' : WordEntry) : Prop :=
  singular e' = singular e
  /\ plural e' = plural e
  /\ meaning e' = meaning e
  /\ acronyms e' = acronyms e
  /\ incl (synonyms e) (synonyms e')
  /\ incl (antonyms e) (antonyms e')
  /\ (wclass e <> "unknown" -> wclass e' = wclass e)
  /\ (expert_field e <> "general" -> expert_field e' = expert_field e).

(** Every word of the lexicon of [s] is a word of the lexicon of [s'], with
    an entry that has only grown. *)
Definition lexicon_grows (s s' : LLM) : Prop :=
  forall word e,
    ODict.get word (word_db s) = Some e ->
    exists e', ODict.get word (word_db s') = Some e' /\ entry_grows e e'.

(** What an enhancement layer does to a ranked list: it keeps the words,
    and a list in descending order of score stays one. *)
Definition keeps_ranking (l l' : list Prediction) : Prop :=
  Permutation (map fst l') (map fst l) /\ (descending l -> descending l').

(** The flags [enhanced_predict_next] sets at its start. *)
Definition cleared : Flags := mkFlags false false false false.

(** A sentence under construction: the input words followed by words of the
    predictions, each added once and none of them an input word. *)
Definition extends_input (input_words : list string) (predictions : list Prediction)
    (generated_words : list string) : Prop :=
  exists added,
    generated_words = input_words ++ added
    /\ NoDup added
    /\ forall w, In w added -> In w (map fst predictions) /\ ~ In w input_words.

(** How often [other] is declared in a list of an entry. *)
Definition declared (l : list string) (other : string) : Q :=
  Qnat (count_occ string_dec l other).

(** What the three declared lists of an entry add to each edge between its
    word and [other] (lines 527-537). *)
Definition declared_weight (data : WordEntry) (other : string) : Q :=
  2.0 * declared (synonyms data) other
  + (- 1.5) * declared (antonyms data) other
  + 1.0 * declared (acronyms data) other.

(** The entries of the lexicon stored under [other] that the class pair
    rule of lines 540-547 links [word] to. *)
Definition class_pair_edges (self : LLM) (word_class word other : string) : nat :=
  match ODict.get word_class (common_pairs (grammar_rules self)) with
  | None => 0
  | Some compatible =>
      length (filter (fun '(other_word, other_data) =>
                        String.eqb other_word other
                        && (negb (String.eqb other_word word)
                            && PyStr.mem (wclass other_data) compatible))
                     (word_db self))
  end.

Definition Qsum (l : list Q) : Q := fold_right Qplus 0 l.

(** What the prefixes of [word] that are [other] and a key of the lexicon
    add to each edge between [word] and [other] (lines 551-556). *)
Definition partial_weight (self : LLM) (word other : string) : Q :=
  Qsum (map (fun i =>
               if String.eqb (PyStr.take i word) other
                  && ODict.mem other (word_db self)
               then 0.5 * (Qnat i / Qnat (String.length word))
               else 0)
            (seq 1 (String.length word - 1))).

(** The engine once [entry] is stored under [word] (lines 294-303). *)
Definition stored (word : string) (entry : WordEntry) (self : LLM) : LLM :=
  with_word_db (ODict.set word entry (word_db self)) self.

(** What the import of a record adds to the edge from its word to
    [other], and to the edge from [other] to its word. *)
Definition edge_out (self : LLM) (word : string) (data : WordEntry)
    (other : string) : Q :=
  declared_weight data other
  + 0.3 * Qnat (class_pair_edges self (wclass data) word other)
  + partial_weight self word other.

Definition edge_back (self : LLM) (word : string) (data : WordEntry)
    (other : string) : Q :=
  declared_weight data other + partial_weight self word other.

(** ** The reply of a conversation turn *)

(** Lines 1289-1292 of [main]: the sentence is split at white space and cut
    to [max_words] words. *)
Definition cut_reply (self : LLM) (generated_sentence : string)
    : list string * string :=
  let words := PyStr.split_ws generated_sentence in
  if (max_words self <? Z.of_nat (length words))%Z
  then
    let words := slice_to (max_words self) words in
    (words, (PyStr.join " " words ++ ".")%string)
  else (words, generated_sentence).

(** The [while] loop of lines 1295-1302, run for at most [fuel] iterations;
    [None] when the loop is still running after them.  Nothing bounds the
    iterations of the loop in the source. *)
Fixpoint extend_reply (fuel : nat) (min_words : Z) (predictions : list Prediction)
    (words : list string) (generated_sentence : string)
    : option (list string * string) :=
  match fuel with
  | O => None
  | S fuel' =>
      if (Z.of_nat (length words) <? min_words)%Z
         && (length words <? length predictions)%nat
      then
        if (length words <? length predictions)%nat
        then
          let next_word := fst (nth (length words) predictions ("", 0%Q)) in
          if negb (PyStr.mem next_word words)
          then
            let words := words ++ [next_word] in
            extend_reply fuel' min_words predictions words
                         (PyStr.join " " words ++ ".")%string
          else extend_reply fuel' min_words predictions words generated_sentence
        else Some (words, generated_sentence)
      else Some (words, generated_sentence)
  end.

(** Lines 1289-1302: the words and the text of the reply. *)
Definition reply (fuel : nat) (self : LLM) (predictions : list Prediction)
    (generated_sentence : string) : option (list string * string) :=
  let (words, generated_sentence) := cut_reply self generated_sentence in
  extend_reply fuel (min_words self) predictions words generated_sentence.

(** The words the loop of lines 1295-1302 is to append: the words of the
    predictions from position [len(words)] on, as many as are missing. *)
Definition wanted (min_words : Z) (predictions : list Prediction)
    (words : list string) : list string :=
  map fst (firstn (Z.to_nat (min_words - Z.of_nat (length words)))
                  (skipn (length words) predictions)).

(** ** Conversation history *)

(** [l[n:]] for any integer [n] *)
Definition slice_from {A : Type} (n : Z) (l : list A) : list A :=
  if (n <? 0)%Z then skipn (Z.to_nat (Z.of_nat (length l) + n)) l
  else skipn (Z.to_nat n) l.

(** [update_conversation_history], on the two attributes it touches: the
    history and the window. *)
Definition update_conversation_history (conversation_history : list (string * string))
    (context_window : Z) (user_input ai_response : string)
    : list (string * string) :=
  let conversation_history :=
    conversation_history ++ [("user", user_input); ("ai", ai_response)] in
  if (context_window * 2 <? Z.of_nat (length conversation_history))%Z
  then slice_from (- context_window * 2) conversation_history
  else conversation_history.

(** The lexicon, the settings and the operation mode are as they were. *)
Definition same_setup (s s' : LLM) : Prop :=
  same_lexicon s s' /\ operation_mode s' = operation_mode s.

(** The tokens [analyze_patterns] does not skip, with their indices. *)
Definition analysed (words : list string) : list (nat * string) :=
  filter (fun '(_, word) => negb (PyStr.in_punctuation word)) (enumerate words).

(** A ranked list as [_get_top_predictions] returns it: in descending
    order of score, of scores greater than 0, of ten entries at most. *)
Definition ranked (l : list Prediction) : Prop :=
  descending l /\ Forall (fun p => (0 < snd p)%Q) l /\ (length l <= 10)%nat.

(** * Properties *)

(** ** Dictionaries *)

Module ODictFacts.

Section Facts.
Context {V : Type}.

Lemma get_set_same (k : string) (v : V) (d : odict V) :
  ODict.get k (ODict.set k v d) = Some v.
Proof.
  induction d as [| [k' v'] d IH]; simpl.
  - now rewrite String.eqb_refl.
  - destruct (String.eqb k k') eqn:E; simpl; rewrite E; [reflexivity | exact IH].
Qed.

Lemma get_set_other (k k' : string) (v : V) (d : odict V) :
  k <> k' -> ODict.get k' (ODict.set k v d) = ODict.get k' d.
Proof.
  intros Hne. induction d as [| [k0 v0] d IH]; simpl.
  - destruct (String.eqb k' k) eqn:E; [| reflexivity].
    apply String.eqb_eq in E. congruence.
  - destruct (String.eqb k k0) eqn:E; simpl.
    + apply String.eqb_eq in E. subst k0.
      destruct (String.eqb k' k) eqn:E'; [| reflexivity].
      apply String.eqb_eq in E'. congruence.
    + destruct (String.eqb k' k0); [reflexivity | exact IH].
Qed.

Lemma get_set (k k' : string) (v : V) (d : odict V) :
  ODict.get k' (ODict.set k v d)
  = if String.eqb k k' then Some v else ODict.get k' d.
Proof.
  destruct (String.eqb k k') eqn:E.
  - apply String.eqb_eq in E. subst. apply get_set_same.
  - apply String.eqb_neq in E. now apply get_set_other.
Qed.

Lemma get_or_set (dflt : V) (k k' : string) (v : V) (d : odict V) :
  ODict.get_or dflt k' (ODict.set k v d)
  = if String.eqb k k' then v else ODict.get_or dflt k' d.
Proof.
  unfold ODict.get_or. rewrite get_set. now destruct (String.eqb k k').
Qed.

Lemma mem_set (k k' : string) (v : V) (d : odict V) :
  ODict.mem k' (ODict.set k v d) = String.eqb k k' || ODict.mem k' d.
Proof.
  unfold ODict.mem. rewrite get_set. now destruct (String.eqb k k').
Qed.

(** Reading a [defaultdict] never changes what a later [get_or] with the
    same default sees. *)
Lemma get_or_read (dflt : V) (k k' : string) (d : odict V) :
  ODict.get_or dflt k' (snd (ODict.read dflt k d)) = ODict.get_or dflt k' d.
Proof.
  unfold ODict.read. destruct (ODict.get k d) eqn:E; simpl; [reflexivity |].
  rewrite get_or_set. destruct (String.eqb k k') eqn:E'; [| reflexivity].
  apply String.eqb_eq in E'. subst. unfold ODict.get_or. now rewrite E.
Qed.

Lemma fst_read (dflt : V) (k : string) (d : odict V) :
  fst (ODict.read dflt k d) = ODict.get_or dflt k d.
Proof.
  unfold ODict.read, ODict.get_or. now destruct (ODict.get k d).
Qed.

Lemma get_read_same (dflt : V) (k : string) (d : odict V) :
  ODict.get k (snd (ODict.read dflt k d)) = Some (ODict.get_or dflt k d).
Proof.
  unfold ODict.read, ODict.get_or. destruct (ODict.get k d) eqn:E; simpl.
  - exact E.
  - apply get_set_same.
Qed.

Lemma get_read_other (dflt : V) (k k' : string) (d : odict V) :
  k <> k' -> ODict.get k' (snd (ODict.read dflt k d)) = ODict.get k' d.
Proof.
  intros Hne. unfold ODict.read. destruct (ODict.get k d); simpl.
  - reflexivity.
  - now apply get_set_other.
Qed.

End Facts.

End ODictFacts.

(** ** Word-class lookup (C6) *)

Lemma first_known_prefix_some (db : odict WordEntry) (word : string) (n i : nat)
    (e : WordEntry) (k : nat) :
  (k < n)%nat ->
  ODict.get (PyStr.take (i + k) word) db = Some e ->
  (forall j, (j < k)%nat -> ODict.get (PyStr.take (i + j) word) db = None) ->
  first_known_prefix db word i n = Some e.
Proof.
  revert i k. induction n as [| n IH]; intros i k Hk Hget Hmin; [lia |].
  simpl. destruct k as [| k].
  - rewrite Nat.add_0_r in Hget. now rewrite Hget.
  - pose proof (Hmin 0%nat ltac:(lia)) as H0.
    rewrite Nat.add_0_r in H0. rewrite H0.
    apply (IH (S i) k); [lia | |].
    + now replace (S i + k)%nat with (i + S k)%nat by lia.
    + intros j Hj. replace (S i + j)%nat with (i + S j)%nat by lia.
      apply Hmin. lia.
Qed.

Lemma first_known_prefix_none (db : odict WordEntry) (word : string) (n i : nat) :
  (forall k, (k < n)%nat -> ODict.get (PyStr.take (i + k) word) db = None) ->
  first_known_prefix db word i n = None.
Proof.
  revert i. induction n as [| n IH]; intros i Hnone; [reflexivity |].
  simpl. specialize (Hnone 0%nat ltac:(lia)) as H0.
  rewrite Nat.add_0_r in H0. rewrite H0.
  apply IH. intros k Hk. replace (S i + k)%nat with (i + S k)%nat by lia.
  apply Hnone. lia.
Qed.

(** C6.  The class of a word is the stored class on an exact match;
    otherwise it is the class stored for the shortest prefix [word[:i]],
    [1 <= i <= len(word)], that is a key of the lexicon; when no prefix is a
    key it is ["unknown"].  The lookup is a total function: it has no case in
    which it fails. *)
Theorem get_word_class_lookup (self : LLM) (word : string) :
  (forall e, ODict.get word (word_db self) = Some e ->
             _get_word_class self word = wclass e)
  /\ (ODict.get word (word_db self) = None ->
      forall i e,
        (1 <= i <= String.length word)%nat ->
        ODict.get (PyStr.take i word) (word_db self) = Some e ->
        (forall j, (1 <= j < i)%nat ->
                   ODict.get (PyStr.take j word) (word_db self) = None) ->
        _get_word_class self word = wclass e)
  /\ (ODict.get word (word_db self) = None ->
      (forall i, (1 <= i <= String.length word)%nat ->
                 ODict.get (PyStr.take i word) (word_db self) = None) ->
      _get_word_class self word = "unknown").
Proof.
  unfold _get_word_class. repeat split.
  - intros e He. now rewrite He.
  - intros Hnone i e Hi Hget Hmin. rewrite Hnone.
    rewrite (first_known_prefix_some (word_db self) word (String.length word) 1 e (i - 1)).
    + reflexivity.
    + lia.
    + now replace (1 + (i - 1))%nat with i by lia.
    + intros j Hj. apply Hmin. lia.
  - intros Hnone Hall. rewrite Hnone.
    rewrite first_known_prefix_none; [reflexivity |].
    intros k Hk. apply Hall. lia.
Qed.

Lemma get_word_class_lookup_witness :
  _get_word_class engine "computer" = "noun"
  /\ _get_word_class engine "2nd" = "number"
  /\ _get_word_class engine "qzxy" = "unknown".
Proof.
  split; [| split].
  - eapply eq_trans.
    + eapply (proj1 (get_word_class_lookup engine "computer")).
      vm_compute. reflexivity.
    + reflexivity.
  - eapply eq_trans.
    + eapply (proj1 (proj2 (get_word_class_lookup engine "2nd"))) with (i := 1%nat).
      * vm_compute. reflexivity.
      * cbn. lia.
      * vm_compute. reflexivity.
      * intros j Hj. lia.
    + reflexivity.
  - apply (proj2 (proj2 (get_word_class_lookup engine "qzxy"))).
    + vm_compute. reflexivity.
    + intros i Hi. cbn in Hi.
      assert (i = 1 \/ i = 2 \/ i = 3 \/ i = 4)%nat as [-> | [-> | [-> | ->]]] by lia;
        vm_compute; reflexivity.
Defined.

(** ** Known-word ratio (C9) *)

Lemma known_count_le (self : LLM) (words : list string) :
  (known_count self words <= word_count words)%nat.
Proof.
  unfold known_count, word_count.
  induction words as [| w words IH]; simpl; [lia |].
  destruct (not_punctuation w); simpl.
  - destruct (negb (String.eqb (_get_word_class self w) "unknown")); simpl; lia.
  - exact IH.
Qed.

Lemma percentage_bounds (k n : nat) :
  (k <= n)%nat -> (0 < n)%nat ->
  (0 <= Qnat k / Qnat n * 100 /\ Qnat k / Qnat n * 100 <= 100)%Q.
Proof.
  intros Hk Hn.
  assert (Hpos : (0 < Qnat n)%Q) by (unfold Qnat, Qlt; simpl; lia).
  assert (Hk0 : (0 <= Qnat k)%Q) by (unfold Qnat, Qle; simpl; lia).
  assert (Hkn : (Qnat k <= Qnat n)%Q) by (unfold Qnat, Qle; simpl; lia).
  split.
  - apply Qmult_le_0_compat; [| discriminate].
    apply Qle_shift_div_l; [exact Hpos |].
    now rewrite Qmult_0_l.
  - setoid_replace 100%Q with (1 * 100)%Q at 2 by ring.
    apply Qmult_le_compat_r; [| discriminate].
    apply Qle_shift_div_r; [exact Hpos |].
    now rewrite Qmult_1_l.
Qed.

(** C9.  The ratio is 0 when the input has no token outside
    [string.punctuation]; it is always between 0 and 100; it is the quotient
    of [known_count] by [word_count] times 100, and a token that is not
    punctuation and whose class is ["unknown"] adds one to [word_count] and
    nothing to [known_count]. *)
Theorem known_words_ratio_bounds (self : LLM) (words : list string) :
  (word_count words = 0%nat -> _calculate_known_words_ratio self words = 0%Q)
  /\ (0 <= _calculate_known_words_ratio self words
      /\ _calculate_known_words_ratio self words <= 100)%Q
  /\ (word_count words <> 0%nat ->
      _calculate_known_words_ratio self words
      = (Qnat (known_count self words) / Qnat (word_count words) * 100)%Q)
  /\ (forall w,
        not_punctuation w = true ->
        _get_word_class self w = "unknown" ->
        word_count (w :: words) = S (word_count words)
        /\ known_count self (w :: words) = known_count self words).
Proof.
  unfold _calculate_known_words_ratio. split; [| split; [| split]].
  - intros H0. now rewrite H0.
  - destruct (word_count words =? 0)%nat eqn:E.
    + split; discriminate.
    + apply Nat.eqb_neq in E.
      apply percentage_bounds; [apply known_count_le | lia].
  - intros Hn. apply Nat.eqb_neq in Hn. now rewrite Hn.
  - intros w Hw Hu. split.
    + unfold word_count. simpl. now rewrite Hw.
    + unfold known_count. simpl. rewrite Hw, Hu. reflexivity.
Qed.

Lemma known_words_ratio_bounds_witness :
  _calculate_known_words_ratio engine [] = 0%Q
  /\ (_calculate_known_words_ratio engine ["data"; "qzxy"] == 50)%Q
  /\ word_count ("qzxy" :: ["data"]) = 2%nat
  /\ known_count engine ("qzxy" :: ["data"]) = 1%nat.
Proof.
  split; [| split].
  - apply (proj1 (known_words_ratio_bounds engine [])). reflexivity.
  - rewrite (proj1 (proj2 (proj2 (known_words_ratio_bounds engine ["data"; "qzxy"])))).
    + vm_compute. reflexivity.
    + vm_compute. discriminate.
  - destruct (proj2 (proj2 (proj2 (known_words_ratio_bounds engine ["data"]))) "qzxy")
      as [Hw Hk].
    + vm_compute. reflexivity.
    + vm_compute. reflexivity.
    + rewrite Hw, Hk. split; vm_compute; reflexivity.
Defined.

(** ** Empty and unrecognisable input (C10, C7) *)

(** Induction on a text by the length of what is left to read. *)
Lemma string_length_ind (P : string -> Prop) :
  (forall t, (forall u, (String.length u < String.length t)%nat -> P u) -> P t) ->
  forall t, P t.
Proof.
  intros H t.
  assert (K : forall n u, (String.length u < n)%nat -> P u).
  { induction n as [| n IH]; intros u Hu; [lia |].
    apply H. intros v Hv. apply IH. lia. }
  apply (K (S (String.length t))). lia.
Qed.

Lemma lstrip_eq (a : ascii) (s1 : string) :
  PyStr.lstrip (String a s1)
  = if PyStr.is_space a then PyStr.lstrip s1
    else
      match s1 with
      | String b s2 =>
          if PyStr.is_space2 a b then PyStr.lstrip s2
          else
            match s2 with
            | String c s3 =>
                if PyStr.is_space3 a b c then PyStr.lstrip s3 else String a s1
            | EmptyString => String a s1
            end
      | EmptyString => String a s1
      end.
Proof. destruct s1 as [| b [| c s3]]; reflexivity. Qed.

Lemma whitespace_only_eq (a : ascii) (s1 : string) :
  whitespace_only (String a s1)
  = if PyStr.is_space a then whitespace_only s1
    else
      match s1 with
      | String b s2 =>
          if PyStr.is_space2 a b then whitespace_only s2
          else
            match s2 with
            | String c s3 => PyStr.is_space3 a b c && whitespace_only s3
            | EmptyString => false
            end
      | EmptyString => false
      end.
Proof. reflexivity. Qed.

(** What [lstrip] leaves is empty exactly for a text of white space. *)
Lemma lstrip_empty (text : string) :
  PyStr.is_empty (PyStr.lstrip text) = whitespace_only text.
Proof.
  induction text as [text IH] using string_length_ind.
  destruct text as [| a s1]; [reflexivity |].
  rewrite lstrip_eq, whitespace_only_eq.
  destruct (PyStr.is_space a); [apply IH; simpl; lia |].
  destruct s1 as [| b s2]; [reflexivity |].
  destruct (PyStr.is_space2 a b); [apply IH; simpl; lia |].
  destruct s2 as [| c s3]; [reflexivity |].
  destruct (PyStr.is_space3 a b c); [apply IH; simpl; lia | reflexivity].
Qed.

Lemma lstrip_whitespace_only (text : string) :
  whitespace_only text = true -> PyStr.lstrip text = EmptyString.
Proof.
  rewrite <- lstrip_empty. destruct (PyStr.lstrip text); [reflexivity | discriminate].
Qed.

Lemma strip_whitespace_only (text : string) :
  whitespace_only text = true -> PyStr.strip text = EmptyString.
Proof.
  intros H. unfold PyStr.strip. now rewrite lstrip_whitespace_only.
Qed.

(** C10.  On a text that is empty or holds white space only, of ASCII or
    of any other character [str.strip] removes (U+0085, U+00A0, U+2003 and
    the like), [enhanced_predict_next] returns the empty list and the ratio
    100, whatever the lexicon and the mode: the state it leaves differs from
    the one it found by the four reset flags only. *)
Theorem enhanced_predict_next_blank (self : LLM) (text mode : string) :
  whitespace_only text = true ->
  enhanced_predict_next text mode self
  = (Returned ([], 100%Q), with_flags (mkFlags false false false false) self).
Proof.
  intros H. unfold enhanced_predict_next, bind, modify, ret.
  now rewrite (strip_whitespace_only text H).
Qed.

(** The witness is a space, a tab, U+00A0 (C2 A0) and U+2003 (E2 80 83). *)
Lemma enhanced_predict_next_blank_witness :
  fst (enhanced_predict_next
         (String " " (String "009" (String "194" (String "160"
            (String "226" (String "128" (String "131" EmptyString)))))))
         "complex" engine)
  = Returned ([], 100%Q)
  /\ word_db (snd (enhanced_predict_next
                     (String " " (String "009" (String "194" (String "160"
                        (String "226" (String "128" (String "131" EmptyString)))))))
                     "complex" engine))
     = word_db engine.
Proof.
  rewrite (enhanced_predict_next_blank engine
             (String " " (String "009" (String "194" (String "160"
                (String "226" (String "128" (String "131" EmptyString)))))))
             "complex" eq_refl).
  split; reflexivity.
Defined.

Lemma predict_next_no_tokens (self : LLM) (text mode : string) :
  text_words text = [] -> predict_next text mode self = (EmptyList, self).
Proof.
  intros H. unfold predict_next. now rewrite H.
Qed.

(** C7.  The text ["?!"] has no word token.  [predict_next] answers it
    with the bare empty list of line 624, not with a pair, and
    [enhanced_predict_next], which unpacks a pair on line 702, ends with
    [ValueError]. *)
Theorem predict_next_no_tokens_is_no_pair :
  text_words "?!" = []
  /\ fst (predict_next "?!" "simple" engine) = EmptyList
  /\ fst (predict_next "?!" "complex" engine) = EmptyList
  /\ fst (enhanced_predict_next "?!" "complex" engine) = RaisedError "ValueError".
Proof.
  split; [| split; [| split]]; vm_compute; reflexivity.
Qed.

(** ** Word limits (C1) *)

(** The setter written for [min_words] would keep the private bounds in
    order. *)
Lemma min_words_setter_keeps_limits (value : Z) (self : LLM) :
  limits_ok (_min_words self) (_max_words self) ->
  limits_ok (_min_words (snd (min_words_setter value self)))
            (_max_words (snd (min_words_setter value self))).
Proof.
  unfold limits_ok, min_words_setter, bind, gets, modify, ret. simpl.
  intros H. destruct (_max_words self <? Z.max 1 (Z.min value 50))%Z eqn:E; simpl.
  - lia.
  - apply Z.ltb_ge in E. lia.
Qed.

(** So would the setter written for [max_words]. *)
Lemma max_words_setter_keeps_limits (value : Z) (self : LLM) :
  limits_ok (_min_words self) (_max_words self) ->
  limits_ok (_min_words (snd (max_words_setter value self)))
            (_max_words (snd (max_words_setter value self))).
Proof.
  unfold limits_ok, max_words_setter, bind, gets, modify, ret. simpl.
  intros H. destruct (Z.max 5 (Z.min value 100) <? _min_words self)%Z eqn:E; simpl.
  - apply Z.ltb_lt in E. lia.
  - apply Z.ltb_ge in E. lia.
Qed.

(** Neither setter is reached by an assignment: the attribute takes the
    value as given, and the private bounds stay as they were. *)
Lemma assignment_is_unchecked (lo hi : Z) (self : LLM) :
  let self' := snd ((assign_min_words lo ;;; assign_max_words hi) self) in
  min_words self' = lo /\ max_words self' = hi
  /\ _min_words self' = _min_words self /\ _max_words self' = _max_words self.
Proof.
  repeat split.
Qed.

(** C1.  The input line [--min50 --max2] of [main] leaves the engine with
    [min_words = 50] and [max_words = 2]: the bounds are out of order, while
    the private fields the setters guard still hold 7 and 100. *)
Theorem word_limits_unchecked :
  let self := snd (handle_word_limits "--min50 --max2" engine) in
  min_words self = 50%Z /\ max_words self = 2%Z
  /\ ~ limits_ok (min_words self) (max_words self)
  /\ _min_words self = 7%Z /\ _max_words self = 100%Z.
Proof.
  cbv zeta.
  assert (E1 : min_words (snd (handle_word_limits "--min50 --max2" engine)) = 50%Z)
    by (vm_compute; reflexivity).
  assert (E2 : max_words (snd (handle_word_limits "--min50 --max2" engine)) = 2%Z)
    by (vm_compute; reflexivity).
  assert (E3 : _min_words (snd (handle_word_limits "--min50 --max2" engine)) = 7%Z)
    by (vm_compute; reflexivity).
  assert (E4 : _max_words (snd (handle_word_limits "--min50 --max2" engine)) = 100%Z)
    by (vm_compute; reflexivity).
  rewrite E1, E2, E3, E4.
  split; [reflexivity | split; [reflexivity | split; [| split; reflexivity]]].
  unfold limits_ok. lia.
Qed.

(** ** Reasoning about methods *)

Section HoareRules.

Variable R : LLM -> LLM -> Prop.
Hypothesis R_refl : forall s, R s s.
Hypothesis R_trans : forall s1 s2 s3, R s1 s2 -> R s2 s3 -> R s1 s3.

Lemma hoare_ret {A : Type} (V : A -> Prop) (a : A) : V a -> hoare R V (ret a).
Proof. intros H s. split; [apply R_refl | exact H]. Qed.

Lemma hoare_gets {A : Type} (V : A -> Prop) (f : LLM -> A) :
  (forall s, V (f s)) -> hoare R V (gets f).
Proof. intros H s. split; [apply R_refl | apply H]. Qed.

Lemma hoare_modify (f : LLM -> LLM) :
  (forall s, R s (f s)) -> hoare R any (modify f).
Proof. intros H s. split; [apply H | exact I]. Qed.

Lemma hoare_bind {A B : Type} (V1 : A -> Prop) (V2 : B -> Prop)
    (m : M A) (k : A -> M B) :
  hoare R V1 m -> (forall a, V1 a -> hoare R V2 (k a)) -> hoare R V2 (bind m k).
Proof.
  intros Hm Hk s. unfold bind.
  destruct (Hm s) as [H1 H2]. destruct (m s) as [a s1]. simpl in *.
  destruct (Hk a H2 s1) as [H3 H4]. split; [| exact H4].
  eapply R_trans; eassumption.
Qed.

Lemma hoare_weaken {A : Type} (V V' : A -> Prop) (m : M A) :
  (forall a, V a -> V' a) -> hoare R V m -> hoare R V' m.
Proof. intros HV Hm s. destruct (Hm s). split; auto. Qed.

Lemma hoare_any {A : Type} (V : A -> Prop) (m : M A) :
  hoare R V m -> hoare R any m.
Proof. apply hoare_weaken. intros; exact I. Qed.

Lemma hoare_for_each {A : Type} (l : list A) (body : A -> M unit) :
  (forall x, In x l -> hoare R any (body x)) -> hoare R any (for_each l body).
Proof.
  induction l as [| x l IH]; intros Hbody; simpl.
  - now apply hoare_ret.
  - eapply hoare_bind.
    + apply Hbody. now left.
    + intros _ _. apply IH. intros y Hy. apply Hbody. now right.
Qed.

Lemma hoare_count_where {A : Type} (l : list A) (test : A -> M bool) :
  (forall x, In x l -> hoare R any (test x)) ->
  hoare R (fun n => (n <= length l)%nat) (count_where l test).
Proof.
  induction l as [| x l IH]; intros Htest; simpl.
  - now apply hoare_ret.
  - eapply hoare_bind.
    + apply Htest. now left.
    + intros b _. eapply hoare_bind.
      * apply IH. intros y Hy. apply Htest. now right.
      * intros n Hn. apply hoare_ret. destruct b; simpl in *; lia.
Qed.

(** The state a method leaves, and the value it returns. *)
Lemma hoare_state {A : Type} (V : A -> Prop) (m : M A) (s : LLM) :
  hoare R V m -> R s (snd (m s)).
Proof. intros H. apply H. Qed.

Lemma hoare_value {A : Type} (V : A -> Prop) (m : M A) (s : LLM) :
  hoare R V m -> V (fst (m s)).
Proof. intros H. apply H. Qed.

End HoareRules.

(** ** What the graph and the index operations leave alone *)

Lemma same_lexicon_refl (s : LLM) : same_lexicon s s.
Proof. repeat split. Qed.

Lemma same_lexicon_trans (s1 s2 s3 : LLM) :
  same_lexicon s1 s2 -> same_lexicon s2 s3 -> same_lexicon s1 s3.
Proof.
  unfold same_lexicon. intros (A1 & A2 & A3 & A4 & A5) (B1 & B2 & B3 & B4 & B5).
  repeat split; congruence.
Qed.

Lemma same_lexicon_relationships (r : odict (odict Q)) (s : LLM) :
  same_lexicon s (with_word_relationships r s).
Proof. repeat split. Qed.

Lemma same_lexicon_patterns (p : odict PatternEntry) (s : LLM) :
  same_lexicon s (with_pattern_relationships p s).
Proof. repeat split. Qed.

Section GraphOperations.

Variable R : LLM -> LLM -> Prop.
Hypothesis R_graph : graph_blind R.

Lemma hoare_rel_row (w1 : string) : hoare R any (rel_row w1).
Proof.
  intros s. unfold rel_row.
  destruct (ODict.read [] w1 (word_relationships s)). simpl.
  split; [apply R_graph | exact I].
Qed.

Lemma hoare_rel_read (w1 w2 : string) : hoare R any (rel_read w1 w2).
Proof.
  intros s. unfold rel_read.
  destruct (ODict.read [] w1 (word_relationships s)) as [row rels].
  destruct (ODict.read 0%Q w2 row). simpl.
  split; [apply R_graph | exact I].
Qed.

Lemma hoare_rel_add (w1 w2 : string) (x : Q) : hoare R any (rel_add w1 w2 x).
Proof.
  intros s. unfold rel_add.
  destruct (ODict.read [] w1 (word_relationships s)) as [row rels].
  destruct (ODict.read 0%Q w2 row). simpl.
  split; [apply R_graph | exact I].
Qed.

End GraphOperations.

Lemma graph_blind_same_lexicon : graph_blind same_lexicon.
Proof. intros r s. apply same_lexicon_relationships. Qed.

(** One step of a frame proof: the rule for the construct at the head of
    the method, with its side conditions taken from the context. *)
Ltac frame_step :=
  lazymatch goal with
  | |- hoare _ _ (ret _) => apply hoare_ret; [assumption | exact I]
  | |- hoare _ _ (gets _) => apply hoare_gets; [assumption | intros; exact I]
  | |- hoare _ _ (bind _ _) =>
      eapply hoare_bind with (V1 := any); [assumption | | intros ? _]
  | |- hoare _ _ (for_each _ _) =>
      apply hoare_for_each; [assumption | assumption | intros ? _]
  | |- hoare _ _ (rel_add _ _ _) => apply hoare_rel_add; assumption
  | |- hoare _ _ (rel_read _ _) => apply hoare_rel_read; assumption
  | |- hoare _ _ (rel_row _) => apply hoare_rel_row; assumption
  | |- hoare _ _ (match ?x with _ => _ end) => destruct x
  end.

Ltac frame := repeat frame_step.

Section GraphBuilders.

Variable R : LLM -> LLM -> Prop.
Hypothesis R_refl : forall s, R s s.
Hypothesis R_trans : forall s1 s2 s3, R s1 s2 -> R s2 s3 -> R s1 s3.
Hypothesis R_graph : graph_blind R.

Lemma hoare_build_relationships (word : string) :
  hoare R any (_build_relationships word).
Proof. unfold _build_relationships. frame. Qed.

Lemma hoare_check_partial_matches (word : string) :
  hoare R any (_check_partial_matches word).
Proof. unfold _check_partial_matches. frame. Qed.

End GraphBuilders.

(** ** Importing a known word (C5) *)

Lemma import_record_lexicon (word : string) (entry : WordEntry) (self : LLM) :
  word_db (snd (import_record word entry self))
  = ODict.set word entry (word_db self).
Proof.
  unfold import_record.
  set (s1 := with_word_db (ODict.set word entry (word_db self)) self).
  assert (H : same_lexicon s1
                (snd ((_build_relationships word ;;; _check_partial_matches word) s1))).
  { apply (hoare_state same_lexicon any).
    eapply hoare_bind with (V1 := any).
    - exact same_lexicon_trans.
    - apply hoare_build_relationships;
        [exact same_lexicon_refl | exact same_lexicon_trans | exact graph_blind_same_lexicon].
    - intros _ _. apply hoare_check_partial_matches;
        [exact same_lexicon_refl | exact same_lexicon_trans | exact graph_blind_same_lexicon]. }
  destruct H as [H _]. exact H.
Qed.

(** C5.  A line whose key, [parts[1].lower()], is already a key of the
    lexicon leaves the whole engine as it found it: no attribute of the known
    word changes and no edge is built.  This holds for every line, whatever its
    other fields say. *)
Theorem import_known_word_is_noop (json_loads : string -> option Json)
    (self : LLM) (line : string) :
  ODict.mem (record_key line) (word_db self) = true ->
  import_line json_loads line self = (true, self).
Proof.
  intros Hknown. unfold import_line, bind, gets, parse_line.
  destruct (PyStr.is_empty (PyStr.strip line) || PyStr.startswith "#" line);
    [reflexivity |].
  destruct (length (record_parts line) <? 2)%nat; [reflexivity |].
  now rewrite Hknown.
Qed.

(** The second of two records for one word is such a line. *)
Lemma reimport_is_noop (json_loads : string -> option Json) (self : LLM)
    (first second : string) (word : string) (entry : WordEntry) :
  parse_line json_loads self first = Stored word entry ->
  record_key second = word ->
  let self' := snd (import_line json_loads first self) in
  ODict.get word (word_db self') = Some entry
  /\ import_line json_loads second self' = (true, self').
Proof.
  intros Hfirst Hkey. cbv zeta.
  assert (Hdb : word_db (snd (import_line json_loads first self))
                = ODict.set word entry (word_db self)).
  { unfold import_line, bind, gets. rewrite Hfirst.
    pose proof (import_record_lexicon word entry self) as H.
    destruct (import_record word entry self) as [u s1]. exact H. }
  split.
  - rewrite Hdb. apply ODictFacts.get_set_same.
  - apply import_known_word_is_noop.
    rewrite Hkey, Hdb. unfold ODict.mem. now rewrite ODictFacts.get_set_same.
Qed.

(** import_dictionary, lines 283-306, on a feed of ASCII lines, where
    [parts[1].lower()] is [record_key]: the first occurrence of a key wins.  A
    feed with a line whose key is a key of the lexicon when the line is
    reached imports as the feed without that line. *)
Lemma import_lines_skips_known (json_loads : string -> option Json)
    (before after : list string) (line : string) (self : LLM) :
  forallb PyStr.is_ascii (before ++ line :: after) = true ->
  fst (import_lines json_loads before self) = true ->
  ODict.mem (record_key line) (word_db (snd (import_lines json_loads before self))) = true ->
  import_lines json_loads (before ++ line :: after) self
  = import_lines json_loads (before ++ after) self.
Proof.
  intros _. revert self. induction before as [| l before IH]; intros self Hok Hknown; simpl in *.
  - unfold bind. rewrite (import_known_word_is_noop json_loads self line Hknown).
    reflexivity.
  - unfold bind in *. destruct (import_line json_loads l self) as [ok s1].
    destruct ok; [| discriminate]. now apply IH.
Qed.

Lemma import_known_word_is_noop_witness :
  record_key "verb; Computer; x; y; fast,slow; ; a different meaning; ; {}" = "computer"
  /\ import_line json_loads_empty_object
       "verb; Computer; x; y; fast,slow; ; a different meaning; ; {}" engine
     = (true, engine).
Proof.
  split.
  - vm_compute. reflexivity.
  - apply (import_known_word_is_noop json_loads_empty_object engine).
    vm_compute. reflexivity.
Defined.

(** ** Ranked lists (C4) *)

Lemma Qltb_true (a b : Q) : Qltb a b = true -> (a < b)%Q.
Proof.
  unfold Qltb. intros H. apply negb_true_iff in H.
  apply Qnot_le_lt. intros Hle. apply Qle_bool_iff in Hle. congruence.
Qed.

Lemma Qltb_false (a b : Q) : Qltb a b = false -> (b <= a)%Q.
Proof.
  unfold Qltb. intros H. apply negb_false_iff in H. now apply Qle_bool_iff.
Qed.

Lemma Qltb_lt (a b : Q) : (a < b)%Q -> Qltb a b = true.
Proof.
  intros H. destruct (Qltb a b) eqn:E; [reflexivity |].
  apply Qltb_false in E. exfalso. eapply Qlt_not_le; eassumption.
Qed.

Lemma in_insert_desc (p x : Prediction) (l : list Prediction) :
  In p (insert_desc x l) <-> p = x \/ In p l.
Proof.
  induction l as [| y l IH]; simpl.
  - intuition.
  - destruct (Qltb (snd x) (snd y)); simpl; rewrite ?IH; intuition.
Qed.

Lemma in_sorted_desc (p : Prediction) (l : list Prediction) :
  In p (sorted_desc l) <-> In p l.
Proof.
  induction l as [| x l IH]; simpl; [reflexivity |].
  rewrite in_insert_desc, IH. intuition.
Qed.

Lemma insert_desc_descending (x : Prediction) (l : list Prediction) :
  descending l -> descending (insert_desc x l).
Proof.
  unfold descending. induction l as [| y l IH]; intros Hl; simpl.
  - constructor; constructor.
  - apply StronglySorted_inv in Hl as [Hl Hy].
    destruct (Qltb (snd x) (snd y)) eqn:E.
    + constructor; [now apply IH |].
      apply Forall_forall. intros p Hp. apply in_insert_desc in Hp as [-> | Hp].
      * apply Qlt_le_weak. now apply Qltb_true.
      * rewrite Forall_forall in Hy. now apply Hy.
    + apply Qltb_false in E. constructor.
      * now constructor.
      * constructor; [exact E |].
        rewrite Forall_forall in *. intros p Hp.
        eapply Qle_trans; [apply Hy; exact Hp | exact E].
Qed.

Lemma sorted_desc_descending (l : list Prediction) : descending (sorted_desc l).
Proof.
  induction l as [| x l IH]; simpl.
  - constructor.
  - now apply insert_desc_descending.
Qed.

Lemma in_firstn {A : Type} (p : A) (n : nat) (l : list A) :
  In p (firstn n l) -> In p l.
Proof.
  intros H. rewrite <- (firstn_skipn n l). apply in_or_app. now left.
Qed.

Lemma firstn_descending (n : nat) (l : list Prediction) :
  descending l -> descending (firstn n l).
Proof.
  unfold descending. revert n. induction l as [| x l IH]; intros n Hl.
  - destruct n; constructor.
  - destruct n; simpl; [constructor |].
    apply StronglySorted_inv in Hl as [Hl Hx].
    constructor; [now apply IH |].
    rewrite Forall_forall in *. intros p Hp. apply Hx.
    eapply in_firstn. exact Hp.
Qed.

(** The sort is stable: an entry is only moved past entries of strictly
    greater score, so entries of equal score keep their order. *)
Lemma ties_insert_desc (q : Q) (x : Prediction) (l : list Prediction) :
  ties q (insert_desc x l) = ties q (x :: l).
Proof.
  unfold ties. induction l as [| y l IH]; simpl; [reflexivity |].
  destruct (Qltb (snd x) (snd y)) eqn:E; simpl; [| reflexivity].
  rewrite IH. simpl.
  destruct (Qeq_bool (snd y) q) eqn:Ey; destruct (Qeq_bool (snd x) q) eqn:Ex;
    try reflexivity.
  exfalso. apply Qltb_true in E.
  apply Qeq_bool_iff in Ey. apply Qeq_bool_iff in Ex.
  rewrite Ey, Ex in E. now apply Qlt_irrefl in E.
Qed.

Lemma ties_sorted_desc (q : Q) (l : list Prediction) :
  ties q (sorted_desc l) = ties q l.
Proof.
  induction l as [| x l IH]; simpl; [reflexivity |].
  rewrite ties_insert_desc. unfold ties in *. simpl. now rewrite IH.
Qed.

Lemma ties_firstn (q : Q) (n : nat) (l : list Prediction) :
  prefix_of (ties q (firstn n l)) (ties q l).
Proof.
  exists (ties q (skipn n l)). unfold ties.
  rewrite <- filter_app. now rewrite firstn_skipn.
Qed.

Lemma ties_positive (q : Q) (l : list Prediction) :
  (0 < q)%Q ->
  ties q (filter (fun '(_, score) => Qltb 0 score) l) = ties q l.
Proof.
  intros Hq. unfold ties. induction l as [| [w x] l IH]; simpl; [reflexivity |].
  destruct (Qltb 0 x) eqn:E; simpl; rewrite IH; [reflexivity |].
  destruct (Qeq_bool x q) eqn:Ex; [| reflexivity].
  exfalso. apply Qeq_bool_iff in Ex. apply Qltb_false in E.
  rewrite Ex in E. eapply Qlt_not_le; eassumption.
Qed.

(** What [_get_top_predictions] returns, for every dictionary of scores:
    a list in descending order, of positive scores only, of ten entries at
    most, in which the entries of one score are the first entries of that score
    in the dictionary, in the order of the dictionary. *)
Lemma top_predictions_ranked (scores : odict Q) :
  descending (_get_top_predictions scores)
  /\ Forall (fun p => (0 < snd p)%Q) (_get_top_predictions scores)
  /\ (length (_get_top_predictions scores) <= 10)%nat
  /\ forall q, prefix_of (ties q (_get_top_predictions scores)) (ties q scores).
Proof.
  unfold _get_top_predictions.
  set (kept := filter (fun '(_, score) => Qltb 0 score) scores).
  assert (Hpos : Forall (fun p => (0 < snd p)%Q) (firstn 10 (sorted_desc kept))).
  { apply Forall_forall. intros [w x] Hp. apply in_firstn in Hp.
    apply (proj1 (in_sorted_desc _ _)) in Hp. unfold kept in Hp.
    apply filter_In in Hp as [_ Hx].
    now apply Qltb_true. }
  split; [| split; [| split]].
  - apply firstn_descending, sorted_desc_descending.
  - exact Hpos.
  - apply firstn_le_length.
  - intros q. destruct (Qlt_le_dec 0 q) as [Hq | Hq].
    + rewrite <- (ties_positive q scores Hq). fold kept.
      rewrite <- (ties_sorted_desc q kept). apply ties_firstn.
    + replace (ties q (firstn 10 (sorted_desc kept))) with (@nil Prediction).
      * now exists (ties q scores).
      * symmetry. unfold ties.
        induction Hpos as [| p l Hp _ IH]; simpl; [reflexivity |].
        rewrite IH. destruct (Qeq_bool (snd p) q) eqn:E; [| reflexivity].
        exfalso. apply Qeq_bool_iff in E. rewrite E in Hp.
        eapply Qlt_not_le; eassumption.
Qed.

Lemma simple_prediction_is_top (words : list string) (s : LLM) :
  exists scores,
    fst (_simple_relationship_prediction words s) = _get_top_predictions scores.
Proof.
  unfold _simple_relationship_prediction, bind.
  destruct (rel_row (last words "") s) as [row s1].
  destruct (pat_after (last words "") s1) as [after_bucket s2].
  unfold gets, ret. simpl. eexists. reflexivity.
Qed.

Lemma complex_prediction_is_top (words : list string) (s : LLM) :
  exists scores,
    fst (_complex_relationship_prediction words s) = _get_top_predictions scores.
Proof.
  unfold _complex_relationship_prediction, bind, gets.
  destruct (complex_scores (last words "") words (ODict.keys (word_db s)) [] s)
    as [scores s1].
  unfold ret. simpl. eexists. reflexivity.
Qed.

(** C4, as the code has it.  For every state, text and mode, [predict_next]
    returns either the bare empty list (exactly when the text has no word
    token) or a pair whose ranked list is in descending order of score, not
    strictly: entries may tie.  Every score in it is greater than 0, it has
    ten entries at most, and it is [_get_top_predictions] of a dictionary of
    scores, so that entries of equal score stand in the order in which the
    candidates were first met. *)
Theorem predict_next_ranked (self : LLM) (text mode : string) :
  match fst (predict_next text mode self) with
  | EmptyList => text_words text = []
  | Pair l _ =>
      descending l
      /\ Forall (fun p => (0 < snd p)%Q) l
      /\ (length l <= 10)%nat
      /\ exists scores,
           l = _get_top_predictions scores
           /\ forall q, prefix_of (ties q l) (ties q scores)
  end.
Proof.
  unfold predict_next. destruct (text_words text) as [| w words] eqn:E.
  - reflexivity.
  - unfold bind, gets.
    assert (Htop : exists scores,
               fst ((if String.eqb mode "simple"
                     then _simple_relationship_prediction (w :: words)
                     else _complex_relationship_prediction (w :: words)) self)
               = _get_top_predictions scores).
    { destruct (String.eqb mode "simple");
        [apply simple_prediction_is_top | apply complex_prediction_is_top]. }
    destruct Htop as [scores Htop].
    destruct ((if String.eqb mode "simple"
               then _simple_relationship_prediction (w :: words)
               else _complex_relationship_prediction (w :: words)) self)
      as [l s1].
    simpl in *. subst l.
    destruct (top_predictions_ranked scores) as (H1 & H2 & H3 & H4).
    repeat (split; [assumption |]).
    exists scores. split; [reflexivity | exact H4].
Qed.

(** The claim as stated fails on the default engine: for the text
    ["hello"] the simple mode ranks four words with the same score, so the
    list is not in strictly descending order. *)
Lemma predict_next_not_strict :
  exists l r,
    fst (predict_next "hello" "simple" engine) = Pair l r
    /\ ~ strictly_descending l.
Proof.
  exists [("computer", 0.2%Q); ("compute", 0.2%Q); ("data", 0.2%Q); ("analyze", 0.2%Q)].
  exists 0%Q. split.
  - vm_compute. reflexivity.
  - unfold strictly_descending. intros H.
    apply StronglySorted_inv in H as [_ H].
    apply Forall_inv in H. simpl in H. now apply Qlt_irrefl in H.
Qed.

(** ** The pattern index only grows (C8) *)

Lemma dict_le_refl (d : odict Q) : dict_le d d.
Proof. intros key v H. exists v. split; [exact H | apply Qle_refl]. Qed.

Lemma dict_le_read (k : string) (d : odict Q) :
  dict_le d (snd (ODict.read 0%Q k d)).
Proof.
  intros key v H. exists v. split; [| apply Qle_refl].
  unfold ODict.read. destruct (ODict.get k d) eqn:E; simpl; [exact H |].
  rewrite ODictFacts.get_set. destruct (String.eqb k key) eqn:Ek; [| exact H].
  apply String.eqb_eq in Ek. subst. congruence.
Qed.

Lemma dict_le_add (k : string) (x : Q) (d : odict Q) :
  (0 <= x)%Q -> dict_le d (ODict.set k (ODict.get_or 0%Q k d + x)%Q d).
Proof.
  intros Hx key v H. rewrite ODictFacts.get_set.
  destruct (String.eqb k key) eqn:Ek.
  - apply String.eqb_eq in Ek. subst key. eexists. split; [reflexivity |].
    unfold ODict.get_or. rewrite H.
    rewrite <- (Qplus_0_r v) at 1. apply Qplus_le_r. exact Hx.
  - exists v. split; [exact H | apply Qle_refl].
Qed.

Lemma entry_le_refl (e : PatternEntry) : entry_le e e.
Proof. intros kind key v H. exists v. split; [exact H | apply Qle_refl]. Qed.

(** Replacing the entry of [w], created if need be, by a greater one. *)
Lemma patterns_grow_update (w : string) (e' : PatternEntry) (s : LLM) :
  entry_le (ODict.get_or empty_pattern_entry w (pattern_relationships s)) e' ->
  patterns_grow s
    (with_pattern_relationships
       (ODict.set w e'
          (snd (ODict.read empty_pattern_entry w (pattern_relationships s)))) s).
Proof.
  intros Hle word kind key v H. unfold stored_strength in *. simpl.
  rewrite ODictFacts.get_set. destruct (String.eqb w word) eqn:E.
  - apply String.eqb_eq in E. subst word.
    apply Hle. unfold ODict.get_or.
    destruct (ODict.get w (pattern_relationships s)); [exact H | discriminate].
  - apply String.eqb_neq in E. rewrite ODictFacts.get_read_other by exact E.
    exists v. split; [exact H | apply Qle_refl].
Qed.

(** The state an operation on the entry of [w] leaves. *)
Lemma entry_update_state {A : Type} (w : string)
    (f : PatternEntry -> PatternEntry) (g : PatternEntry -> M A) (s : LLM) :
  (forall e s', snd (g e s') = s') ->
  snd ((e <- pat_entry w ;; put_pat_entry w (f e) ;;; g e) s)
  = with_pattern_relationships
      (ODict.set w (f (ODict.get_or empty_pattern_entry w (pattern_relationships s)))
         (snd (ODict.read empty_pattern_entry w (pattern_relationships s)))) s.
Proof.
  intros Hg. unfold bind, pat_entry, put_pat_entry, modify.
  rewrite <- (ODictFacts.fst_read empty_pattern_entry w (pattern_relationships s)).
  destruct (ODict.read empty_pattern_entry w (pattern_relationships s)) as [e pats].
  simpl. rewrite Hg. reflexivity.
Qed.

Lemma pat_entry_value (w : string) (s : LLM) :
  fst (pat_entry w s) = ODict.get_or empty_pattern_entry w (pattern_relationships s).
Proof.
  unfold pat_entry.
  rewrite <- (ODictFacts.fst_read empty_pattern_entry w (pattern_relationships s)).
  now destruct (ODict.read empty_pattern_entry w (pattern_relationships s)).
Qed.

Lemma patterns_grow_put (w : string) (e' : PatternEntry) (s : LLM) :
  entry_le (ODict.get_or empty_pattern_entry w (pattern_relationships s)) e' ->
  patterns_grow s (snd (put_pat_entry w e' (snd (pat_entry w s)))).
Proof.
  intros Hle. pose proof (patterns_grow_update w e' s Hle) as H.
  unfold put_pat_entry, modify, pat_entry.
  destruct (ODict.read empty_pattern_entry w (pattern_relationships s)) as [e pats].
  exact H.
Qed.

Lemma entry_le_before (e : PatternEntry) :
  entry_le e (mkPatternEntry (Some (bucket (before e))) (after e) (position_context e)).
Proof.
  intros kind key v H. exists v. split; [| apply Qle_refl]. now destruct kind.
Qed.

Lemma entry_le_after (e : PatternEntry) :
  entry_le e (mkPatternEntry (before e) (Some (bucket (after e))) (position_context e)).
Proof.
  intros kind key v H. exists v. split; [| apply Qle_refl]. now destruct kind.
Qed.

Lemma entry_le_after_read (k : string) (e : PatternEntry) :
  entry_le e (mkPatternEntry (before e)
                (Some (snd (ODict.read 0%Q k (bucket (after e)))))
                (position_context e)).
Proof.
  intros kind key v H. destruct kind; simpl in *.
  - exists v. split; [exact H | apply Qle_refl].
  - now apply dict_le_read.
  - exists v. split; [exact H | apply Qle_refl].
Qed.

Lemma entry_le_add_before (k : string) (x : Q) (e : PatternEntry) :
  (0 <= x)%Q ->
  entry_le e
    (mkPatternEntry
       (Some (ODict.set k (ODict.get_or 0%Q k (bucket (before e)) + x)%Q
                        (bucket (before e))))
       (after e) (position_context e)).
Proof.
  intros Hx kind key v H. destruct kind; simpl in *.
  - now apply dict_le_add.
  - exists v. split; [exact H | apply Qle_refl].
  - exists v. split; [exact H | apply Qle_refl].
Qed.

Lemma entry_le_add_after (k : string) (x : Q) (e : PatternEntry) :
  (0 <= x)%Q ->
  entry_le e
    (mkPatternEntry (before e)
       (Some (ODict.set k (ODict.get_or 0%Q k (bucket (after e)) + x)%Q
                        (bucket (after e))))
       (position_context e)).
Proof.
  intros Hx kind key v H. destruct kind; simpl in *.
  - exists v. split; [exact H | apply Qle_refl].
  - now apply dict_le_add.
  - exists v. split; [exact H | apply Qle_refl].
Qed.

Lemma entry_le_add_position (pos k : string) (x : Q) (e : PatternEntry) :
  (0 <= x)%Q ->
  entry_le e
    (mkPatternEntry (before e) (after e)
       (Some (ODict.set pos
                (ODict.set k (ODict.get_or 0%Q k (ODict.get_or [] pos (contexts e)) + x)%Q
                           (ODict.get_or [] pos (contexts e)))
                (contexts e)))).
Proof.
  intros Hx kind key v H. destruct kind; simpl in *.
  - exists v. split; [exact H | apply Qle_refl].
  - exists v. split; [exact H | apply Qle_refl].
  - unfold contexts at 1. simpl. rewrite ODictFacts.get_or_set.
    destruct (String.eqb pos label) eqn:E.
    + apply String.eqb_eq in E. subst label. now apply dict_le_add.
    + exists v. split; [exact H | apply Qle_refl].
Qed.

(** A proof that one operation on the entry of a word lets the index grow:
    the operation is [pat_entry], then [put_pat_entry] of a greater entry. *)
Ltac grow_entry lemma :=
  let s := fresh "s" in
  let He := fresh "He" in
  let Hg := fresh "Hg" in
  intros s; split; [| exact I];
  unfold bind;
  match goal with
  | |- context [pat_entry ?w s] =>
      pose proof (pat_entry_value w s) as He;
      pose proof (fun e' => patterns_grow_put w e' s) as Hg;
      destruct (pat_entry w s) as [e s1]; simpl in He, Hg; subst e
  end;
  unfold ret; simpl;
  try match goal with
  | |- context [put_pat_entry ?w ?e' ?s1] =>
      destruct (put_pat_entry w e' s1) eqn:Eput;
      match type of Eput with
      | _ = (?u, ?s2) =>
          replace s2 with (snd (put_pat_entry w e' s1)) by (rewrite Eput; reflexivity)
      end
  end;
  simpl; apply Hg; apply lemma.

Lemma patterns_grow_pat_before (w : string) : hoare patterns_grow any (pat_before w).
Proof. unfold pat_before. grow_entry entry_le_before. Qed.

Lemma patterns_grow_pat_after (w : string) : hoare patterns_grow any (pat_after w).
Proof. unfold pat_after. grow_entry entry_le_after. Qed.

Lemma patterns_grow_pat_after_read (w k : string) :
  hoare patterns_grow any (pat_after_read w k).
Proof.
  intros s. split; [| exact I]. unfold pat_after_read, bind.
  pose proof (pat_entry_value w s) as He.
  pose proof (fun e' => patterns_grow_put w e' s) as Hg.
  destruct (pat_entry w s) as [e s1]. simpl in He. subst e.
  pose proof (Hg _ (entry_le_after_read k _)) as H.
  destruct (ODict.read 0%Q k
              (bucket (after (ODict.get_or empty_pattern_entry w
                                           (pattern_relationships s)))))
    as [x d].
  unfold put_pat_entry, modify, ret in *. simpl in *. exact H.
Qed.

Lemma patterns_grow_pat_add_before (w k : string) (x : Q) :
  (0 <= x)%Q -> hoare patterns_grow any (pat_add_before w k x).
Proof.
  intros Hx. unfold pat_add_before. grow_entry (entry_le_add_before k x). exact Hx.
Qed.

Lemma patterns_grow_pat_add_after (w k : string) (x : Q) :
  (0 <= x)%Q -> hoare patterns_grow any (pat_add_after w k x).
Proof.
  intros Hx. unfold pat_add_after. grow_entry (entry_le_add_after k x). exact Hx.
Qed.

Lemma patterns_grow_pat_add_position (w pos k : string) (x : Q) :
  (0 <= x)%Q -> hoare patterns_grow any (pat_add_position w pos k x).
Proof.
  intros Hx. unfold pat_add_position. grow_entry (entry_le_add_position pos k x).
  exact Hx.
Qed.

Lemma patterns_grow_refl (s : LLM) : patterns_grow s s.
Proof. intros word kind key v H. exists v. split; [exact H | apply Qle_refl]. Qed.

Lemma patterns_grow_trans (s1 s2 s3 : LLM) :
  patterns_grow s1 s2 -> patterns_grow s2 s3 -> patterns_grow s1 s3.
Proof.
  intros H12 H23 word kind key v H.
  destruct (H12 word kind key v H) as (v2 & H2 & Hle2).
  destruct (H23 word kind key v2 H2) as (v3 & H3 & Hle3).
  exists v3. split; [exact H3 | eapply Qle_trans; eassumption].
Qed.

(** A state with the same pattern index stores the same strengths. *)
Lemma patterns_grow_same_index (s s' : LLM) :
  pattern_relationships s' = pattern_relationships s -> patterns_grow s s'.
Proof.
  intros E word kind key v H. exists v. split; [| apply Qle_refl].
  unfold stored_strength in *. now rewrite E.
Qed.

Lemma patterns_grow_respected : Respected patterns_grow.
Proof.
  constructor.
  - exact patterns_grow_refl.
  - exact patterns_grow_trans.
  - intros r s. now apply patterns_grow_same_index.
  - exact patterns_grow_pat_before.
  - exact patterns_grow_pat_after.
  - exact patterns_grow_pat_after_read.
  - exact patterns_grow_pat_add_before.
  - exact patterns_grow_pat_add_after.
  - exact patterns_grow_pat_add_position.
  - intros f s. now apply patterns_grow_same_index.
  - intros e s. now apply patterns_grow_same_index.
Qed.

Lemma patterns_grow_lexicon_blind : lexicon_blind patterns_grow.
Proof. intros db s. now apply patterns_grow_same_index. Qed.

(** ** Methods under a respected relation *)

Lemma py_max_nonneg (x : Q) : (0 <= py_max 0 x)%Q.
Proof.
  unfold py_max. destruct (Qltb 0 x) eqn:E.
  - apply Qlt_le_weak. now apply Qltb_true.
  - apply Qle_refl.
Qed.

(** One step of a proof that a method respects a relation [R], with
    [HR : Respected R] in the context. *)
Ltac respect_step :=
  lazymatch goal with
  | |- hoare _ _ (ret _) => apply hoare_ret; [apply r_refl; assumption | exact I]
  | |- hoare _ _ (gets _) =>
      apply hoare_gets; [apply r_refl; assumption | intros; exact I]
  | |- hoare _ _ (bind _ _) =>
      eapply hoare_bind with (V1 := any); [apply r_trans; assumption | | intros ? _]
  | |- hoare _ _ (for_each _ _) =>
      apply hoare_for_each;
      [apply r_refl; assumption | apply r_trans; assumption | intros ? _]
  | |- hoare _ _ (count_where _ _) =>
      eapply hoare_any; apply hoare_count_where;
      [apply r_refl; assumption | apply r_trans; assumption | intros ? _]
  | |- hoare _ _ (rel_add _ _ _) => apply hoare_rel_add; apply r_graph; assumption
  | |- hoare _ _ (rel_read _ _) => apply hoare_rel_read; apply r_graph; assumption
  | |- hoare _ _ (rel_row _) => apply hoare_rel_row; apply r_graph; assumption
  | |- hoare _ _ (pat_before _) => apply r_before; assumption
  | |- hoare _ _ (pat_after _) => apply r_after; assumption
  | |- hoare _ _ (pat_after_read _ _) => apply r_after_read; assumption
  | |- hoare _ _ (match ?x with _ => _ end) => destruct x
  end.

Ltac respect := repeat respect_step.

Section RespectedMethods.

Variable R : LLM -> LLM -> Prop.
Hypothesis HR : Respected R.

Lemma respect_semantic_proximity (word1 word2 : string) (all_words : list string)
    (current_index : nat) :
  hoare R any (_calculate_semantic_proximity word1 word2 all_words current_index).
Proof. unfold _calculate_semantic_proximity. respect. Qed.

Lemma respect_contextual_relevance (word1 word2 : string) (all_words : list string) :
  hoare R any (_calculate_contextual_relevance word1 word2 all_words).
Proof. unfold _calculate_contextual_relevance. respect. Qed.

(** The strength of a pattern relationship is floored at 0. *)
Lemma respect_pattern_relationship (word1 word2 : string) (all_words : list string)
    (current_index : nat) :
  hoare R (fun strength => (0 <= strength)%Q)
    (_calculate_pattern_relationship word1 word2 all_words current_index).
Proof.
  unfold _calculate_pattern_relationship.
  eapply hoare_bind with (V1 := any); [apply r_trans; assumption | respect |].
  intros direct_rel _.
  eapply hoare_bind with (V1 := any);
    [apply r_trans; assumption | apply respect_semantic_proximity |].
  intros semantic_weight _.
  eapply hoare_bind with (V1 := any); [apply r_trans; assumption | respect |].
  intros grammatical_weight _.
  eapply hoare_bind with (V1 := any);
    [apply r_trans; assumption | apply respect_contextual_relevance |].
  intros contextual_weight _.
  apply hoare_ret; [apply r_refl; assumption | apply py_max_nonneg].
Qed.

Lemma respect_build_relationship_patterns (current_word : string)
    (all_words : list string) (current_index : nat) :
  hoare R any (_build_relationship_patterns current_word all_words current_index).
Proof.
  unfold _build_relationship_patterns.
  apply hoare_for_each;
    [apply r_refl; assumption | apply r_trans; assumption |].
  intros [i other_word] _.
  destruct ((i =? current_index)%nat || PyStr.in_punctuation other_word);
    [respect |].
  eapply hoare_bind;
    [apply r_trans; assumption | apply respect_pattern_relationship |].
  intros strength Hstrength.
  eapply hoare_bind with (V1 := any); [apply r_trans; assumption | |].
  - destruct (i <? current_index)%nat;
      [apply r_add_before | apply r_add_after]; assumption.
  - intros _ _. apply r_add_position; assumption.
Qed.

Lemma respect_contextual_coherence (candidate_word : string)
    (previous_words : list string) :
  hoare R any (_calculate_contextual_coherence candidate_word previous_words).
Proof.
  unfold _calculate_contextual_coherence.
  eapply hoare_bind with (V1 := any); [apply r_trans; assumption | | intros; respect].
  generalize 0.0%Q. induction (last_n 3 previous_words) as [| p l IH]; intros c; simpl.
  - respect.
  - respect; apply IH.
Qed.

Lemma respect_complex_score (last_word candidate_word : string) (words : list string) :
  hoare R any (complex_score last_word candidate_word words).
Proof.
  unfold complex_score. respect. apply respect_contextual_coherence.
Qed.

Lemma respect_complex_scores (last_word : string) (words candidates : list string)
    (scores : odict Q) :
  hoare R any (complex_scores last_word words candidates scores).
Proof.
  revert scores. induction candidates as [| c candidates IH]; intros scores; simpl.
  - respect.
  - destruct (String.eqb c last_word); [apply IH |].
    eapply hoare_bind with (V1 := any);
      [apply r_trans; assumption | apply respect_complex_score |].
    intros total _. apply IH.
Qed.

Lemma respect_complex_prediction (words : list string) :
  hoare R any (_complex_relationship_prediction words).
Proof.
  unfold _complex_relationship_prediction. respect. apply respect_complex_scores.
Qed.

Lemma respect_simple_prediction (words : list string) :
  hoare R any (_simple_relationship_prediction words).
Proof. unfold _simple_relationship_prediction. respect. Qed.

Lemma respect_predict_next (text mode : string) :
  hoare R any (predict_next text mode).
Proof.
  unfold predict_next. destruct (text_words text); [respect |].
  respect; [apply respect_simple_prediction | apply respect_complex_prediction].
Qed.

End RespectedMethods.

Section RespectedEnhancements.

Variable R : LLM -> LLM -> Prop.
Hypothesis HR : Respected R.

Lemma respect_detect_emotional_tone (text : string) :
  hoare R any (detect_emotional_tone text).
Proof. intros s. split; [unfold detect_emotional_tone, detect_domain; simpl; apply (r_enhancements R HR) | exact I]. Qed.

Lemma respect_detect_domain (text : string) : hoare R any (detect_domain text).
Proof. intros s. split; [unfold detect_emotional_tone, detect_domain; simpl; apply (r_enhancements R HR) | exact I]. Qed.

Lemma respect_personalized (base_predictions : list Prediction) :
  hoare R any (get_personalized_predictions base_predictions).
Proof.
  intros s. unfold get_personalized_predictions.
  destruct (ODict.read default_profile "default" (user_profiles (enhancements s)))
    as [dflt profiles].
  destruct (preferred_words
              (ODict.get_or dflt (current_user (enhancements s)) profiles));
    (split; [simpl; apply (r_enhancements R HR) | exact I]).
Qed.

Lemma respect_enhanced_predict_next (text mode : string) :
  hoare R any (enhanced_predict_next text mode).
Proof.
  unfold enhanced_predict_next.
  eapply hoare_bind with (V1 := any); [apply r_trans; assumption | |].
  - apply hoare_modify. intros s. apply (r_flags R HR).
  - intros _ _. destruct (PyStr.is_empty (PyStr.strip text)); [respect |].
    eapply hoare_bind with (V1 := any);
      [apply r_trans; assumption | apply respect_predict_next; assumption |].
    intros base _. destruct base as [| base_predictions known_ratio]; [respect |].
    destruct base_predictions as [| p base_predictions]; [respect |].
    eapply hoare_bind with (V1 := any); [apply r_trans; assumption | respect |].
    intros e1 _.
    eapply hoare_bind with (V1 := any);
      [apply r_trans; assumption | apply respect_detect_emotional_tone |].
    intros tone _.
    eapply hoare_bind with (V1 := any); [apply r_trans; assumption | respect |].
    intros e2 _.
    eapply hoare_bind with (V1 := any);
      [apply r_trans; assumption | apply respect_detect_domain |].
    intros domain _.
    eapply hoare_bind with (V1 := any); [apply r_trans; assumption | respect |].
    intros domain_enhanced _. destruct domain_enhanced as [e3 |]; [| respect].
    eapply hoare_bind with (V1 := any); [apply r_trans; assumption | respect |].
    intros e4 _.
    eapply hoare_bind with (V1 := any);
      [apply r_trans; assumption | apply respect_personalized |].
    intros e5 _. respect.
Qed.

Lemma respect_best_word_candidates (target_class : string)
    (existing_words : list string) (l candidates : list Prediction) :
  hoare R any (best_word_candidates target_class existing_words l candidates).
Proof.
  revert candidates. induction l as [| [word score] l IH]; intros candidates; simpl.
  - respect.
  - eapply hoare_bind with (V1 := any); [apply r_trans; assumption | respect |].
    intros eligible _. destruct eligible; [| apply IH].
    eapply hoare_bind with (V1 := any); [apply r_trans; assumption | respect |].
    intros pattern_score _. apply IH.
Qed.

Lemma respect_find_best_word_for_class (predictions : list Prediction)
    (target_class : string) (existing_words : list string) :
  hoare R any (_find_best_word_for_class predictions target_class existing_words).
Proof.
  unfold _find_best_word_for_class.
  eapply hoare_bind with (V1 := any);
    [apply r_trans; assumption | apply respect_best_word_candidates |].
  intros candidates _. respect.
Qed.

Lemma respect_expand_by_class (expected_classes : list string)
    (predictions : list Prediction) (generated_words : list string) :
  hoare R any (expand_by_class expected_classes predictions generated_words).
Proof.
  revert generated_words.
  induction expected_classes as [| c rest IH]; intros generated_words; simpl.
  - respect.
  - eapply hoare_bind with (V1 := any); [apply r_trans; assumption | respect |].
    intros limit _.
    destruct (limit <=? Z.of_nat (length generated_words))%Z; [respect |].
    eapply hoare_bind with (V1 := any);
      [apply r_trans; assumption | apply respect_find_best_word_for_class |].
    intros best _. destruct best as [w |]; [| apply IH].
    destruct (PyStr.is_empty w); apply IH.
Qed.

Lemma respect_generate_words (input_words : list string)
    (predictions : list Prediction) :
  hoare R any (generate_words input_words predictions).
Proof.
  unfold generate_words.
  eapply hoare_bind with (V1 := any); [apply r_trans; assumption | respect |].
  intros classes _.
  eapply hoare_bind with (V1 := any);
    [apply r_trans; assumption | apply respect_expand_by_class |].
  intros generated _. respect.
Qed.

Lemma respect_generate_sentence (text : string) (predictions : list Prediction) :
  hoare R any (generate_sentence text predictions).
Proof.
  unfold generate_sentence. destruct (text_words text) as [| w ws]; [respect |].
  eapply hoare_bind with (V1 := any); [apply r_trans; assumption | respect |].
  intros sentence_type _.
  eapply hoare_bind with (V1 := any);
    [apply r_trans; assumption | apply respect_generate_words |].
  intros generated _. respect.
Qed.

End RespectedEnhancements.

Section RespectedLexiconMethods.

Variable R : LLM -> LLM -> Prop.
Hypothesis HR : Respected R.
Hypothesis HL : lexicon_blind R.

Lemma respect_update_word_position_data (word position_type : string) :
  hoare R any (_update_word_position_data word position_type).
Proof.
  intros s. unfold _update_word_position_data.
  destruct (ODict.get word (word_db s)) as [e |];
    [| split; [apply (r_refl R HR) | exact I]].
  destruct (bump_position (pattern_data e) position_type);
    (split; [simpl; first [apply HL | apply (r_refl R HR)] | exact I]).
Qed.

Lemma respect_analyze_loop (items : list (nat * string)) (words : list string)
    (result : Analysis) :
  hoare R any (analyze_loop items words result).
Proof.
  revert result. induction items as [| [i word] items IH]; intros result; simpl.
  - respect.
  - destruct (PyStr.in_punctuation word); [apply IH |].
    eapply hoare_bind with (V1 := any); [apply r_trans; assumption | respect |].
    intros word_class _.
    eapply hoare_bind with (V1 := any);
      [apply r_trans; assumption
      | apply respect_build_relationship_patterns; assumption |].
    intros _ _.
    eapply hoare_bind with (V1 := any); [apply r_trans; assumption | respect |].
    intros training _.
    eapply hoare_bind with (V1 := any); [apply r_trans; assumption | |].
    + destruct training; [apply respect_update_word_position_data | respect].
    + intros ok _. destruct (negb ok); [respect |].
      eapply hoare_bind with (V1 := any); [apply r_trans; assumption | |].
      * destruct ((0 <? i)%nat && not_punctuation (nth (i - 1) words ""));
          [| respect].
        eapply hoare_bind with (V1 := any);
          [apply r_trans; assumption
          | eapply hoare_any; apply respect_pattern_relationship; assumption |].
        intros strength _. respect.
      * intros rels _. apply IH.
Qed.

Lemma respect_analyze_patterns (sentence : string) :
  hoare R any (analyze_patterns sentence).
Proof.
  unfold analyze_patterns.
  eapply hoare_bind with (V1 := any); [apply r_trans; assumption | respect |].
  intros result _. apply respect_analyze_loop.
Qed.

Lemma respect_update_entry (word : string) (f : WordEntry -> WordEntry) :
  hoare R any (update_entry word f).
Proof.
  unfold update_entry. apply hoare_modify. intros s.
  destruct (ODict.get word (word_db s)); [apply HL | apply (r_refl R HR)].
Qed.

Lemma respect_build_relationships (word : string) :
  hoare R any (_build_relationships word).
Proof. unfold _build_relationships. respect. Qed.

Lemma respect_check_partial_matches (word : string) :
  hoare R any (_check_partial_matches word).
Proof. unfold _check_partial_matches. respect. Qed.

Lemma respect_bridge_word (related : WordEntry -> list string)
    (store : list string -> WordEntry -> WordEntry) (delta : Q) (word : string) :
  hoare R any (bridge_word related store delta word).
Proof.
  unfold bridge_word.
  eapply hoare_bind with (V1 := any); [apply r_trans; assumption | respect |].
  intros found _. destruct found as [data |]; [| respect].
  eapply hoare_bind with (V1 := any); [apply r_trans; assumption | respect |].
  intros db _.
  match goal with |- hoare _ _ (if ?c then _ else _) => destruct c end; [respect |].
  eapply hoare_bind with (V1 := any);
    [apply r_trans; assumption | apply respect_update_entry |].
  intros _ _. respect.
Qed.

Lemma respect_bridge_synonyms : hoare R any _bridge_synonyms.
Proof. unfold _bridge_synonyms. respect. apply respect_bridge_word. Qed.

Lemma respect_bridge_antonyms : hoare R any _bridge_antonyms.
Proof. unfold _bridge_antonyms. respect. apply respect_bridge_word. Qed.

Lemma respect_bridge_experts : hoare R any _bridge_experts.
Proof.
  unfold _bridge_experts. respect; try apply respect_update_entry.
Qed.

Lemma respect_infer_word_class_from_patterns (word : string) :
  hoare R any (_infer_word_class_from_patterns word).
Proof. unfold _infer_word_class_from_patterns. respect. Qed.

Lemma respect_infer_unknown_word_classes : hoare R any _infer_unknown_word_classes.
Proof.
  unfold _infer_unknown_word_classes. respect;
    try apply respect_update_entry; apply respect_infer_word_class_from_patterns.
Qed.

Lemma respect_add_punctuation_and_numbers : hoare R any _add_punctuation_and_numbers.
Proof.
  assert (H : forall make key, hoare R any (add_if_missing make key)).
  { intros make key. apply hoare_modify. intros s.
    destruct (ODict.mem key (word_db s)); [apply (r_refl R HR) | apply HL]. }
  unfold _add_punctuation_and_numbers. respect; apply H.
Qed.

Variable json_loads : string -> option Json.

Lemma respect_import_line (line : string) : hoare R any (import_line json_loads line).
Proof.
  unfold import_line.
  eapply hoare_bind with (V1 := any); [apply r_trans; assumption | respect |].
  intros outcome _. destruct outcome as [| word entry |]; [respect | | respect].
  eapply hoare_bind with (V1 := any); [apply r_trans; assumption | | intros; respect].
  unfold import_record.
  eapply hoare_bind with (V1 := any); [apply r_trans; assumption | |].
  - apply hoare_modify. intros s. apply HL.
  - intros _ _.
    eapply hoare_bind with (V1 := any);
      [apply r_trans; assumption | apply respect_build_relationships |].
    intros _ _. apply respect_check_partial_matches.
Qed.

Lemma respect_import_lines (lines : list string) :
  hoare R any (import_lines json_loads lines).
Proof.
  induction lines as [| line lines IH]; simpl.
  - respect.
  - eapply hoare_bind with (V1 := any);
      [apply r_trans; assumption | apply respect_import_line |].
    intros ok _. destruct ok; [apply IH | respect].
Qed.

Lemma respect_import_dictionary (lines : list string) :
  hoare R any (import_dictionary json_loads lines).
Proof.
  unfold import_dictionary.
  eapply hoare_bind with (V1 := any);
    [apply r_trans; assumption | apply respect_import_lines |].
  intros ok _. destruct ok; [| respect].
  eapply hoare_bind with (V1 := any);
    [apply r_trans; assumption | apply respect_add_punctuation_and_numbers |].
  intros _ _.
  eapply hoare_bind with (V1 := any); [apply r_trans; assumption | respect |].
  intros training _. destruct training; [| respect].
  eapply hoare_bind with (V1 := any);
    [apply r_trans; assumption | apply respect_bridge_synonyms |].
  intros _ _.
  eapply hoare_bind with (V1 := any);
    [apply r_trans; assumption | apply respect_bridge_antonyms |].
  intros _ _.
  eapply hoare_bind with (V1 := any);
    [apply r_trans; assumption | apply respect_bridge_experts |].
  intros _ _. apply respect_infer_unknown_word_classes.
Qed.

End RespectedLexiconMethods.

Lemma handle_word_limits_index (user_input : string) (s : LLM) :
  pattern_relationships (snd (handle_word_limits user_input s))
  = pattern_relationships s.
Proof.
  unfold handle_word_limits, bind, assign_min_words, assign_max_words, modify, ret.
  destruct (search_flag "--min" user_input);
    destruct (search_flag "--max" user_input); reflexivity.
Qed.

Lemma run_patterns_grow (json_loads : string -> option Json) (op : Operation)
    (s : LLM) :
  patterns_grow s (run json_loads op s).
Proof.
  destruct op; simpl.
  - apply (hoare_state patterns_grow any).
    apply respect_analyze_patterns;
      [exact patterns_grow_respected | exact patterns_grow_lexicon_blind].
  - apply (hoare_state patterns_grow any).
    apply respect_predict_next. exact patterns_grow_respected.
  - apply (hoare_state patterns_grow any).
    apply respect_enhanced_predict_next. exact patterns_grow_respected.
  - apply (hoare_state patterns_grow any).
    apply respect_generate_sentence. exact patterns_grow_respected.
  - apply patterns_grow_same_index. apply handle_word_limits_index.
  - now apply patterns_grow_same_index.
  - apply (hoare_state patterns_grow any).
    apply respect_import_dictionary;
      [exact patterns_grow_respected | exact patterns_grow_lexicon_blind].
Qed.

Lemma session_patterns_grow (json_loads : string -> option Json)
    (ops : list Operation) (s : LLM) :
  patterns_grow s (session json_loads ops s).
Proof.
  unfold session. revert s. induction ops as [| op ops IH]; intros s; simpl.
  - apply patterns_grow_refl.
  - eapply patterns_grow_trans; [apply run_patterns_grow | apply IH].
Qed.

(** The strength [_calculate_pattern_relationship] returns is never
    negative, in whatever state it is called. *)
Lemma pattern_relationship_nonneg (word1 word2 : string) (all_words : list string)
    (current_index : nat) (s : LLM) :
  (0 <= fst (_calculate_pattern_relationship word1 word2 all_words current_index s))%Q.
Proof.
  apply (hoare_value unrelated (fun x => (0 <= x)%Q)).
  apply respect_pattern_relationship.
  constructor; try (intros; exact I); intros; intros s0; split; exact I.
Qed.

(** C8.  A strength stored in the pattern index, in the [before], the
    [after] or a [position_context] bucket of a word, is still stored after
    any sequence of operations of the engine, and is not smaller: analysing a
    sentence adds to an entry the strength of a pattern relationship, which is
    floored at 0, and no operation removes or lowers an entry. *)
Theorem pattern_index_only_grows (json_loads : string -> option Json)
    (ops : list Operation) (s : LLM) (word : string) (kind : BucketKind)
    (key : string) (v : Q) :
  stored_strength s word kind key = Some v ->
  exists v',
    stored_strength (session json_loads ops s) word kind key = Some v'
    /\ (v <= v')%Q.
Proof.
  intros H. exact (session_patterns_grow json_loads ops s word kind key v H).
Qed.

Lemma pattern_index_only_grows_witness :
  let s := snd (analyze_patterns "data compute" engine) in
  let ops := [Analyze "compute the data"; Predict "data" "complex";
              Analyze "data compute fast"] in
  stored_strength s "data" After "compute" = Some 0.355000000000%Q
  /\ exists v',
       stored_strength (session json_loads_empty_object ops s) "data" After "compute"
       = Some v'
       /\ (0.355000000000 <= v')%Q.
Proof.
  cbv zeta.
  assert (H : stored_strength (snd (analyze_patterns "data compute" engine))
                "data" After "compute" = Some 0.355000000000%Q)
    by (vm_compute; reflexivity).
  split; [exact H |].
  exact (pattern_index_only_grows json_loads_empty_object _ _ _ _ _ _ H).
Defined.

(** ** Synonym edges (C3) *)

Lemma snd_then {A B : Type} (m : M A) (k : M B) (s : LLM) :
  snd ((m ;;; k) s) = snd (k (snd (m s))).
Proof. unfold bind. now destruct (m s). Qed.

Lemma snd_for_each_cons {A : Type} (x : A) (l : list A) (body : A -> M unit)
    (s : LLM) :
  snd (for_each (x :: l) body s) = snd (for_each l body (snd (body x s))).
Proof. simpl. apply snd_then. Qed.

(** The weight of every edge after [self.word_relationships[a][b] += x]. *)
Lemma graph_weight_rel_add (a b : string) (x : Q) (s : LLM) (a' b' : string) :
  graph_weight (snd (rel_add a b x s)) a' b'
  = if String.eqb a a' && String.eqb b b'
    then (graph_weight s a b + x)%Q
    else graph_weight s a' b'.
Proof.
  unfold rel_add, graph_weight.
  match goal with
  | |- context [ODict.read ?d a ?m] =>
      pose proof (ODictFacts.fst_read d a m) as Hrow;
      pose proof (ODictFacts.get_or_read d a a' m) as Hrels;
      destruct (ODict.read d a m) as [row rels]
  end.
  cbn [fst snd] in Hrow, Hrels. subst row.
  match goal with
  | |- context [ODict.read ?d b ?m] =>
      pose proof (ODictFacts.fst_read d b m) as Hold;
      pose proof (ODictFacts.get_or_read d b b' m) as Hrow';
      destruct (ODict.read d b m) as [old row']
  end.
  cbn [fst snd] in Hold, Hrow'. subst old.
  cbn [fst snd word_relationships with_word_relationships].
  rewrite ODictFacts.get_or_set.
  destruct (String.eqb a a') eqn:Ea; simpl.
  - apply String.eqb_eq in Ea. subst a'.
    rewrite ODictFacts.get_or_set. destruct (String.eqb b b'); [reflexivity | exact Hrow'].
  - now rewrite Hrels.
Qed.

Lemma rel_add_lexicon (a b : string) (x : Q) (s : LLM) :
  same_lexicon s (snd (rel_add a b x s)).
Proof.
  apply (hoare_state same_lexicon any). apply hoare_rel_add.
  exact graph_blind_same_lexicon.
Qed.

Lemma Qnat_succ (n : nat) : (Qnat (S n) == Qnat n + 1)%Q.
Proof. unfold Qnat, Qeq, Qplus. simpl. lia. Qed.

Section SynonymEdges.

Variables word synonym : string.
Hypothesis distinct : synonym <> word.

Lemma eqb_word_synonym : String.eqb word synonym = false.
Proof. apply String.eqb_neq. congruence. Qed.

Lemma eqb_synonym_word : String.eqb synonym word = false.
Proof. now apply String.eqb_neq. Qed.

(** One iteration of a loop that adds [x] both ways between [word] and
    [y]. *)
Lemma both_ways_step (y : string) (x : Q) (s : LLM) :
  let s' := snd ((rel_add word y x ;;; rel_add y word x) s) in
  same_lexicon s s'
  /\ both_plus (both_weights s word synonym) (if String.eqb y synonym then x else 0) (both_weights s' word synonym).
Proof.
  cbv zeta. rewrite snd_then. split.
  - eapply same_lexicon_trans; apply rel_add_lexicon.
  - unfold both_plus, both_weights. simpl.
    rewrite !graph_weight_rel_add.
    repeat match goal with
           | |- context [String.eqb ?a ?b] =>
               destruct (String.eqb_spec a b); try congruence; try subst y;
               cbn [andb]
           end;
      split; ring.
Qed.

Lemma both_ways_loop (l : list string) (x : Q) (s : LLM) :
  let s' := snd (for_each l (fun y => rel_add word y x ;;; rel_add y word x) s) in
  same_lexicon s s'
  /\ both_plus (both_weights s word synonym) (x * Qnat (count_occ string_dec l synonym)) (both_weights s' word synonym).
Proof.
  cbv zeta. revert s. induction l as [| y l IH]; intros s.
  - simpl. split; [apply same_lexicon_refl |].
    unfold both_plus, Qnat. simpl. split; ring.
  - rewrite snd_for_each_cons.
    destruct (both_ways_step y x s) as [Hlex Hstep].
    destruct (IH (snd ((rel_add word y x ;;; rel_add y word x) s))) as [Hlex' Hloop].
    split; [eapply same_lexicon_trans; eassumption |].
    unfold both_plus in *. destruct Hstep as [H1 H2]. destruct Hloop as [H3 H4].
    rewrite H3, H4, H1, H2. simpl count_occ.
    destruct (string_dec y synonym) as [-> | Hne].
    + rewrite String.eqb_refl, Qnat_succ. split; ring.
    + apply String.eqb_neq in Hne. rewrite Hne. split; ring.
Qed.

End SynonymEdges.

(** * Further properties of the engine *)

(** ** Methods under a readable relation *)

(** One step of a proof that a method keeps a readable relation [R], with
    [HR : Readable R] in the context. *)
Ltac readable_step :=
  lazymatch goal with
  | |- hoare _ _ (ret _) => apply hoare_ret; [apply rd_refl; assumption | exact I]
  | |- hoare _ _ (gets _) =>
      apply hoare_gets; [apply rd_refl; assumption | intros; exact I]
  | |- hoare _ _ (bind _ _) =>
      eapply hoare_bind with (V1 := any); [apply rd_trans; assumption | | intros ? _]
  | |- hoare _ _ (for_each _ _) =>
      apply hoare_for_each;
      [apply rd_refl; assumption | apply rd_trans; assumption | intros ? _]
  | |- hoare _ _ (count_where _ _) =>
      eapply hoare_any; apply hoare_count_where;
      [apply rd_refl; assumption | apply rd_trans; assumption | intros ? _]
  | |- hoare _ _ (rel_add _ _ _) =>
      match goal with
      | H : forall a b x, hoare _ any (rel_add a b x) |- _ => apply H
      end
  | |- hoare _ _ (rel_read _ _) => apply rd_read; assumption
  | |- hoare _ _ (rel_row _) => apply rd_row; assumption
  | |- hoare _ _ (pat_before _) => apply rd_before; assumption
  | |- hoare _ _ (pat_after _) => apply rd_after; assumption
  | |- hoare _ _ (pat_after_read _ _) => apply rd_after_read; assumption
  | |- hoare _ _ (match ?x with _ => _ end) => destruct x
  end.

Ltac readable := repeat readable_step.

Section ReadableMethods.

Variable R : LLM -> LLM -> Prop.
Hypothesis HR : Readable R.

Lemma readable_semantic_proximity (word1 word2 : string) (all_words : list string)
    (current_index : nat) :
  hoare R any (_calculate_semantic_proximity word1 word2 all_words current_index).
Proof. unfold _calculate_semantic_proximity. readable. Qed.

Lemma readable_contextual_relevance (word1 word2 : string) (all_words : list string) :
  hoare R any (_calculate_contextual_relevance word1 word2 all_words).
Proof. unfold _calculate_contextual_relevance. readable. Qed.

Lemma readable_pattern_relationship (word1 word2 : string) (all_words : list string)
    (current_index : nat) :
  hoare R (fun strength => (0 <= strength)%Q)
    (_calculate_pattern_relationship word1 word2 all_words current_index).
Proof.
  unfold _calculate_pattern_relationship.
  eapply hoare_bind with (V1 := any); [apply rd_trans; assumption | readable |].
  intros direct_rel _.
  eapply hoare_bind with (V1 := any);
    [apply rd_trans; assumption | apply readable_semantic_proximity |].
  intros semantic_weight _.
  eapply hoare_bind with (V1 := any); [apply rd_trans; assumption | readable |].
  intros grammatical_weight _.
  eapply hoare_bind with (V1 := any);
    [apply rd_trans; assumption | apply readable_contextual_relevance |].
  intros contextual_weight _.
  apply hoare_ret; [apply rd_refl; assumption | apply py_max_nonneg].
Qed.

Lemma readable_build_relationship_patterns (current_word : string)
    (all_words : list string) (current_index : nat) :
  hoare R any (_build_relationship_patterns current_word all_words current_index).
Proof.
  unfold _build_relationship_patterns.
  apply hoare_for_each;
    [apply rd_refl; assumption | apply rd_trans; assumption |].
  intros [i other_word] _.
  destruct ((i =? current_index)%nat || PyStr.in_punctuation other_word);
    [readable |].
  eapply hoare_bind;
    [apply rd_trans; assumption | apply readable_pattern_relationship |].
  intros strength Hstrength.
  eapply hoare_bind with (V1 := any); [apply rd_trans; assumption | |].
  - destruct (i <? current_index)%nat;
      [apply rd_add_before | apply rd_add_after]; assumption.
  - intros _ _. apply rd_add_position; assumption.
Qed.

Lemma readable_contextual_coherence (candidate_word : string)
    (previous_words : list string) :
  hoare R any (_calculate_contextual_coherence candidate_word previous_words).
Proof.
  unfold _calculate_contextual_coherence.
  eapply hoare_bind with (V1 := any); [apply rd_trans; assumption | | intros; readable].
  generalize 0.0%Q. induction (last_n 3 previous_words) as [| p l IH]; intros c; simpl.
  - readable.
  - readable; apply IH.
Qed.

Lemma readable_complex_score (last_word candidate_word : string) (words : list string) :
  hoare R any (complex_score last_word candidate_word words).
Proof.
  unfold complex_score. readable. apply readable_contextual_coherence.
Qed.

Lemma readable_complex_scores (last_word : string) (words candidates : list string)
    (scores : odict Q) :
  hoare R any (complex_scores last_word words candidates scores).
Proof.
  revert scores. induction candidates as [| c candidates IH]; intros scores; simpl.
  - readable.
  - destruct (String.eqb c last_word); [apply IH |].
    eapply hoare_bind with (V1 := any);
      [apply rd_trans; assumption | apply readable_complex_score |].
    intros total _. apply IH.
Qed.

Lemma readable_complex_prediction (words : list string) :
  hoare R any (_complex_relationship_prediction words).
Proof.
  unfold _complex_relationship_prediction. readable. apply readable_complex_scores.
Qed.

Lemma readable_simple_prediction (words : list string) :
  hoare R any (_simple_relationship_prediction words).
Proof. unfold _simple_relationship_prediction. readable. Qed.

Lemma readable_predict_next (text mode : string) :
  hoare R any (predict_next text mode).
Proof.
  unfold predict_next. destruct (text_words text); [readable |].
  readable; [apply readable_simple_prediction | apply readable_complex_prediction].
Qed.

End ReadableMethods.

Section ReadableEnhancements.

Variable R : LLM -> LLM -> Prop.
Hypothesis HR : Readable R.
Hypothesis HF : flags_blind R.
Hypothesis HE : enhancements_blind R.

Lemma readable_detect_emotional_tone (text : string) :
  hoare R any (detect_emotional_tone text).
Proof. intros s. split; [unfold detect_emotional_tone, detect_domain; simpl; apply HE | exact I]. Qed.

Lemma readable_detect_domain (text : string) : hoare R any (detect_domain text).
Proof. intros s. split; [unfold detect_emotional_tone, detect_domain; simpl; apply HE | exact I]. Qed.

Lemma readable_personalized (base_predictions : list Prediction) :
  hoare R any (get_personalized_predictions base_predictions).
Proof.
  intros s. unfold get_personalized_predictions.
  destruct (ODict.read default_profile "default" (user_profiles (enhancements s)))
    as [dflt profiles].
  destruct (preferred_words
              (ODict.get_or dflt (current_user (enhancements s)) profiles));
    (split; [simpl; apply HE | exact I]).
Qed.

Lemma readable_enhanced_predict_next (text mode : string) :
  hoare R any (enhanced_predict_next text mode).
Proof.
  unfold enhanced_predict_next.
  eapply hoare_bind with (V1 := any); [apply rd_trans; assumption | |].
  - apply hoare_modify. intros s. apply HF.
  - intros _ _. destruct (PyStr.is_empty (PyStr.strip text)); [readable |].
    eapply hoare_bind with (V1 := any);
      [apply rd_trans; assumption | apply readable_predict_next; assumption |].
    intros base _. destruct base as [| base_predictions known_ratio]; [readable |].
    destruct base_predictions as [| p base_predictions]; [readable |].
    eapply hoare_bind with (V1 := any); [apply rd_trans; assumption | readable |].
    intros e1 _.
    eapply hoare_bind with (V1 := any);
      [apply rd_trans; assumption | apply readable_detect_emotional_tone |].
    intros tone _.
    eapply hoare_bind with (V1 := any); [apply rd_trans; assumption | readable |].
    intros e2 _.
    eapply hoare_bind with (V1 := any);
      [apply rd_trans; assumption | apply readable_detect_domain |].
    intros domain _.
    eapply hoare_bind with (V1 := any); [apply rd_trans; assumption | readable |].
    intros domain_enhanced _. destruct domain_enhanced as [e3 |]; [| readable].
    eapply hoare_bind with (V1 := any); [apply rd_trans; assumption | readable |].
    intros e4 _.
    eapply hoare_bind with (V1 := any);
      [apply rd_trans; assumption | apply readable_personalized |].
    intros e5 _. readable.
Qed.

Lemma readable_best_word_candidates (target_class : string)
    (existing_words : list string) (l candidates : list Prediction) :
  hoare R any (best_word_candidates target_class existing_words l candidates).
Proof.
  revert candidates. induction l as [| [word score] l IH]; intros candidates; simpl.
  - readable.
  - eapply hoare_bind with (V1 := any); [apply rd_trans; assumption | readable |].
    intros eligible _. destruct eligible; [| apply IH].
    eapply hoare_bind with (V1 := any); [apply rd_trans; assumption | readable |].
    intros pattern_score _. apply IH.
Qed.

Lemma readable_find_best_word_for_class (predictions : list Prediction)
    (target_class : string) (existing_words : list string) :
  hoare R any (_find_best_word_for_class predictions target_class existing_words).
Proof.
  unfold _find_best_word_for_class.
  eapply hoare_bind with (V1 := any);
    [apply rd_trans; assumption | apply readable_best_word_candidates |].
  intros candidates _. readable.
Qed.

Lemma readable_expand_by_class (expected_classes : list string)
    (predictions : list Prediction) (generated_words : list string) :
  hoare R any (expand_by_class expected_classes predictions generated_words).
Proof.
  revert generated_words.
  induction expected_classes as [| c rest IH]; intros generated_words; simpl.
  - readable.
  - eapply hoare_bind with (V1 := any); [apply rd_trans; assumption | readable |].
    intros limit _.
    destruct (limit <=? Z.of_nat (length generated_words))%Z; [readable |].
    eapply hoare_bind with (V1 := any);
      [apply rd_trans; assumption | apply readable_find_best_word_for_class |].
    intros best _. destruct best as [w |]; [| apply IH].
    destruct (PyStr.is_empty w); apply IH.
Qed.

Lemma readable_generate_words (input_words : list string)
    (predictions : list Prediction) :
  hoare R any (generate_words input_words predictions).
Proof.
  unfold generate_words.
  eapply hoare_bind with (V1 := any); [apply rd_trans; assumption | readable |].
  intros classes _.
  eapply hoare_bind with (V1 := any);
    [apply rd_trans; assumption | apply readable_expand_by_class |].
  intros generated _. readable.
Qed.

Lemma readable_generate_sentence (text : string) (predictions : list Prediction) :
  hoare R any (generate_sentence text predictions).
Proof.
  unfold generate_sentence. destruct (text_words text) as [| w ws]; [readable |].
  eapply hoare_bind with (V1 := any); [apply rd_trans; assumption | readable |].
  intros sentence_type _.
  eapply hoare_bind with (V1 := any);
    [apply rd_trans; assumption | apply readable_generate_words |].
  intros generated _. readable.
Qed.

End ReadableEnhancements.

(** ** Relations the index and the graph operations keep *)

Section PatternBlindRelations.

Variable R : LLM -> LLM -> Prop.
Hypothesis R_refl : forall s, R s s.
Hypothesis R_trans : forall s1 s2 s3, R s1 s2 -> R s2 s3 -> R s1 s3.
Hypothesis R_pattern : pattern_blind R.

Lemma blind_pat_entry (w : string) : hoare R any (pat_entry w).
Proof.
  intros s. unfold pat_entry.
  destruct (ODict.read empty_pattern_entry w (pattern_relationships s)).
  split; [apply R_pattern | exact I].
Qed.

Lemma blind_put_pat_entry (w : string) (e : PatternEntry) :
  hoare R any (put_pat_entry w e).
Proof. apply hoare_modify. intros s. apply R_pattern. Qed.

Ltac blind_op :=
  eapply hoare_bind with (V1 := any);
  [exact R_trans | apply blind_pat_entry | intros ? _];
  repeat lazymatch goal with
    | |- hoare _ _ (bind _ _) =>
        eapply hoare_bind with (V1 := any); [exact R_trans | | intros ? _]
    | |- hoare _ _ (put_pat_entry _ _) => apply blind_put_pat_entry
    | |- hoare _ _ (ret _) => apply hoare_ret; [exact R_refl | exact I]
    | |- hoare _ _ (match ?x with _ => _ end) => destruct x
    end.

Lemma blind_pat_before (w : string) : hoare R any (pat_before w).
Proof. unfold pat_before. blind_op. Qed.

Lemma blind_pat_after (w : string) : hoare R any (pat_after w).
Proof. unfold pat_after. blind_op. Qed.

Lemma blind_pat_after_read (w k : string) : hoare R any (pat_after_read w k).
Proof. unfold pat_after_read. blind_op. Qed.

Lemma blind_pat_add_before (w k : string) (x : Q) : hoare R any (pat_add_before w k x).
Proof. unfold pat_add_before. blind_op. Qed.

Lemma blind_pat_add_after (w k : string) (x : Q) : hoare R any (pat_add_after w k x).
Proof. unfold pat_add_after. blind_op. Qed.

Lemma blind_pat_add_position (w pos k : string) (x : Q) :
  hoare R any (pat_add_position w pos k x).
Proof. unfold pat_add_position. blind_op. Qed.

(** A relation that the reads of the graph keep, and that the pattern index
    does not concern, is readable. *)
Lemma pattern_blind_readable :
  (forall w, hoare R any (rel_row w)) ->
  (forall w1 w2, hoare R any (rel_read w1 w2)) ->
  Readable R.
Proof.
  intros Hrow Hread. constructor; try assumption.
  - exact blind_pat_before.
  - exact blind_pat_after.
  - exact blind_pat_after_read.
  - intros w k x _. apply blind_pat_add_before.
  - intros w k x _. apply blind_pat_add_after.
  - intros w pos k x _. apply blind_pat_add_position.
Qed.

End PatternBlindRelations.

Lemma weights_rel_row (w : string) : hoare same_weights any (rel_row w).
Proof.
  intros s. split; [| exact I]. intros a b. unfold rel_row, graph_weight.
  match goal with
  | |- context [ODict.read ?d w ?m] =>
      pose proof (ODictFacts.get_or_read d w a m) as H;
      destruct (ODict.read d w m) as [row rels]
  end.
  cbn [fst snd word_relationships with_word_relationships] in *. now rewrite H.
Qed.

Lemma weights_rel_read (w1 w2 : string) : hoare same_weights any (rel_read w1 w2).
Proof.
  intros s. split; [| exact I]. intros a b. unfold rel_read, graph_weight.
  match goal with
  | |- context [ODict.read ?d w1 ?m] =>
      pose proof (ODictFacts.fst_read d w1 m) as Hrow;
      pose proof (ODictFacts.get_or_read d w1 a m) as Hrels;
      destruct (ODict.read d w1 m) as [row rels]
  end.
  cbn [fst snd] in Hrow, Hrels. subst row.
  match goal with
  | |- context [ODict.read ?d w2 ?m] =>
      pose proof (ODictFacts.get_or_read d w2 b m) as Hrow';
      destruct (ODict.read d w2 m) as [old row']
  end.
  cbn [fst snd word_relationships with_word_relationships] in *.
  rewrite ODictFacts.get_or_set. destruct (String.eqb w1 a) eqn:E.
  - apply String.eqb_eq in E. subst a. exact Hrow'.
  - now rewrite Hrels.
Qed.

Lemma same_weights_refl (s : LLM) : same_weights s s.
Proof. intros a b. reflexivity. Qed.

Lemma same_weights_trans (s1 s2 s3 : LLM) :
  same_weights s1 s2 -> same_weights s2 s3 -> same_weights s1 s3.
Proof. intros H12 H23 a b. now rewrite H23, H12. Qed.

Lemma same_weights_same_graph (s s' : LLM) :
  word_relationships s' = word_relationships s -> same_weights s s'.
Proof. intros E a b. unfold graph_weight. now rewrite E. Qed.

Lemma same_weights_readable : Readable same_weights.
Proof.
  apply pattern_blind_readable.
  - exact same_weights_refl.
  - exact same_weights_trans.
  - intros p s. now apply same_weights_same_graph.
  - exact weights_rel_row.
  - exact weights_rel_read.
Qed.

Lemma same_flags_readable : Readable same_flags.
Proof.
  apply pattern_blind_readable.
  - intros s. reflexivity.
  - unfold same_flags. intros s1 s2 s3 H12 H23. congruence.
  - intros p s. reflexivity.
  - intros w. apply hoare_rel_row. intros r s. reflexivity.
  - intros w1 w2. apply hoare_rel_read. intros r s. reflexivity.
Qed.

Section ReadableAnalysis.

Variable R : LLM -> LLM -> Prop.
Hypothesis HR : Readable R.
Hypothesis HU : forall word position_type,
  hoare R any (_update_word_position_data word position_type).

Lemma readable_analyze_loop (items : list (nat * string)) (words : list string)
    (result : Analysis) :
  hoare R any (analyze_loop items words result).
Proof.
  revert result. induction items as [| [i word] items IH]; intros result; simpl.
  - readable.
  - destruct (PyStr.in_punctuation word); [apply IH |].
    eapply hoare_bind with (V1 := any); [apply rd_trans; assumption | readable |].
    intros word_class _.
    eapply hoare_bind with (V1 := any);
      [apply rd_trans; assumption
      | apply readable_build_relationship_patterns; assumption |].
    intros _ _.
    eapply hoare_bind with (V1 := any); [apply rd_trans; assumption | readable |].
    intros training _.
    eapply hoare_bind with (V1 := any); [apply rd_trans; assumption | |].
    + destruct training; [apply HU | readable].
    + intros ok _. destruct (negb ok); [readable |].
      eapply hoare_bind with (V1 := any); [apply rd_trans; assumption | |].
      * destruct ((0 <? i)%nat && not_punctuation (nth (i - 1) words ""));
          [| readable].
        eapply hoare_bind with (V1 := any);
          [apply rd_trans; assumption
          | eapply hoare_any; apply readable_pattern_relationship; assumption |].
        intros strength _. readable.
      * intros rels _. apply IH.
Qed.

Lemma readable_analyze_patterns (sentence : string) :
  hoare R any (analyze_patterns sentence).
Proof.
  unfold analyze_patterns.
  eapply hoare_bind with (V1 := any); [apply rd_trans; assumption | readable |].
  intros result _. apply readable_analyze_loop.
Qed.

End ReadableAnalysis.

(** A relation that no change of the lexicon concerns holds across the
    update of the position counts. *)
Lemma blind_update_word_position_data (R : LLM -> LLM -> Prop)
    (word position_type : string) :
  (forall s, R s s) -> lexicon_blind R ->
  hoare R any (_update_word_position_data word position_type).
Proof.
  intros Hrefl HL s. unfold _update_word_position_data.
  destruct (ODict.get word (word_db s)) as [e |];
    [| split; [apply Hrefl | exact I]].
  destruct (bump_position (pattern_data e) position_type);
    (split; [simpl; first [apply HL | apply Hrefl] | exact I]).
Qed.

(** ** Operations that only read the graph *)

Lemma handle_word_limits_graph (user_input : string) (s : LLM) :
  word_relationships (snd (handle_word_limits user_input s)) = word_relationships s.
Proof.
  unfold handle_word_limits, bind, assign_min_words, assign_max_words, modify, ret.
  destruct (search_flag "--min" user_input);
    destruct (search_flag "--max" user_input); reflexivity.
Qed.

Lemma run_same_weights (json_loads : string -> option Json) (op : Operation)
    (s : LLM) :
  reads_graph_only op = true -> same_weights s (run json_loads op s).
Proof.
  destruct op; simpl; intros Hop; try discriminate.
  - apply (hoare_state same_weights any). apply readable_analyze_patterns.
    + exact same_weights_readable.
    + intros word position_type. apply blind_update_word_position_data.
      * exact same_weights_refl.
      * intros db s0. now apply same_weights_same_graph.
  - apply (hoare_state same_weights any).
    apply readable_predict_next. exact same_weights_readable.
  - apply (hoare_state same_weights any).
    apply readable_enhanced_predict_next.
    + exact same_weights_readable.
    + intros f s0. now apply same_weights_same_graph.
    + intros e s0. now apply same_weights_same_graph.
  - apply (hoare_state same_weights any).
    apply readable_generate_sentence. exact same_weights_readable.
  - apply same_weights_same_graph. apply handle_word_limits_graph.
  - now apply same_weights_same_graph.
Qed.

(** Reading a missing edge creates an entry of weight 0 in the graph, and
    nothing else: a session without an import leaves the weight of every edge
    as it was. *)
Theorem reading_keeps_every_weight (json_loads : string -> option Json)
    (ops : list Operation) (s : LLM) (a b : string) :
  forallb reads_graph_only ops = true ->
  graph_weight (session json_loads ops s) a b = graph_weight s a b.
Proof.
  unfold session. revert s. induction ops as [| op ops IH]; intros s Hops; simpl.
  - reflexivity.
  - simpl in Hops. apply andb_prop in Hops as [Hop Hops].
    rewrite (IH _ Hops). now apply run_same_weights.
Qed.

Lemma reading_keeps_every_weight_witness :
  graph_weight
    (session json_loads_empty_object
       [Analyze "data compute"; Predict "data" "complex";
        EnhancedPredict "the computer" "complex";
        Generate "data" [("compute", 0.2%Q)]; SetLimits "--min4"]
       engine)
    "computer" "pc"
  = graph_weight engine "computer" "pc".
Proof.
  apply (reading_keeps_every_weight json_loads_empty_object). reflexivity.
Defined.

(** ** The tool flags after a prediction *)

Lemma enhancements_blind_same_flags : enhancements_blind same_flags.
Proof. intros e s. reflexivity. Qed.

Lemma enhanced_predict_next_flags (text mode : string) (s : LLM) :
  flags (snd (enhanced_predict_next text mode s)) = mkFlags false false false false.
Proof.
  unfold enhanced_predict_next. rewrite snd_then.
  match goal with
  | |- flags (snd (?body ?s1)) = _ =>
      assert (H : hoare same_flags any body); [| exact (proj1 (H s1))]
  end.
  pose proof same_flags_readable as HR.
  pose proof enhancements_blind_same_flags as HE.
  destruct (PyStr.is_empty (PyStr.strip text)); [readable |].
  eapply hoare_bind with (V1 := any);
    [apply rd_trans; assumption | apply readable_predict_next; assumption |].
  intros base _. destruct base as [| base_predictions known_ratio]; [readable |].
  destruct base_predictions as [| p base_predictions]; [readable |].
  eapply hoare_bind with (V1 := any); [apply rd_trans; assumption | readable |].
  intros e1 _.
  eapply hoare_bind with (V1 := any);
    [apply rd_trans; assumption
    | apply readable_detect_emotional_tone; assumption |].
  intros tone _.
  eapply hoare_bind with (V1 := any); [apply rd_trans; assumption | readable |].
  intros e2 _.
  eapply hoare_bind with (V1 := any);
    [apply rd_trans; assumption | apply readable_detect_domain; assumption |].
  intros domain _.
  eapply hoare_bind with (V1 := any); [apply rd_trans; assumption | readable |].
  intros domain_enhanced _. destruct domain_enhanced as [e3 |]; [| readable].
  eapply hoare_bind with (V1 := any); [apply rd_trans; assumption | readable |].
  intros e4 _.
  eapply hoare_bind with (V1 := any);
    [apply rd_trans; assumption | apply readable_personalized; assumption |].
  intros e5 _. readable.
Qed.

(** Whatever flags were set before it, and however it ends,
    [enhanced_predict_next] leaves the four tool flags cleared, so that each of
    the three tools answers that it is disabled until its flag is set again. *)
Theorem prediction_disables_the_tools (text mode : string) (s : LLM)
    (query : string) :
  let s' := snd (enhanced_predict_next text mode s) in
  flags s' = mkFlags false false false false
  /\ internet_search s' query
     = "Internet search disabled. Use --internet flag to enable."
  /\ python_code_generation s' query
     = "Code generation disabled. Use --code flag to enable."
  /\ image_processing s' query
     = "Image processing disabled. Use --image flag to enable.".
Proof.
  cbv zeta. unfold internet_search, python_code_generation, image_processing.
  rewrite enhanced_predict_next_flags. simpl.
  split; [| split; [| split]]; reflexivity.
Qed.

(** ** Punctuation marks and digits as pseudo-words *)

Lemma mem_of_in (x : string) (l : list string) : In x l -> PyStr.mem x l = true.
Proof.
  induction l as [| y l IH]; intros H; [contradiction |].
  simpl. destruct H as [-> | H].
  - now rewrite String.eqb_refl.
  - rewrite (IH H). apply orb_true_r.
Qed.

Lemma in_of_mem (x : string) (l : list string) : PyStr.mem x l = true -> In x l.
Proof.
  induction l as [| y l IH]; intros H; [discriminate |].
  simpl in H. apply orb_prop in H as [H | H].
  - apply String.eqb_eq in H. now left.
  - right. now apply IH.
Qed.

Lemma add_missing_keys_lexicon (make : string -> WordEntry) (l : list string)
    (s : LLM) :
  word_db (snd (for_each l (add_if_missing make) s))
  = fold_left (add_missing_key make) l (word_db s).
Proof.
  revert s. induction l as [| k l IH]; intros s; [reflexivity |].
  rewrite snd_for_each_cons, IH. simpl. f_equal.
  unfold add_if_missing, modify, add_missing_key. simpl.
  now destruct (ODict.mem k (word_db s)).
Qed.

Lemma add_missing_key_keeps (make : string -> WordEntry) (db : odict WordEntry)
    (key k : string) (e : WordEntry) :
  ODict.get k db = Some e -> ODict.get k (add_missing_key make db key) = Some e.
Proof.
  intros H. unfold add_missing_key, ODict.mem.
  destruct (ODict.get key db) eqn:E; [exact H |].
  rewrite ODictFacts.get_set_other; [exact H |].
  intros ->. congruence.
Qed.

Lemma add_missing_keys_keep (make : string -> WordEntry) (l : list string)
    (db : odict WordEntry) (k : string) (e : WordEntry) :
  ODict.get k db = Some e ->
  ODict.get k (fold_left (add_missing_key make) l db) = Some e.
Proof.
  revert db. induction l as [| key l IH]; intros db H; simpl; [exact H |].
  apply IH. now apply add_missing_key_keeps.
Qed.

Lemma add_missing_keys_new (make : string -> WordEntry) (l : list string)
    (db : odict WordEntry) (k : string) :
  In k l -> ODict.get k db = None ->
  ODict.get k (fold_left (add_missing_key make) l db) = Some (make k).
Proof.
  revert db. induction l as [| key l IH]; intros db Hin Hnone; [contradiction |].
  simpl. destruct (string_dec key k) as [-> | Hne].
  - apply add_missing_keys_keep. unfold add_missing_key, ODict.mem.
    rewrite Hnone. apply ODictFacts.get_set_same.
  - destruct Hin as [-> | Hin]; [congruence |].
    apply IH; [exact Hin |]. unfold add_missing_key.
    destruct (ODict.mem key db); [exact Hnone |].
    rewrite ODictFacts.get_set_other; assumption.
Qed.

Lemma add_missing_keys_present (make : string -> WordEntry) (l : list string)
    (db : odict WordEntry) (k : string) :
  In k l -> ODict.mem k (fold_left (add_missing_key make) l db) = true.
Proof.
  intros Hin. unfold ODict.mem.
  destruct (ODict.get k db) as [e |] eqn:E.
  - now rewrite (add_missing_keys_keep make l db k e E).
  - now rewrite (add_missing_keys_new make l db k Hin E).
Qed.

Lemma punctuation_and_numbers_lexicon (s : LLM) :
  word_db (snd (_add_punctuation_and_numbers s))
  = fold_left (add_missing_key number_entry) decimal_digits
      (fold_left (add_missing_key punctuation_entry) punctuation_marks (word_db s)).
Proof.
  unfold _add_punctuation_and_numbers. rewrite snd_then.
  now rewrite !add_missing_keys_lexicon.
Qed.

Lemma add_missing_keys_other (make : string -> WordEntry) (l : list string)
    (db : odict WordEntry) (k : string) :
  ~ In k l -> ODict.get k (fold_left (add_missing_key make) l db) = ODict.get k db.
Proof.
  revert db. induction l as [| key l IH]; intros db Hl; simpl; [reflexivity |].
  rewrite IH by (intros H; apply Hl; now right).
  unfold add_missing_key. destruct (ODict.mem key db); [reflexivity |].
  apply ODictFacts.get_set_other. intros ->. apply Hl. now left.
Qed.

Lemma digits_are_no_marks (k : string) :
  In k decimal_digits -> ~ In k punctuation_marks.
Proof.
  intros Hin Hmarks.
  assert (Hdisjoint : forallb (fun d => negb (PyStr.mem d punctuation_marks))
                              decimal_digits = true) by (vm_compute; reflexivity).
  rewrite forallb_forall in Hdisjoint. specialize (Hdisjoint k Hin).
  now rewrite (mem_of_in k punctuation_marks Hmarks) in Hdisjoint.
Qed.

(** After [_add_punctuation_and_numbers] each of the fifteen punctuation
    marks and of the ten digits is a key of the lexicon; an entry that was
    stored before is still stored, unchanged, also under such a key; a mark that
    was no key is stored with the class ["punctuation"], a digit that was no key
    with the class ["number"]. *)
Theorem punctuation_and_numbers_added (s : LLM) :
  let db' := word_db (snd (_add_punctuation_and_numbers s)) in
  (forall k, In k (punctuation_marks ++ decimal_digits) -> ODict.mem k db' = true)
  /\ (forall k e, ODict.get k (word_db s) = Some e -> ODict.get k db' = Some e)
  /\ (forall k, In k punctuation_marks -> ODict.get k (word_db s) = None ->
                ODict.get k db' = Some (punctuation_entry k))
  /\ (forall k, In k decimal_digits -> ODict.get k (word_db s) = None ->
                ODict.get k db' = Some (number_entry k)).
Proof.
  cbv zeta. rewrite punctuation_and_numbers_lexicon.
  generalize (word_db s) as db. intros db.
  generalize punctuation_marks decimal_digits digits_are_no_marks.
  intros marks digits Hdisjoint.
  split; [| split; [| split]].
  - intros k Hin. apply in_app_or in Hin as [Hin | Hin].
    + pose proof (add_missing_keys_present punctuation_entry marks db k Hin) as H.
      unfold ODict.mem in *.
      destruct (ODict.get k (fold_left (add_missing_key punctuation_entry) marks db))
        as [e |] eqn:E; [| discriminate].
      now rewrite (add_missing_keys_keep number_entry digits _ k e E).
    + now apply add_missing_keys_present.
  - intros k e H. now apply add_missing_keys_keep, add_missing_keys_keep.
  - intros k Hin Hnone. apply add_missing_keys_keep.
    now apply add_missing_keys_new.
  - intros k Hin Hnone. apply add_missing_keys_new; [exact Hin |].
    rewrite add_missing_keys_other; [exact Hnone |]. now apply Hdisjoint.
Qed.

Lemma punctuation_and_numbers_added_witness :
  ODict.mem "?" (word_db (snd (_add_punctuation_and_numbers blank))) = true
  /\ ODict.get "7" (word_db (snd (_add_punctuation_and_numbers blank)))
     = Some (number_entry "7")
  /\ ODict.get "computer" (word_db (snd (_add_punctuation_and_numbers engine)))
     = ODict.get "computer" (word_db engine).
Proof.
  destruct (punctuation_and_numbers_added blank) as (H1 & _ & _ & H4).
  destruct (punctuation_and_numbers_added engine) as (_ & H2 & _).
  split; [| split].
  - apply H1. simpl. tauto.
  - apply H4; [simpl; tauto | reflexivity].
  - destruct (ODict.get "computer" (word_db engine)) as [e |] eqn:E.
    + now apply H2.
    + exfalso. vm_compute in E. discriminate.
Defined.

(** ** The feed as a whole *)






Lemma import_lines_skips_known_witness :
  import_lines json_loads_empty_object
    (["noun; cat; cat; cats; ; ; an animal; ; {}"]
     ++ "verb; Cat; x; y; fast; slow; something else; ; {}"
     :: ["noun; cow; cow; cows; ; ; an animal; ; {}"]) blank
  = import_lines json_loads_empty_object
      (["noun; cat; cat; cats; ; ; an animal; ; {}"]
       ++ ["noun; cow; cow; cows; ; ; an animal; ; {}"]) blank.
Proof.
  apply import_lines_skips_known.
  - vm_compute. reflexivity.
  - vm_compute. reflexivity.
  - vm_compute. reflexivity.
Defined.

(** ** The lexicon only grows *)

Lemma entry_grows_refl (e : WordEntry) : entry_grows e e.
Proof. unfold entry_grows. repeat split; auto using incl_refl. Qed.

Lemma entry_grows_trans (e1 e2 e3 : WordEntry) :
  entry_grows e1 e2 -> entry_grows e2 e3 -> entry_grows e1 e3.
Proof.
  unfold entry_grows.
  intros (A1 & A2 & A3 & A4 & A5 & A6 & A7 & A8) (B1 & B2 & B3 & B4 & B5 & B6 & B7 & B8).
  repeat split; try congruence.
  - eapply incl_tran; eassumption.
  - eapply incl_tran; eassumption.
  - intros H. rewrite B7; [now apply A7 |]. now rewrite A7.
  - intros H. rewrite B8; [now apply A8 |]. now rewrite A8.
Qed.

Lemma lexicon_grows_refl (s : LLM) : lexicon_grows s s.
Proof. intros word e H. exists e. split; [exact H | apply entry_grows_refl]. Qed.

Lemma lexicon_grows_trans (s1 s2 s3 : LLM) :
  lexicon_grows s1 s2 -> lexicon_grows s2 s3 -> lexicon_grows s1 s3.
Proof.
  intros H12 H23 word e H.
  destruct (H12 word e H) as (e2 & H2 & G2).
  destruct (H23 word e2 H2) as (e3 & H3 & G3).
  exists e3. split; [exact H3 | eapply entry_grows_trans; eassumption].
Qed.

Lemma lexicon_grows_same_db (s s' : LLM) :
  word_db s' = word_db s -> lexicon_grows s s'.
Proof.
  intros E word e H. exists e. rewrite E. split; [exact H | apply entry_grows_refl].
Qed.

(** Storing a grown entry in place of an entry. *)
Lemma lexicon_grows_replace (word : string) (e e' : WordEntry) (s : LLM) :
  ODict.get word (word_db s) = Some e -> entry_grows e e' ->
  lexicon_grows s (with_word_db (ODict.set word e' (word_db s)) s).
Proof.
  intros Hget Hgrow w e0 H. simpl. rewrite ODictFacts.get_set.
  destruct (String.eqb word w) eqn:E.
  - apply String.eqb_eq in E. subst w. exists e'. split; [reflexivity |].
    congruence.
  - exists e0. split; [exact H | apply entry_grows_refl].
Qed.

(** Storing an entry under a key that is new. *)
Lemma lexicon_grows_new (word : string) (e' : WordEntry) (s : LLM) :
  ODict.get word (word_db s) = None ->
  lexicon_grows s (with_word_db (ODict.set word e' (word_db s)) s).
Proof.
  intros Hnone w e0 H. simpl. rewrite ODictFacts.get_set.
  destruct (String.eqb word w) eqn:E.
  - apply String.eqb_eq in E. subst w. congruence.
  - exists e0. split; [exact H | apply entry_grows_refl].
Qed.

Lemma lexicon_grows_graph_blind : graph_blind lexicon_grows.
Proof. intros r s. now apply lexicon_grows_same_db. Qed.

Lemma lexicon_grows_readable : Readable lexicon_grows.
Proof.
  apply pattern_blind_readable.
  - exact lexicon_grows_refl.
  - exact lexicon_grows_trans.
  - intros p s. now apply lexicon_grows_same_db.
  - intros w. apply hoare_rel_row. exact lexicon_grows_graph_blind.
  - intros w1 w2. apply hoare_rel_read. exact lexicon_grows_graph_blind.
Qed.

Lemma lexicon_grows_rel_add (a b : string) (x : Q) :
  hoare lexicon_grows any (rel_add a b x).
Proof. apply hoare_rel_add. exact lexicon_grows_graph_blind. Qed.

Lemma lexicon_grows_update_position (word position_type : string) :
  hoare lexicon_grows any (_update_word_position_data word position_type).
Proof.
  intros s. split; [| exact I]. unfold _update_word_position_data.
  destruct (ODict.get word (word_db s)) as [e |] eqn:E;
    [| apply lexicon_grows_refl].
  destruct (bump_position (pattern_data e) position_type) as [pd |];
    [| apply lexicon_grows_refl].
  simpl. apply (lexicon_grows_replace word e); [exact E |].
  unfold entry_grows. simpl. repeat split; auto using incl_refl.
Qed.

(** The state [update_entry] leaves when the word is stored. *)
Lemma update_entry_grows (word : string) (f : WordEntry -> WordEntry)
    (e : WordEntry) (s : LLM) :
  ODict.get word (word_db s) = Some e -> entry_grows e (f e) ->
  lexicon_grows s (snd (update_entry word f s)).
Proof.
  intros Hget Hgrow. unfold update_entry, modify. simpl. rewrite Hget.
  now apply (lexicon_grows_replace word e).
Qed.

Lemma fold_left_incl {A : Type} (g : list string -> A -> list string) (l : list A)
    (acc : list string) :
  (forall acc x, incl acc (g acc x)) -> incl acc (fold_left g l acc).
Proof.
  intros Hg. revert acc. induction l as [| x l IH]; intros acc; simpl.
  - apply incl_refl.
  - eapply incl_tran; [apply Hg | apply IH].
Qed.

Lemma set_add_incl (x : string) (s : list string) : incl s (set_add x s).
Proof.
  unfold set_add. destruct (PyStr.mem x s); [apply incl_refl |].
  apply incl_appl, incl_refl.
Qed.

Lemma set_add_in (x : string) (s : list string) : In x (set_add x s).
Proof.
  unfold set_add. destruct (PyStr.mem x s) eqn:E.
  - now apply in_of_mem.
  - apply in_or_app. right. now left.
Qed.

Lemma set_of_incl (l : list string) : incl l (set_of l).
Proof.
  unfold set_of. generalize (@nil string) as acc.
  induction l as [| x l IH]; intros acc; simpl.
  - intros y Hy. contradiction.
  - intros y [-> | Hy].
    + eapply fold_left_incl; [intros; apply set_add_incl | apply set_add_in].
    + now apply IH.
Qed.

Lemma bind_gets {A B : Type} (f : LLM -> A) (k : A -> M B) (s : LLM) :
  (x <- gets f ;; k x) s = k (f s) s.
Proof. reflexivity. Qed.

(** One word of a bridging pass: its list only gets longer. *)
Lemma lexicon_grows_bridge_word (related : WordEntry -> list string)
    (store : list string -> WordEntry -> WordEntry) (delta : Q) (word : string) :
  (forall all e, incl (related e) all -> entry_grows e (store all e)) ->
  hoare lexicon_grows any (bridge_word related store delta word).
Proof.
  intros Hstore s. split; [| exact I].
  unfold bridge_word. rewrite bind_gets.
  destruct (ODict.get word (word_db s)) as [data |] eqn:E;
    [| apply lexicon_grows_refl].
  rewrite bind_gets.
  match goal with
  | |- context [if ?c then _ else _] => destruct c
  end; [apply lexicon_grows_refl |].
  rewrite snd_then.
  match goal with
  | |- lexicon_grows s (snd (_ (snd (?u s)))) =>
      apply (lexicon_grows_trans s (snd (u s)))
  end.
  - eapply update_entry_grows; [exact E |]. apply Hstore.
    eapply incl_tran; [apply set_of_incl |].
    apply fold_left_incl. intros acc linked.
    destruct (ODict.get linked (word_db s)); [| apply incl_refl].
    apply fold_left_incl. intros acc' sub.
    destruct (negb (String.eqb sub word) && negb (PyStr.mem sub acc'));
      [apply incl_appl |]; apply incl_refl.
  - apply (hoare_state lexicon_grows any).
    pose proof lexicon_grows_readable as HR.
    pose proof lexicon_grows_rel_add as Hadd.
    readable.
Qed.

Lemma lexicon_grows_bridge_synonyms : hoare lexicon_grows any _bridge_synonyms.
Proof.
  unfold _bridge_synonyms. pose proof lexicon_grows_readable as HR. readable.
  apply lexicon_grows_bridge_word. intros all e Hall.
  unfold entry_grows. simpl. repeat split; auto using incl_refl.
Qed.

Lemma lexicon_grows_bridge_antonyms : hoare lexicon_grows any _bridge_antonyms.
Proof.
  unfold _bridge_antonyms. pose proof lexicon_grows_readable as HR. readable.
  apply lexicon_grows_bridge_word. intros all e Hall.
  unfold entry_grows. simpl. repeat split; auto using incl_refl.
Qed.

Lemma lexicon_grows_bridge_experts : hoare lexicon_grows any _bridge_experts.
Proof.
  unfold _bridge_experts. pose proof lexicon_grows_readable as HR.
  eapply hoare_bind with (V1 := any); [apply rd_trans; assumption | readable |].
  intros db _. apply hoare_for_each;
    [exact lexicon_grows_refl | exact lexicon_grows_trans |].
  intros word _ s. split; [| exact I].
  rewrite bind_gets.
  destruct (ODict.get word (word_db s)) as [data |] eqn:E;
    [| apply lexicon_grows_refl].
  rewrite bind_gets.
  destruct (String.eqb (expert_field data) "general") eqn:Egeneral;
    [| rewrite andb_false_r; apply lexicon_grows_refl].
  destruct (negb (String.eqb (_deduce_expert_field s data) "general"));
    [| apply lexicon_grows_refl].
  eapply update_entry_grows; [exact E |].
  apply String.eqb_eq in Egeneral.
  unfold entry_grows. simpl. repeat split; auto using incl_refl.
  intros H. congruence.
Qed.

Lemma same_lexicon_readable : Readable same_lexicon.
Proof.
  apply pattern_blind_readable.
  - exact same_lexicon_refl.
  - exact same_lexicon_trans.
  - exact same_lexicon_patterns.
  - intros w. apply hoare_rel_row. exact graph_blind_same_lexicon.
  - intros w1 w2. apply hoare_rel_read. exact graph_blind_same_lexicon.
Qed.

Lemma infer_word_class_same_lexicon (word : string) :
  hoare same_lexicon any (_infer_word_class_from_patterns word).
Proof.
  unfold _infer_word_class_from_patterns.
  pose proof same_lexicon_readable as HR. readable.
Qed.

Lemma lexicon_grows_infer_unknown :
  hoare lexicon_grows any _infer_unknown_word_classes.
Proof.
  unfold _infer_unknown_word_classes. pose proof lexicon_grows_readable as HR.
  eapply hoare_bind with (V1 := any); [apply rd_trans; assumption | readable |].
  intros db _. apply hoare_for_each;
    [exact lexicon_grows_refl | exact lexicon_grows_trans |].
  intros word _ s. split; [| exact I].
  rewrite bind_gets.
  destruct (ODict.get word (word_db s)) as [data |] eqn:E;
    [| apply lexicon_grows_refl].
  destruct (String.eqb (wclass data) "unknown") eqn:Eunknown;
    [| apply lexicon_grows_refl].
  destruct (infer_word_class_same_lexicon word s) as [(Hdb & _) _].
  unfold bind.
  destruct (_infer_word_class_from_patterns word s) as [inferred s1].
  cbn [snd] in Hdb.
  destruct (negb (String.eqb inferred "unknown")).
  - eapply lexicon_grows_trans.
    + apply lexicon_grows_same_db. exact Hdb.
    + eapply update_entry_grows; [rewrite Hdb; exact E |].
      apply String.eqb_eq in Eunknown.
      unfold entry_grows. simpl. repeat split; auto using incl_refl.
      intros H. congruence.
  - apply lexicon_grows_same_db. exact Hdb.
Qed.

Lemma parse_line_stored_new (json_loads : string -> option Json) (s : LLM)
    (line word : string) (entry : WordEntry) :
  parse_line json_loads s line = Stored word entry ->
  word = record_key line /\ ODict.get word (word_db s) = None.
Proof.
  unfold parse_line.
  destruct (PyStr.is_empty (PyStr.strip line) || PyStr.startswith "#" line);
    [discriminate |].
  destruct (length (record_parts line) <? 2)%nat; [discriminate |].
  unfold ODict.mem.
  destruct (ODict.get (record_key line) (word_db s)) eqn:E; [discriminate |].
  match goal with
  | |- match ?loaded with _ => _ end = _ -> _ => destruct loaded
  end; [| discriminate].
  intros H. injection H as <- _. now split.
Qed.

Lemma lexicon_grows_import_line (json_loads : string -> option Json)
    (line : string) :
  hoare lexicon_grows any (import_line json_loads line).
Proof.
  intros s. split; [| exact I]. unfold import_line. rewrite bind_gets.
  destruct (parse_line json_loads s line) as [| word entry |] eqn:P;
    [apply lexicon_grows_refl | | apply lexicon_grows_refl].
  apply parse_line_stored_new in P as [_ Hnew].
  rewrite snd_then. unfold ret at 1. cbn [snd].
  unfold import_record. rewrite snd_then.
  match goal with
  | |- lexicon_grows s (snd (_ (snd (?u s)))) =>
      apply (lexicon_grows_trans s (snd (u s)))
  end.
  - unfold modify. cbn [snd]. now apply lexicon_grows_new.
  - apply (hoare_state lexicon_grows any).
    pose proof lexicon_grows_readable as HR.
    pose proof lexicon_grows_rel_add as Hadd.
    unfold _build_relationships, _check_partial_matches. readable.
Qed.

Lemma lexicon_grows_import_lines (json_loads : string -> option Json)
    (lines : list string) :
  hoare lexicon_grows any (import_lines json_loads lines).
Proof.
  pose proof lexicon_grows_readable as HR.
  induction lines as [| line lines IH]; simpl.
  - readable.
  - eapply hoare_bind with (V1 := any);
      [apply rd_trans; assumption | apply lexicon_grows_import_line |].
    intros ok _. destruct ok; [apply IH | readable].
Qed.

Lemma lexicon_grows_add_punctuation :
  hoare lexicon_grows any _add_punctuation_and_numbers.
Proof.
  assert (H : forall make key, hoare lexicon_grows any (add_if_missing make key)).
  { intros make key. apply hoare_modify. intros s. unfold ODict.mem.
    destruct (ODict.get key (word_db s)) eqn:E;
      [apply lexicon_grows_refl | now apply lexicon_grows_new]. }
  pose proof lexicon_grows_readable as HR.
  unfold _add_punctuation_and_numbers. readable; apply H.
Qed.

Lemma lexicon_grows_import_dictionary (json_loads : string -> option Json)
    (lines : list string) :
  hoare lexicon_grows any (import_dictionary json_loads lines).
Proof.
  pose proof lexicon_grows_readable as HR.
  unfold import_dictionary.
  eapply hoare_bind with (V1 := any);
    [apply rd_trans; assumption | apply lexicon_grows_import_lines |].
  intros ok _. destruct ok; [| readable].
  eapply hoare_bind with (V1 := any);
    [apply rd_trans; assumption | apply lexicon_grows_add_punctuation |].
  intros _ _.
  eapply hoare_bind with (V1 := any); [apply rd_trans; assumption | readable |].
  intros training _. destruct training; [| readable].
  eapply hoare_bind with (V1 := any);
    [apply rd_trans; assumption | apply lexicon_grows_bridge_synonyms |].
  intros _ _.
  eapply hoare_bind with (V1 := any);
    [apply rd_trans; assumption | apply lexicon_grows_bridge_antonyms |].
  intros _ _.
  eapply hoare_bind with (V1 := any);
    [apply rd_trans; assumption | apply lexicon_grows_bridge_experts |].
  intros _ _. apply lexicon_grows_infer_unknown.
Qed.

Lemma handle_word_limits_lexicon (user_input : string) (s : LLM) :
  word_db (snd (handle_word_limits user_input s)) = word_db s.
Proof.
  unfold handle_word_limits, bind, assign_min_words, assign_max_words, modify, ret.
  destruct (search_flag "--min" user_input);
    destruct (search_flag "--max" user_input); reflexivity.
Qed.

Lemma run_lexicon_grows (json_loads : string -> option Json) (op : Operation)
    (s : LLM) :
  lexicon_grows s (run json_loads op s).
Proof.
  destruct op; simpl.
  - apply (hoare_state lexicon_grows any). apply readable_analyze_patterns.
    + exact lexicon_grows_readable.
    + exact lexicon_grows_update_position.
  - apply (hoare_state lexicon_grows any).
    apply readable_predict_next. exact lexicon_grows_readable.
  - apply (hoare_state lexicon_grows any).
    apply readable_enhanced_predict_next.
    + exact lexicon_grows_readable.
    + intros f s0. now apply lexicon_grows_same_db.
    + intros e s0. now apply lexicon_grows_same_db.
  - apply (hoare_state lexicon_grows any).
    apply readable_generate_sentence. exact lexicon_grows_readable.
  - apply lexicon_grows_same_db. apply handle_word_limits_lexicon.
  - now apply lexicon_grows_same_db.
  - apply (hoare_state lexicon_grows any). apply lexicon_grows_import_dictionary.
Qed.

(** No operation of a session removes a word from the lexicon or rewrites
    what was imported for it: after any sequence of operations the word is
    still stored, with the same singular, plural, meaning and acronyms, with
    every synonym and antonym it had, with its class unless that was
    ["unknown"], and with its expert field unless that was ["general"]. *)
Theorem lexicon_only_grows (json_loads : string -> option Json)
    (ops : list Operation) (s : LLM) (word : string) (e : WordEntry) :
  ODict.get word (word_db s) = Some e ->
  exists e',
    ODict.get word (word_db (session json_loads ops s)) = Some e'
    /\ entry_grows e e'.
Proof.
  revert word e. change (lexicon_grows s (session json_loads ops s)).
  unfold session. revert s. induction ops as [| op ops IH]; intros s; simpl.
  - apply lexicon_grows_refl.
  - eapply lexicon_grows_trans; [apply run_lexicon_grows | apply IH].
Qed.

Lemma lexicon_only_grows_witness :
  let ops :=
    [SetMode "formal" "training" default_word_lists default_grammar
             default_expert_fields;
     ImportDictionary
       ["noun; laptop; laptop; laptops; computer; ; portable computer; ; {}"];
     Analyze "the computer data"] in
  exists e e',
    ODict.get "computer" (word_db engine) = Some e
    /\ ODict.get "computer" (word_db (session json_loads_empty_object ops engine))
       = Some e'
    /\ entry_grows e e'.
Proof.
  cbv zeta.
  destruct (ODict.get "computer" (word_db engine)) as [e |] eqn:E.
  - destruct (lexicon_only_grows json_loads_empty_object
                [SetMode "formal" "training" default_word_lists default_grammar
                         default_expert_fields;
                 ImportDictionary
                   ["noun; laptop; laptop; laptops; computer; ; portable computer; ; {}"];
                 Analyze "the computer data"]
                engine "computer" e E) as (e' & H' & Hgrow).
    exists e, e'. split; [reflexivity | split; assumption].
  - exfalso. vm_compute in E. discriminate.
Defined.

(** ** The candidates of the complex mode *)

Lemma in_keys_set {V : Type} (k key : string) (v : V) (d : odict V) :
  In k (ODict.keys (ODict.set key v d)) -> k = key \/ In k (ODict.keys d).
Proof.
  unfold ODict.keys. induction d as [| [k0 v0] d IH]; simpl.
  - intros [H | []]. now left.
  - destruct (String.eqb key k0) eqn:E; simpl.
    + intros H. now right.
    + intros [H | H]; [right; now left |].
      destruct (IH H) as [H' | H']; [now left | right; now right].
Qed.

Lemma mem_of_in_keys {V : Type} (k : string) (d : odict V) :
  In k (ODict.keys d) -> ODict.mem k d = true.
Proof.
  unfold ODict.keys, ODict.mem. induction d as [| [k0 v0] d IH]; simpl.
  - contradiction.
  - intros [-> | H].
    + now rewrite String.eqb_refl.
    + destruct (String.eqb k k0); [reflexivity | now apply IH].
Qed.

Lemma complex_scores_keys (last_word : string) (words candidates : list string)
    (scores : odict Q) (s : LLM) (k : string) :
  In k (ODict.keys (fst (complex_scores last_word words candidates scores s))) ->
  In k (ODict.keys scores) \/ (In k candidates /\ k <> last_word).
Proof.
  revert scores s. induction candidates as [| c candidates IH]; intros scores s; simpl.
  - intros H. now left.
  - destruct (String.eqb c last_word) eqn:E.
    + intros H. destruct (IH _ _ H) as [H' | [H' Hne]]; [now left |].
      right. split; [now right | exact Hne].
    + unfold bind. destruct (complex_score last_word c words s) as [total s1].
      intros H. destruct (IH _ _ H) as [H' | [H' Hne]].
      * destruct (Qltb 0 total); [| now left].
        apply in_keys_set in H' as [-> | H']; [| now left].
        right. split; [now left | now apply String.eqb_neq].
      * right. split; [now right | exact Hne].
Qed.

Lemma top_predictions_words (scores : odict Q) (p : Prediction) :
  In p (_get_top_predictions scores) -> In (fst p) (ODict.keys scores).
Proof.
  unfold _get_top_predictions. intros H. apply in_firstn in H.
  apply (proj1 (in_sorted_desc _ _)) in H. apply filter_In in H as [H _].
  unfold ODict.keys. now apply in_map.
Qed.

(** In complex mode every predicted word is a key of the lexicon and
    differs from the last word of the input: the mode never proposes the word
    it continues, nor a word it has no entry for. *)
Theorem complex_predicts_other_lexicon_words (words : list string) (s : LLM)
    (p : Prediction) :
  In p (fst (_complex_relationship_prediction words s)) ->
  ODict.mem (fst p) (word_db s) = true /\ fst p <> last words "".
Proof.
  unfold _complex_relationship_prediction. rewrite bind_gets. unfold bind.
  pose proof (complex_scores_keys (last words "") words (ODict.keys (word_db s))
                [] s (fst p)) as Hkeys.
  destruct (complex_scores (last words "") words (ODict.keys (word_db s)) [] s)
    as [scores s1].
  unfold ret. cbn [fst] in *. intros H. apply top_predictions_words in H.
  destruct (Hkeys H) as [[] | [Hin Hne]].
  split; [now apply mem_of_in_keys | exact Hne].
Qed.

Lemma complex_predicts_other_lexicon_words_witness :
  ODict.mem "compute" (word_db engine) = true /\ "compute" <> "computer".
Proof.
  apply (complex_predicts_other_lexicon_words ["the"; "computer"] engine
           ("compute", 0.219000000000000%Q)).
  vm_compute. tauto.
Defined.

(** ** The enhancement layers *)

Lemma insert_desc_perm (x : Prediction) (l : list Prediction) :
  Permutation (insert_desc x l) (x :: l).
Proof.
  induction l as [| y l IH]; simpl; [reflexivity |].
  destruct (Qltb (snd x) (snd y)); [| reflexivity].
  rewrite IH. apply perm_swap.
Qed.

Lemma sorted_desc_perm (l : list Prediction) : Permutation (sorted_desc l) l.
Proof.
  induction l as [| x l IH]; simpl; [reflexivity |].
  rewrite insert_desc_perm. now apply perm_skip.
Qed.

Lemma rescale_words (scale : Prediction -> Q) (l : list Prediction) :
  Permutation (map fst (rescale scale l)) (map fst l).
Proof.
  unfold rescale. rewrite sorted_desc_perm. rewrite map_map. simpl.
  reflexivity.
Qed.

Lemma rescale_descending (scale : Prediction -> Q) (l : list Prediction) :
  descending (rescale scale l).
Proof. apply sorted_desc_descending. Qed.

Lemma keeps_ranking_refl (l : list Prediction) : keeps_ranking l l.
Proof. split; [reflexivity | auto]. Qed.

Lemma keeps_ranking_trans (l1 l2 l3 : list Prediction) :
  keeps_ranking l1 l2 -> keeps_ranking l2 l3 -> keeps_ranking l1 l3.
Proof.
  intros [P1 D1] [P2 D2]. split; [| auto].
  etransitivity; eassumption.
Qed.

Lemma keeps_ranking_rescale (scale : Prediction -> Q) (l : list Prediction) :
  keeps_ranking l (rescale scale l).
Proof. split; [apply rescale_words | intros _; apply rescale_descending]. Qed.

Lemma contextual_keeps_ranking (self : LLM) (text : string) (l : list Prediction) :
  keeps_ranking l (get_contextual_predictions self text l).
Proof.
  unfold get_contextual_predictions.
  destruct (PyStr.is_empty (main_topic (_deduce_context self text)));
    [apply keeps_ranking_refl | apply keeps_ranking_rescale].
Qed.

Lemma tone_keeps_ranking (self : LLM) (l : list Prediction) :
  keeps_ranking l (adapt_to_tone self l).
Proof.
  unfold adapt_to_tone.
  destruct (String.eqb (current_tone (enhancements self)) "neutral");
    [apply keeps_ranking_refl | apply keeps_ranking_rescale].
Qed.

Lemma domain_keeps_ranking (self : LLM) (l l' : list Prediction) :
  get_domain_enhanced_predictions self l = Some l' -> keeps_ranking l l'.
Proof.
  unfold get_domain_enhanced_predictions.
  destruct (String.eqb (current_domain (enhancements self)) "general").
  - intros H. injection H as <-. apply keeps_ranking_refl.
  - destruct (ODict.get (current_domain (enhancements self))
                        (specialists (enhancements self))); [| discriminate].
    intros H. injection H as <-. apply keeps_ranking_rescale.
Qed.

Lemma creative_keeps_ranking (self : LLM) (l : list Prediction) :
  keeps_ranking l (get_creative_predictions self l).
Proof.
  unfold get_creative_predictions.
  destruct (Qltb (creativity_level (enhancements self)) 0.1);
    [apply keeps_ranking_refl | apply keeps_ranking_rescale].
Qed.

Lemma personalized_keeps_ranking (l : list Prediction) (s : LLM) :
  keeps_ranking l (fst (get_personalized_predictions l s)).
Proof.
  unfold get_personalized_predictions.
  destruct (ODict.read default_profile "default" (user_profiles (enhancements s)))
    as [dflt profiles].
  destruct (preferred_words
              (ODict.get_or dflt (current_user (enhancements s)) profiles));
    [apply keeps_ranking_refl | apply keeps_ranking_rescale].
Qed.

Lemma argmax_from_in (best : string * Q) (l : list (string * Q)) :
  In (argmax_from best l) (best :: l).
Proof.
  revert best. induction l as [| x l IH]; intros best; simpl.
  - now left.
  - destruct (IH (if Qltb (snd best) (snd x) then x else best)) as [H | H].
    + rewrite <- H. destruct (Qltb (snd best) (snd x)); [right; now left | now left].
    + right. now right.
Qed.

Lemma argmax_in (l : list (string * Q)) (best : string * Q) :
  argmax l = Some best -> In best l.
Proof.
  destruct l as [| x l]; [discriminate |]. simpl. intros H. injection H as <-.
  apply argmax_from_in.
Qed.

Lemma domain_scores_keys (words : list string) (l : odict Specialist)
    (acc : odict Q) (k : string) :
  In k (ODict.keys
          (fold_left
             (fun scores '(domain, data) =>
                let overlap := filter (fun w => PyStr.mem w (vocabulary data)) words in
                ODict.set domain (Qnat (length overlap) * specialist_weight data)%Q scores)
             l acc)) ->
  In k (ODict.keys acc) \/ In k (ODict.keys l).
Proof.
  revert acc. induction l as [| [domain data] l IH]; intros acc; simpl.
  - intros H. now left.
  - intros H. destruct (IH _ H) as [H' | H'].
    + apply in_keys_set in H' as [-> | H']; [right; now left | now left].
    + right. now right.
Qed.

(** The look-up of line 1020 cannot fail after [detect_domain]: the domain
    it selects is ['general'] or a key of the specialists. *)
Lemma domain_is_known (text : string) (s : LLM) (l : list Prediction) :
  exists l', get_domain_enhanced_predictions (snd (detect_domain text s)) l = Some l'.
Proof.
  unfold detect_domain, get_domain_enhanced_predictions. cbn [snd].
  cbn [enhancements with_enhancements current_domain with_current_domain specialists].
  match goal with
  | |- context [argmax ?scores] => destruct (argmax scores) as [best |] eqn:E
  end.
  - destruct (String.eqb (fst best) "general"); [eexists; reflexivity |].
    apply argmax_in in E.
    assert (Hkey : In (fst best) (ODict.keys (specialists (enhancements s)))).
    { apply (in_map fst) in E.
      destruct (domain_scores_keys _ _ _ _ E) as [[] | H]. exact H. }
    apply mem_of_in_keys in Hkey. unfold ODict.mem in Hkey.
    destruct (ODict.get (fst best) (specialists (enhancements s)));
      [eexists; reflexivity | discriminate].
  - rewrite String.eqb_refl. eexists. reflexivity.
Qed.

Lemma space_is_no_word_char (c : ascii) :
  PyStr.is_space c = true -> PyStr.is_word_char (PyStr.lower_char c) = false.
Proof.
  destruct c as [[] [] [] [] [] [] [] []]; vm_compute; congruence.
Qed.

Lemma rstrip_empty (r : string) :
  PyStr.is_empty (PyStr.rstrip r) = true -> whitespace_only r = true.
Proof.
  destruct r as [| c r]; [reflexivity |].
  change (PyStr.rstrip (String c r))
    with (if PyStr.is_empty (PyStr.lstrip (String c r))
          then EmptyString else String c (PyStr.rstrip r)).
  destruct (PyStr.is_empty (PyStr.lstrip (String c r))) eqn:E; [| discriminate].
  intros _. now rewrite <- lstrip_empty.
Qed.

Lemma lstrip_lstrip (text : string) :
  PyStr.lstrip (PyStr.lstrip text) = PyStr.lstrip text.
Proof.
  induction text as [text IH] using string_length_ind.
  destruct text as [| a s1]; [reflexivity |].
  rewrite (lstrip_eq a s1).
  destruct (PyStr.is_space a) eqn:Ea; [apply IH; simpl; lia |].
  destruct s1 as [| b s2]; [rewrite lstrip_eq, Ea; reflexivity |].
  destruct (PyStr.is_space2 a b) eqn:Eb; [apply IH; simpl; lia |].
  destruct s2 as [| c s3]; [rewrite lstrip_eq, Ea, Eb; reflexivity |].
  destruct (PyStr.is_space3 a b c) eqn:Ec; [apply IH; simpl; lia |].
  rewrite lstrip_eq, Ea, Eb, Ec. reflexivity.
Qed.

Lemma lstrip_whitespace (text : string) :
  whitespace_only (PyStr.lstrip text) = true -> whitespace_only text = true.
Proof.
  now rewrite <- !lstrip_empty, lstrip_lstrip.
Qed.

Lemma high_is_no_word_char (c : ascii) :
  (128 <=? PyStr.code c)%nat = true ->
  PyStr.is_word_char (PyStr.lower_char c) = false.
Proof.
  destruct c as [[] [] [] [] [] [] [] []]; vm_compute; congruence.
Qed.

Lemma space2_is_high (a b : ascii) :
  PyStr.is_space2 a b = true ->
  (128 <=? PyStr.code a)%nat = true /\ (128 <=? PyStr.code b)%nat = true.
Proof.
  unfold PyStr.is_space2. intros H.
  rewrite !andb_true_iff, !orb_true_iff, !Nat.eqb_eq in H.
  rewrite !Nat.leb_le. lia.
Qed.

Lemma space3_is_high (a b c : ascii) :
  PyStr.is_space3 a b c = true ->
  (128 <=? PyStr.code a)%nat = true /\ (128 <=? PyStr.code b)%nat = true
  /\ (128 <=? PyStr.code c)%nat = true.
Proof.
  unfold PyStr.is_space3, PyStr.between. intros H.
  repeat (first [rewrite orb_true_iff in H | rewrite andb_true_iff in H]).
  rewrite ?Nat.eqb_eq, ?Nat.leb_le in H.
  rewrite !Nat.leb_le. lia.
Qed.

(** A character that is no word character ends a token and starts none. *)
Lemma scan_no_word (c : ascii) (s : string) :
  PyStr.is_word_char c = false ->
  PyStr.scan false EmptyString (String c s) = PyStr.scan false EmptyString s.
Proof. intros H. cbn [PyStr.scan]. now rewrite H. Qed.

Lemma strip_empty_whitespace (text : string) :
  PyStr.is_empty (PyStr.strip text) = true -> whitespace_only text = true.
Proof.
  intros H. apply lstrip_whitespace. now apply rstrip_empty.
Qed.

Lemma whitespace_has_no_words (text : string) :
  whitespace_only text = true -> text_words text = [].
Proof.
  unfold text_words, PyStr.findall_words, PyStr.lower. intros H.
  replace (PyStr.scan false EmptyString (PyStr.map_chars PyStr.lower_char text))
    with (@nil string); [reflexivity |].
  symmetry. revert H.
  induction text as [text IH] using string_length_ind.
  destruct text as [| a s1]; [reflexivity |].
  rewrite whitespace_only_eq. cbn [PyStr.map_chars].
  destruct (PyStr.is_space a) eqn:Ea.
  - intros H. rewrite scan_no_word by now apply space_is_no_word_char.
    apply IH; [simpl; lia | exact H].
  - destruct s1 as [| b s2]; [discriminate |]. cbn [PyStr.map_chars].
    destruct (PyStr.is_space2 a b) eqn:Eb.
    + intros H. destruct (space2_is_high a b Eb) as [Ha Hb].
      rewrite !scan_no_word by now apply high_is_no_word_char.
      apply IH; [simpl; lia | exact H].
    + destruct s2 as [| c s3]; [discriminate |]. cbn [PyStr.map_chars].
      intros H. apply andb_prop in H as [Ec H].
      destruct (space3_is_high a b c Ec) as (Ha & Hb & Hc).
      rewrite !scan_no_word by now apply high_is_no_word_char.
      apply IH; [simpl; lia | exact H].
Qed.

Lemma bind_eq {A B : Type} (m : M A) (k : A -> M B) (s s1 : LLM) (a : A) :
  m s = (a, s1) -> bind m k s = k a s1.
Proof. intros H. unfold bind. now rewrite H. Qed.

Lemma predict_next_pair_is_top (text mode : string) (s : LLM)
    (base : list Prediction) (ratio : Q) :
  fst (predict_next text mode s) = Pair base ratio ->
  exists scores, base = _get_top_predictions scores.
Proof.
  unfold predict_next. destruct (text_words text) as [| w words]; [discriminate |].
  rewrite bind_gets. unfold bind.
  assert (Htop : exists scores,
             fst ((if String.eqb mode "simple"
                   then _simple_relationship_prediction (w :: words)
                   else _complex_relationship_prediction (w :: words)) s)
             = _get_top_predictions scores).
  { destruct (String.eqb mode "simple");
      [apply simple_prediction_is_top | apply complex_prediction_is_top]. }
  destruct Htop as [scores Htop].
  destruct ((if String.eqb mode "simple"
             then _simple_relationship_prediction (w :: words)
             else _complex_relationship_prediction (w :: words)) s) as [l s1].
  unfold ret. cbn [fst] in *. intros H. injection H as <- _.
  now exists scores.
Qed.

Lemma predict_next_empty_list (text mode : string) (s : LLM) :
  fst (predict_next text mode s) = EmptyList -> text_words text = [].
Proof.
  unfold predict_next. destruct (text_words text) as [| w words]; [reflexivity |].
  rewrite bind_gets. unfold bind.
  destruct ((if String.eqb mode "simple"
             then _simple_relationship_prediction (w :: words)
             else _complex_relationship_prediction (w :: words)) s) as [l s1].
  discriminate.
Qed.

(** The three ways [enhanced_predict_next] ends. *)
Lemma enhanced_predict_next_cases (text mode : string) (s : LLM) :
  (PyStr.is_empty (PyStr.strip text) = true
   /\ fst (enhanced_predict_next text mode s) = Returned ([], 100%Q))
  \/ (PyStr.is_empty (PyStr.strip text) = false
      /\ fst (predict_next text mode (with_flags cleared s)) = EmptyList
      /\ fst (enhanced_predict_next text mode s) = RaisedError "ValueError")
  \/ (exists base ratio enhanced,
        PyStr.is_empty (PyStr.strip text) = false
        /\ fst (predict_next text mode (with_flags cleared s)) = Pair base ratio
        /\ fst (enhanced_predict_next text mode s) = Returned (enhanced, ratio)
        /\ keeps_ranking base enhanced).
Proof.
  unfold enhanced_predict_next.
  change ((modify (with_flags (mkFlags false false false false)) ;;;
           ?k) s) with (k (with_flags cleared s)).
  set (s0 := with_flags cleared s).
  destruct (PyStr.is_empty (PyStr.strip text)) eqn:B; [left; now split |].
  right.
  destruct (predict_next text mode s0) as [base s1] eqn:Epredict.
  rewrite (bind_eq _ _ _ _ _ Epredict). cbn [fst].
  destruct base as [| base ratio];
    [left; split; [reflexivity | split; reflexivity] |].
  right. exists base, ratio.
  destruct base as [| p base].
  { exists []. split; [reflexivity | split; [reflexivity | split; [reflexivity |]]].
    apply keeps_ranking_refl. }
  rewrite bind_gets.
  destruct (detect_emotional_tone text s1) as [tone s2] eqn:Etone.
  rewrite (bind_eq _ _ _ _ _ Etone). rewrite bind_gets.
  pose proof (domain_is_known text s2
                (adapt_to_tone s2 (get_contextual_predictions s1 text (p :: base))))
    as [e3 Hdomain].
  destruct (detect_domain text s2) as [domain s3] eqn:Edomain.
  rewrite (bind_eq _ _ _ _ _ Edomain). rewrite bind_gets.
  cbn [snd] in Hdomain. rewrite Hdomain. rewrite bind_gets.
  pose proof (personalized_keeps_ranking (get_creative_predictions s3 e3) s3)
    as Hpersonal.
  destruct (get_personalized_predictions (get_creative_predictions s3 e3) s3)
    as [e5 s4] eqn:Epersonal.
  rewrite (bind_eq _ _ _ _ _ Epersonal). cbn [fst] in *.
  exists e5. split; [reflexivity | split; [reflexivity | split; [reflexivity |]]].
  eapply keeps_ranking_trans; [apply contextual_keeps_ranking |].
  eapply keeps_ranking_trans; [apply tone_keeps_ranking |].
  eapply keeps_ranking_trans; [apply (domain_keeps_ranking _ _ _ Hdomain) |].
  eapply keeps_ranking_trans; [apply creative_keeps_ranking |].
  exact Hpersonal.
Qed.

(** When [predict_next] returns a ranked list, [enhanced_predict_next]
    returns a list of the same words, none added and none dropped, in
    descending order of the rescaled scores, with the known-word ratio of
    [predict_next]. *)
Theorem enhancement_keeps_the_candidates (text mode : string) (s : LLM)
    (base : list Prediction) (ratio : Q) :
  fst (predict_next text mode (with_flags cleared s)) = Pair base ratio ->
  exists enhanced,
    fst (enhanced_predict_next text mode s) = Returned (enhanced, ratio)
    /\ Permutation (map fst enhanced) (map fst base)
    /\ descending enhanced.
Proof.
  intros Hbase.
  destruct (enhanced_predict_next_cases text mode s)
    as [[B _] | [(_ & E & _) | (base' & ratio' & enhanced & _ & E & H & K)]].
  - apply strip_empty_whitespace, whitespace_has_no_words in B.
    rewrite (predict_next_no_tokens _ text mode B) in Hbase. discriminate.
  - rewrite E in Hbase. discriminate.
  - rewrite E in Hbase. injection Hbase as -> ->.
    exists enhanced. destruct K as [Kperm Kdesc].
    split; [exact H | split; [exact Kperm |]].
    apply Kdesc.
    destruct (predict_next_pair_is_top _ _ _ _ _ E) as [scores ->].
    apply top_predictions_ranked.
Qed.

Lemma enhancement_keeps_the_candidates_witness :
  exists base ratio enhanced,
    fst (predict_next "the computer" "complex" (with_flags cleared engine))
    = Pair base ratio
    /\ fst (enhanced_predict_next "the computer" "complex" engine)
       = Returned (enhanced, ratio)
    /\ Permutation (map fst enhanced) (map fst base)
    /\ descending enhanced.
Proof.
  destruct (fst (predict_next "the computer" "complex" (with_flags cleared engine)))
    as [| base ratio] eqn:E.
  - exfalso. vm_compute in E. discriminate.
  - destruct (enhancement_keeps_the_candidates "the computer" "complex" engine
                base ratio E) as (enhanced & H1 & H2 & H3).
    exists base, ratio, enhanced. split; [reflexivity | split; [exact H1 |]].
    split; assumption.
Defined.

(** On an ASCII text, whose tokens are those of [text_words],
    [enhanced_predict_next] raises in one case only: the text is not blank
    and has no word token, and then the error is the [ValueError] of the
    unpacking on line 702.  The look-up of line 1020 never raises. *)
Theorem enhanced_predict_next_raises_iff (text mode : string) (s : LLM)
    (kind : string) :
  PyStr.is_ascii text = true ->
  (fst (enhanced_predict_next text mode s) = RaisedError kind
   <-> kind = "ValueError"
       /\ PyStr.is_empty (PyStr.strip text) = false
       /\ text_words text = []).
Proof.
  intros _. destruct (enhanced_predict_next_cases text mode s)
    as [[B H] | [(B & E & H) | (base & ratio & enhanced & B & E & H & _)]];
    rewrite H; split.
  - discriminate.
  - intros (_ & B' & _). congruence.
  - intros Hk. injection Hk as <-.
    split; [reflexivity | split; [exact B |]].
    now apply predict_next_empty_list in E.
  - intros (-> & _). reflexivity.
  - discriminate.
  - intros (_ & _ & Hnone).
    rewrite (predict_next_no_tokens _ text mode Hnone) in E. discriminate.
Qed.

Lemma enhanced_predict_next_raises_iff_witness :
  fst (enhanced_predict_next "_ ... _" "simple" engine) = RaisedError "ValueError".
Proof.
  apply (proj2 (enhanced_predict_next_raises_iff "_ ... _" "simple" engine
                  "ValueError" eq_refl)).
  split; [reflexivity | split; vm_compute; reflexivity].
Defined.

(** ** The words of a generated sentence *)

Lemma not_in_of_mem (x : string) (l : list string) :
  PyStr.mem x l = false -> ~ In x l.
Proof. intros H Hin. apply mem_of_in in Hin. congruence. Qed.

Lemma extends_input_start (input_words : list string) (predictions : list Prediction) :
  extends_input input_words predictions input_words.
Proof.
  exists []. split; [now rewrite app_nil_r | split; [constructor | contradiction]].
Qed.

Lemma extends_input_append (input_words : list string) (predictions : list Prediction)
    (g : list string) (w : string) :
  extends_input input_words predictions g ->
  In w (map fst predictions) -> ~ In w g ->
  extends_input input_words predictions (g ++ [w]).
Proof.
  intros (added & -> & Hnodup & Hadded) Hw Hnew.
  exists (added ++ [w]). split; [now rewrite app_assoc |]. split.
  - apply NoDup_app; [exact Hnodup | repeat constructor; auto |].
    intros x Hx Hx'. destruct Hx' as [<- | []]. apply Hnew.
    apply in_or_app. now right.
  - intros x Hx. apply in_app_or in Hx as [Hx | [<- | []]]; [now apply Hadded |].
    split; [exact Hw |]. intros Hin. apply Hnew. apply in_or_app. now left.
Qed.

Lemma best_word_candidates_sound (target_class : string)
    (existing_words : list string) (predictions l candidates : list Prediction) :
  incl l predictions ->
  (forall p, In p candidates ->
             In (fst p) (map fst predictions) /\ ~ In (fst p) existing_words) ->
  hoare same_lexicon
    (fun result => forall p, In p result ->
                   In (fst p) (map fst predictions) /\ ~ In (fst p) existing_words)
    (best_word_candidates target_class existing_words l candidates).
Proof.
  pose proof same_lexicon_readable as HR.
  revert candidates. induction l as [| [word score] l IH]; intros candidates Hl Hc; simpl.
  - apply hoare_ret; [apply rd_refl; assumption | exact Hc].
  - eapply hoare_bind with
      (V1 := fun eligible => eligible = true -> PyStr.mem word existing_words = false);
      [apply rd_trans; assumption | |].
    + apply hoare_gets; [apply rd_refl; assumption |].
      intros s H. unfold eligible_word in H.
      apply andb_prop in H as [H _]. apply andb_prop in H as [_ H].
      now apply negb_true_iff in H.
    + intros eligible Heligible.
      assert (Hl' : incl l predictions)
        by (intros x Hx; apply Hl; now right).
      destruct eligible; [| now apply IH].
      eapply hoare_bind with (V1 := any); [apply rd_trans; assumption | readable |].
      intros pattern_score _. apply IH; [exact Hl' |].
      intros p Hp. apply in_app_or in Hp as [Hp | [<- | []]]; [now apply Hc |].
      simpl. split.
      * apply (in_map fst) with (x := (word, score)). apply Hl. now left.
      * apply not_in_of_mem. now apply Heligible.
Qed.

(** The word [_find_best_word_for_class] returns, if any, is the word of a
    prediction and is not yet in the sentence. *)
Lemma find_best_word_sound (predictions : list Prediction) (target_class : string)
    (existing_words : list string) :
  hoare same_lexicon
    (fun best => forall w, best = Some w ->
                 In w (map fst predictions) /\ ~ In w existing_words)
    (_find_best_word_for_class predictions target_class existing_words).
Proof.
  pose proof same_lexicon_readable as HR.
  unfold _find_best_word_for_class.
  eapply hoare_bind; [apply rd_trans; assumption | |].
  - apply best_word_candidates_sound; [apply incl_refl | contradiction].
  - intros candidates Hc. apply hoare_ret; [apply rd_refl; assumption |].
    intros w Hw. destruct (argmax candidates) as [best |] eqn:E; [| discriminate].
    injection Hw as <-. apply Hc. now apply argmax_in.
Qed.

Lemma expand_by_class_extends (input_words : list string)
    (predictions : list Prediction) (expected_classes : list string)
    (generated_words : list string) :
  extends_input input_words predictions generated_words ->
  hoare same_lexicon (extends_input input_words predictions)
    (expand_by_class expected_classes predictions generated_words).
Proof.
  pose proof same_lexicon_readable as HR.
  revert generated_words.
  induction expected_classes as [| c rest IH]; intros generated_words Hg; simpl.
  - apply hoare_ret; [apply rd_refl; assumption | exact Hg].
  - eapply hoare_bind with (V1 := any); [apply rd_trans; assumption | readable |].
    intros limit _.
    destruct (limit <=? Z.of_nat (length generated_words))%Z.
    + apply hoare_ret; [apply rd_refl; assumption | exact Hg].
    + eapply hoare_bind;
        [apply rd_trans; assumption | apply find_best_word_sound |].
      intros best Hbest. destruct best as [w |]; [| now apply IH].
      destruct (PyStr.is_empty w); [now apply IH |].
      apply IH. destruct (Hbest w eq_refl) as [Hw Hnew].
      now apply extends_input_append.
Qed.

Lemma backfill_extends (self : LLM) (input_words : list string)
    (predictions : list Prediction) (missing : nat) (generated_words : list string) :
  extends_input input_words predictions generated_words ->
  extends_input input_words predictions
    (backfill self missing predictions generated_words).
Proof.
  revert generated_words. induction missing as [| missing IH];
    intros generated_words Hg; simpl; [exact Hg |].
  unfold next_unused.
  match goal with
  | |- context [find ?f predictions] => destruct (find f predictions) as [[word x] |] eqn:E
  end; [| exact Hg].
  apply find_some in E as [Hin Htest].
  apply andb_prop in Htest as [Hnew _]. apply negb_true_iff in Hnew.
  apply IH. apply extends_input_append; [exact Hg | | now apply not_in_of_mem].
  now apply (in_map fst) in Hin.
Qed.

Lemma get_word_class_same_lexicon (s s' : LLM) (w : string) :
  same_lexicon s s' -> _get_word_class s' w = _get_word_class s w.
Proof.
  intros (Hdb & _). unfold _get_word_class, first_known_prefix. now rewrite Hdb.
Qed.

Lemma compatible_same_lexicon (s s' : LLM) (last_word w : string) :
  same_lexicon s s' ->
  _is_grammatically_compatible s' last_word w
  = _is_grammatically_compatible s last_word w.
Proof.
  intros H. unfold _is_grammatically_compatible.
  rewrite !(get_word_class_same_lexicon s s') by exact H.
  destruct H as (_ & Hg & _). now rewrite Hg.
Qed.

(** What [generate_words] computes, in terms of the state it starts from. *)
Lemma generate_words_shape (input_words : list string)
    (predictions : list Prediction) (s : LLM) :
  exists s1 g1,
    same_lexicon s s1
    /\ extends_input input_words predictions g1
    /\ fst (generate_words input_words predictions s)
       = truncate (max_words s)
           (backfill s1 (Z.to_nat (min_words s - Z.of_nat (length g1)))
                     predictions g1).
Proof.
  unfold generate_words. rewrite bind_gets.
  set (classes := _get_most_probable_classes s input_words predictions).
  pose proof (expand_by_class_extends input_words predictions classes input_words
                (extends_input_start input_words predictions) s) as [Hs Hv].
  destruct (expand_by_class classes predictions input_words s) as [g1 s1] eqn:E.
  cbn [fst snd] in Hs, Hv.
  exists s1, g1. split; [exact Hs | split; [exact Hv |]].
  rewrite (bind_eq _ _ _ _ _ E). rewrite bind_gets. unfold ret. cbn [fst].
  destruct Hs as (_ & _ & _ & Hmin & Hmax). now rewrite Hmin, Hmax.
Qed.

Lemma extends_input_firstn (input_words : list string)
    (predictions : list Prediction) (g : list string) (n : nat) :
  (length input_words <= n)%nat ->
  extends_input input_words predictions g ->
  extends_input input_words predictions (firstn n g).
Proof.
  intros Hn (added & -> & Hnodup & Hadded).
  exists (firstn (n - length input_words) added). split.
  - rewrite firstn_app. rewrite firstn_all2 by exact Hn. reflexivity.
  - split.
    + rewrite <- (firstn_skipn (n - length input_words) added) in Hnodup.
      now apply NoDup_app_remove_r in Hnodup.
    + intros w Hw. apply Hadded. now apply in_firstn in Hw.
Qed.

Lemma truncate_extends (input_words : list string)
    (predictions : list Prediction) (g : list string) (limit : Z) :
  (Z.of_nat (length input_words) <= limit)%Z ->
  extends_input input_words predictions g ->
  extends_input input_words predictions (truncate limit g)
  /\ (Z.of_nat (length (truncate limit g)) <= limit)%Z.
Proof.
  intros Hlimit Hg. unfold truncate.
  destruct (Z.ltb_spec limit (Z.of_nat (length g))) as [Hlt | Hge];
    [| split; [exact Hg | lia]].
  unfold slice_to. destruct (Z.leb_spec 0 limit) as [Hpos | Hneg]; [| lia].
  split.
  - apply extends_input_firstn; [lia | exact Hg].
  - rewrite length_firstn. lia.
Qed.

(** generate_sentence, lines 1076-1102: when the words of the text fit in
    [max_words], the words of the sentence are the words of the text followed
    by words of the predictions, each of them added once and none of them a
    word of the text, and they are at most [max_words]. *)
Theorem generated_words_extend_the_input (input_words : list string)
    (predictions : list Prediction) (s : LLM) :
  (Z.of_nat (length input_words) <= max_words s)%Z ->
  extends_input input_words predictions
    (fst (generate_words input_words predictions s))
  /\ (Z.of_nat (length (fst (generate_words input_words predictions s)))
      <= max_words s)%Z.
Proof.
  intros Hfit.
  destruct (generate_words_shape input_words predictions s)
    as (s1 & g1 & _ & Hg1 & ->).
  apply truncate_extends; [exact Hfit |]. now apply backfill_extends.
Qed.

Lemma generated_words_extend_the_input_witness :
  extends_input ["the"; "computer"] [("compute", 0.5%Q); ("pc", 0.4%Q)]
    (fst (generate_words ["the"; "computer"] [("compute", 0.5%Q); ("pc", 0.4%Q)]
            engine))
  /\ (Z.of_nat (length (fst (generate_words ["the"; "computer"]
                               [("compute", 0.5%Q); ("pc", 0.4%Q)] engine)))
      <= max_words engine)%Z.
Proof.
  apply (generated_words_extend_the_input ["the"; "computer"]
           [("compute", 0.5%Q); ("pc", 0.4%Q)] engine).
  vm_compute. discriminate.
Defined.

Lemma backfill_keeps_prefix (self : LLM) (predictions : list Prediction)
    (missing : nat) (g : list string) :
  prefix_of g (backfill self missing predictions g).
Proof.
  revert g. induction missing as [| missing IH]; intros g; simpl.
  - exists []. now rewrite app_nil_r.
  - destruct (next_unused self predictions g) as [[word x] |].
    + destruct (IH (g ++ [word])) as [rest ->].
      exists ([word] ++ rest). now rewrite app_assoc.
    + exists []. now rewrite app_nil_r.
Qed.

(** generate_sentence, lines 1079-1102: a text of more words than
    [max_words] gets no word added and is cut to its first [max_words]
    words. *)
Theorem long_input_is_cut (input_words : list string)
    (predictions : list Prediction) (s : LLM) :
  (0 <= max_words s < Z.of_nat (length input_words))%Z ->
  fst (generate_words input_words predictions s)
  = firstn (Z.to_nat (max_words s)) input_words.
Proof.
  intros [Hpos Hlong].
  destruct (generate_words_shape input_words predictions s)
    as (s1 & g1 & _ & (added & -> & _) & ->).
  match goal with
  | |- truncate _ (backfill ?a ?b ?c ?d) = _ =>
      destruct (backfill_keeps_prefix a c b d) as [rest ->]
  end.
  unfold truncate, slice_to. rewrite !length_app.
  destruct (Z.ltb_spec (max_words s)
              (Z.of_nat (length input_words + length added + length rest)));
    [| lia].
  destruct (Z.leb_spec 0 (max_words s)); [| lia].
  rewrite <- app_assoc, firstn_app.
  replace (Z.to_nat (max_words s) - length input_words)%nat with 0%nat by lia.
  simpl. now rewrite app_nil_r.
Qed.

Lemma long_input_is_cut_witness :
  fst (generate_words ["the"; "fast"; "computer"] [("compute", 0.5%Q)]
         (with_max_words 2%Z engine))
  = firstn (Z.to_nat (max_words (with_max_words 2%Z engine)))
           ["the"; "fast"; "computer"].
Proof.
  apply (long_input_is_cut ["the"; "fast"; "computer"] [("compute", 0.5%Q)]
           (with_max_words 2%Z engine)).
  vm_compute. split; [discriminate | reflexivity].
Defined.

Lemma backfill_stops (self : LLM) (predictions : list Prediction)
    (missing : nat) (g : list string) :
  (length (backfill self missing predictions g) < length g + missing)%nat ->
  next_unused self predictions (backfill self missing predictions g) = None.
Proof.
  revert g. induction missing as [| missing IH]; intros g; simpl; [lia |].
  destruct (next_unused self predictions g) as [[word x] |] eqn:E.
  - intros H. apply IH. rewrite length_app. simpl. lia.
  - intros _. exact E.
Qed.

Lemma next_unused_none (self : LLM) (predictions : list Prediction)
    (g : list string) (p : Prediction) :
  next_unused self predictions g = None ->
  In p predictions ->
  In (fst p) g
  \/ _is_grammatically_compatible self (last_or_empty g) (fst p) = false.
Proof.
  intros Hnone Hp. unfold next_unused in Hnone.
  pose proof (find_none _ _ Hnone p Hp) as H. destruct p as [word score].
  simpl in *. apply andb_false_iff in H as [H | H]; [left | now right].
  apply negb_false_iff in H. now apply in_of_mem.
Qed.

(** generate_sentence, lines 1088-1098: [min_words] is reached whenever it
    can be.  If the words of the sentence are fewer than [min_words] and fewer
    than [max_words], every prediction is already in the sentence or does not
    fit after its last word. *)
Theorem min_words_is_best_effort (input_words : list string)
    (predictions : list Prediction) (s : LLM) (p : Prediction) :
  (Z.of_nat (length (fst (generate_words input_words predictions s)))
   < min_words s)%Z ->
  (Z.of_nat (length (fst (generate_words input_words predictions s)))
   < max_words s)%Z ->
  In p predictions ->
  In (fst p) (fst (generate_words input_words predictions s))
  \/ _is_grammatically_compatible s
       (last_or_empty (fst (generate_words input_words predictions s))) (fst p)
     = false.
Proof.
  destruct (generate_words_shape input_words predictions s)
    as (s1 & g1 & Hs & _ & ->).
  set (n := Z.to_nat (min_words s - Z.of_nat (length g1))).
  intros Hmin Hmax Hp.
  assert (Hsame : truncate (max_words s) (backfill s1 n predictions g1)
                  = backfill s1 n predictions g1).
  { revert Hmax. unfold truncate, slice_to.
    destruct (Z.ltb_spec (max_words s)
                (Z.of_nat (length (backfill s1 n predictions g1)))); [| reflexivity].
    destruct (Z.leb_spec 0 (max_words s)).
    - rewrite length_firstn. lia.
    - rewrite length_firstn. lia. }
  rewrite Hsame in *.
  rewrite <- (compatible_same_lexicon s s1) by exact Hs.
  apply (next_unused_none s1 predictions); [| exact Hp].
  apply backfill_stops. subst n. lia.
Qed.

Lemma min_words_is_best_effort_witness :
  In (fst ("computer", 1.0%Q))
     (fst (generate_words ["computer"] [("computer", 1.0%Q)] engine))
  \/ _is_grammatically_compatible engine
       (last_or_empty (fst (generate_words ["computer"] [("computer", 1.0%Q)]
                              engine)))
       (fst ("computer", 1.0%Q))
     = false.
Proof.
  apply (min_words_is_best_effort ["computer"] [("computer", 1.0%Q)] engine
           ("computer", 1.0%Q)).
  - vm_compute. reflexivity.
  - vm_compute. reflexivity.
  - left. reflexivity.
Defined.

(** ** The edges an imported record adds *)

Lemma snd_for_each_nil {A : Type} (body : A -> M unit) (s : LLM) :
  snd (for_each [] body s) = s.
Proof. reflexivity. Qed.

Section EdgesOfWord.

Variable word : string.

(** One declared word: [x] is added to the edge each way. *)
Lemma edge_pair_step (y : string) (x : Q) (s : LLM) (a b : string) :
  (graph_weight (snd ((rel_add word y x ;;; rel_add y word x) s)) a b
   == graph_weight s a b
      + (if String.eqb a word then x * declared [y] b else 0)
      + (if String.eqb b word then x * declared [y] a else 0))%Q.
Proof.
  rewrite snd_then, !graph_weight_rel_add. unfold declared. simpl count_occ.
  destruct (String.eqb_spec a word) as [-> | Ha];
    destruct (String.eqb_spec b word) as [-> | Hb];
    destruct (string_dec y word) as [-> | Hy];
    repeat match goal with
           | |- context [String.eqb ?u ?v] =>
               destruct (String.eqb_spec u v); try congruence; subst
           | |- context [string_dec ?u ?v] =>
               destruct (string_dec u v); try congruence; subst
           end;
    cbn [andb]; unfold Qnat; simpl; ring.
Qed.

Lemma declared_cons (y : string) (l : list string) (b : string) :
  (declared (y :: l) b == declared [y] b + declared l b)%Q.
Proof.
  unfold declared. simpl count_occ.
  destruct (string_dec y b); [rewrite Qnat_succ |]; unfold Qnat; simpl; ring.
Qed.

Lemma edge_pair_loop (l : list string) (x : Q) (s : LLM) (a b : string) :
  (graph_weight
     (snd (for_each l (fun y => rel_add word y x ;;; rel_add y word x) s)) a b
   == graph_weight s a b
      + (if String.eqb a word then x * declared l b else 0)
      + (if String.eqb b word then x * declared l a else 0))%Q.
Proof.
  revert s. induction l as [| y l IH]; intros s.
  - rewrite snd_for_each_nil. unfold declared, Qnat. simpl.
    destruct (String.eqb a word), (String.eqb b word); ring.
  - rewrite snd_for_each_cons, IH, edge_pair_step.
    destruct (String.eqb a word), (String.eqb b word);
      rewrite ?(declared_cons y l); ring.
Qed.

End EdgesOfWord.

Section EdgesOfRecord.

Variable word : string.

Lemma class_pair_loop (compatible : list string) (db : odict WordEntry)
    (s : LLM) (a b : string) :
  (graph_weight
     (snd (for_each db (fun '(other_word, other_data) =>
             if negb (String.eqb other_word word)
                && PyStr.mem (wclass other_data) compatible
             then rel_add word other_word 0.3%Q
             else ret tt) s)) a b
   == graph_weight s a b
      + (if String.eqb a word
         then 0.3 * Qnat (length (filter (fun '(other_word, other_data) =>
                                     String.eqb other_word b
                                     && (negb (String.eqb other_word word)
                                         && PyStr.mem (wclass other_data) compatible))
                                   db))
         else 0))%Q.
Proof.
  revert s. induction db as [| [other_word other_data] db IH]; intros s.
  - rewrite snd_for_each_nil. unfold Qnat. simpl.
    destruct (String.eqb a word); ring.
  - rewrite snd_for_each_cons, IH. cbn [filter].
    destruct (negb (String.eqb other_word word)
              && PyStr.mem (wclass other_data) compatible) eqn:E.
    + rewrite graph_weight_rel_add.
      rewrite (String.eqb_sym word a).
      destruct (String.eqb a word) eqn:Ea; cbn [andb]; [| ring].
      apply String.eqb_eq in Ea. subst a.
      destruct (String.eqb other_word b) eqn:Eb; cbn [andb length].
      * apply String.eqb_eq in Eb. subst b. rewrite Qnat_succ. ring.
      * ring.
    + unfold ret. cbn [snd]. rewrite andb_false_r. reflexivity.
Qed.

Lemma edge_loop_lexicon (l : list string) (x : Q) (s : LLM) :
  same_lexicon s
    (snd (for_each l (fun y => rel_add word y x ;;; rel_add y word x) s)).
Proof.
  apply (hoare_state same_lexicon any).
  pose proof same_lexicon_refl. pose proof same_lexicon_trans.
  pose proof graph_blind_same_lexicon. frame.
Qed.

(** Lines 522-547 on a word of the lexicon. *)
Lemma build_relationships_effect (data : WordEntry) (s : LLM) (a b : string) :
  ODict.get word (word_db s) = Some data ->
  (graph_weight (snd (_build_relationships word s)) a b
   == graph_weight s a b
      + (if String.eqb a word
         then declared_weight data b
              + 0.3 * Qnat (class_pair_edges s (wclass data) word b)
         else 0)
      + (if String.eqb b word then declared_weight data a else 0))%Q.
Proof.
  intros Hdata. unfold _build_relationships. rewrite bind_gets, Hdata.
  rewrite !snd_then.
  set (s1 := snd (for_each (synonyms data) _ s)).
  set (s2 := snd (for_each (antonyms data) _ s1)).
  set (s3 := snd (for_each (acronyms data) _ s2)).
  assert (H1 : same_lexicon s s1) by apply edge_loop_lexicon.
  assert (H2 : same_lexicon s1 s2) by apply edge_loop_lexicon.
  assert (H3 : same_lexicon s2 s3) by apply edge_loop_lexicon.
  assert (H : same_lexicon s s3)
    by (eapply same_lexicon_trans; [eapply same_lexicon_trans |]; eassumption).
  destruct H as (Hdb & Hg & _).
  assert (Hloops :
    (graph_weight s3 a b
     == graph_weight s a b
        + (if String.eqb a word then declared_weight data b else 0)
        + (if String.eqb b word then declared_weight data a else 0))%Q).
  { subst s3 s2 s1. rewrite !edge_pair_loop. unfold declared_weight.
    destruct (String.eqb a word), (String.eqb b word); ring. }
  rewrite bind_gets. unfold class_pair_edges. rewrite Hg.
  destruct (ODict.get (wclass data) (common_pairs (grammar_rules s)))
    as [compatible |].
  - rewrite bind_gets, Hdb, class_pair_loop, Hloops.
    destruct (String.eqb a word), (String.eqb b word); ring.
  - unfold ret. cbn [snd]. rewrite Hloops. unfold Qnat. simpl.
    destruct (String.eqb a word), (String.eqb b word); ring.
Qed.

Lemma partial_matches_loop (db : odict WordEntry) (l : list nat) (s : LLM)
    (a b : string) :
  word_db s = db ->
  let weight i := (0.5 * (Qnat i / Qnat (String.length word)))%Q in
  let found other i :=
    if String.eqb (PyStr.take i word) other && ODict.mem other db
    then weight i else 0%Q in
  (graph_weight
     (snd (for_each l (fun i =>
             known <- gets (fun self =>
                        ODict.mem (PyStr.take i word) (word_db self)) ;;
             if known
             then rel_add word (PyStr.take i word) (weight i) ;;;
                  rel_add (PyStr.take i word) word (weight i)
             else ret tt) s)) a b
   == graph_weight s a b
      + (if String.eqb a word then Qsum (map (found b) l) else 0)
      + (if String.eqb b word then Qsum (map (found a) l) else 0))%Q.
Proof.
  intros Hdb weight found. revert s Hdb.
  induction l as [| i l IH]; intros s Hdb.
  - rewrite snd_for_each_nil. simpl.
    destruct (String.eqb a word), (String.eqb b word); ring.
  - rewrite snd_for_each_cons, bind_gets, Hdb. cbn [map Qsum fold_right].
    fold (Qsum (map (found b) l)). fold (Qsum (map (found a) l)).
    destruct (ODict.mem (PyStr.take i word) db) eqn:Eknown.
    + rewrite IH.
      2:{ rewrite <- Hdb. symmetry.
          match goal with
          | |- word_db s = word_db (snd (?m s)) =>
              assert (Hs : same_lexicon s (snd (m s)))
          end.
          { rewrite snd_then.
            eapply same_lexicon_trans; apply rel_add_lexicon. }
          destruct Hs as (Hs & _). now rewrite Hs. }
      rewrite edge_pair_step. unfold declared, found. simpl count_occ.
      destruct (String.eqb a word), (String.eqb b word);
        repeat match goal with
               | |- context [string_dec ?u ?v] =>
                   destruct (string_dec u v) as [<- | ?]
               end;
        rewrite ?String.eqb_refl, ?Eknown; cbn [andb];
        repeat match goal with
               | H : ?u <> ?v |- context [String.eqb ?u ?v] =>
                   rewrite (proj2 (String.eqb_neq u v) H)
               end;
        cbn [andb]; change (Qnat 1) with 1%Q; change (Qnat 0) with 0%Q; ring.
    + change (snd (ret tt s)) with s. rewrite IH by exact Hdb.
      unfold found.
      destruct (String.eqb a word), (String.eqb b word);
        repeat match goal with
               | |- context [String.eqb (PyStr.take i word) ?v] =>
                   destruct (String.eqb_spec (PyStr.take i word) v) as [<- | ?]
               end;
        rewrite ?Eknown; cbn [andb]; ring.
Qed.

End EdgesOfRecord.

(** Lines 549-556. *)
Lemma check_partial_matches_effect (word : string) (s : LLM) (a b : string) :
  (graph_weight (snd (_check_partial_matches word s)) a b
   == graph_weight s a b
      + (if String.eqb a word then partial_weight s word b else 0)
      + (if String.eqb b word then partial_weight s word a else 0))%Q.
Proof.
  exact (partial_matches_loop word (word_db s)
           (seq 1 (String.length word - 1)) s a b eq_refl).
Qed.

Lemma partial_weight_same_lexicon (s s' : LLM) (word other : string) :
  same_lexicon s s' -> partial_weight s' word other = partial_weight s word other.
Proof. intros (Hdb & _). unfold partial_weight. now rewrite Hdb. Qed.

(** import_dictionary, lines 294-306, with _build_relationships and
    _check_partial_matches, for an ASCII word, whose [len] and prefixes
    [word[:i]] are those of its bytes, and with the weights as exact
    rationals: the import of a record changes the weight of an edge by what
    the record declares (2.0 a synonym, -1.5 an antonym, 1.0 an acronym, for
    every time the word is listed), by 0.3 for the entries the class pair rule
    links, and by the weights of the known prefixes.  The class pair rule
    only adds to the edge that leaves the imported word; nothing is added to
    an edge that does not touch it. *)
Theorem import_record_weights (word : string) (entry : WordEntry) (s : LLM)
    (a b : string) :
  PyStr.is_ascii word = true ->
  (graph_weight (snd (import_record word entry s)) a b
   == graph_weight s a b
      + (if String.eqb a word
         then edge_out (stored word entry s) word entry b else 0)
      + (if String.eqb b word
         then edge_back (stored word entry s) word entry a else 0))%Q.
Proof.
  intros _. unfold import_record. rewrite !snd_then.
  change (snd (modify (fun self =>
                 with_word_db (ODict.set word entry (word_db self)) self) s))
    with (stored word entry s).
  set (s1 := stored word entry s).
  assert (Hentry : ODict.get word (word_db s1) = Some entry)
    by apply ODictFacts.get_set_same.
  assert (Hs : same_lexicon s1 (snd (_build_relationships word s1))).
  { apply (hoare_state same_lexicon any). apply hoare_build_relationships;
      [exact same_lexicon_refl | exact same_lexicon_trans
      | exact graph_blind_same_lexicon]. }
  rewrite check_partial_matches_effect.
  rewrite (partial_weight_same_lexicon s1 _ word a Hs),
    (partial_weight_same_lexicon s1 _ word b Hs).
  rewrite (build_relationships_effect word entry s1 a b Hentry).
  change (graph_weight s1 a b) with (graph_weight s a b).
  unfold edge_out, edge_back.
  destruct (String.eqb a word), (String.eqb b word); ring.
Qed.

Lemma import_record_weights_witness :
  (graph_weight
     (snd (import_record "computers"
             (mkWordEntry "noun" "computer" "computers" ["pc"; "machine"] []
                          "more than one computer" ["pc"] (JObject []) "general")
             engine))
     "computers" "pc"
   == graph_weight engine "computers" "pc"
      + (if String.eqb "computers" "computers"
         then edge_out
                (stored "computers"
                   (mkWordEntry "noun" "computer" "computers" ["pc"; "machine"] []
                                "more than one computer" ["pc"] (JObject [])
                                "general")
                   engine)
                "computers"
                (mkWordEntry "noun" "computer" "computers" ["pc"; "machine"] []
                             "more than one computer" ["pc"] (JObject []) "general")
                "pc"
         else 0)
      + (if String.eqb "pc" "computers"
         then edge_back
                (stored "computers"
                   (mkWordEntry "noun" "computer" "computers" ["pc"; "machine"] []
                                "more than one computer" ["pc"] (JObject [])
                                "general")
                   engine)
                "computers"
                (mkWordEntry "noun" "computer" "computers" ["pc"; "machine"] []
                             "more than one computer" ["pc"] (JObject []) "general")
                "computers"
         else 0))%Q.
Proof.
  apply (import_record_weights "computers"
           (mkWordEntry "noun" "computer" "computers" ["pc"; "machine"] []
                        "more than one computer" ["pc"] (JObject []) "general")
           engine "computers" "pc").
  vm_compute. reflexivity.
Defined.

(** ** The reply of a conversation turn *)

(** main, lines 1295-1302: the loop that fills the reply up to [min_words]
    does not end when the prediction at position [len(words)] is already a
    word of the reply: the iteration changes nothing, and the test of the
    loop holds again. *)
Theorem reply_loop_stalls (min_words : Z) (predictions : list Prediction)
    (words : list string) (generated_sentence : string) :
  (Z.of_nat (length words) < min_words)%Z ->
  (length words < length predictions)%nat ->
  In (fst (nth (length words) predictions ("", 0%Q))) words ->
  forall fuel,
    extend_reply fuel min_words predictions words generated_sentence = None.
Proof.
  intros Hmin Hmore Hin fuel. induction fuel as [| fuel IH]; [reflexivity |].
  simpl.
  apply Z.ltb_lt in Hmin. apply Nat.ltb_lt in Hmore.
  rewrite Hmin, Hmore. cbn [andb].
  apply mem_of_in in Hin. rewrite Hin. exact IH.
Qed.

Lemma reply_loop_stalls_witness :
  extend_reply 5 3 [("compute", 0.5%Q); ("pc", 0.4%Q); ("compute", 0.1%Q)]
               ["Computer"; "compute"] "Computer compute" = None.
Proof.
  apply (reply_loop_stalls 3
           [("compute", 0.5%Q); ("pc", 0.4%Q); ("compute", 0.1%Q)]
           ["Computer"; "compute"] "Computer compute").
  - reflexivity.
  - simpl. lia.
  - simpl. right. left. reflexivity.
Defined.

Lemma skipn_nth_cons {A : Type} (n : nat) (l : list A) (d : A) :
  (n < length l)%nat -> skipn n l = nth n l d :: skipn (S n) l.
Proof.
  revert l. induction n as [| n IH]; intros [| x l] H; simpl in *; try lia.
  - reflexivity.
  - apply IH. lia.
Qed.

(** main, lines 1295-1302: when the words the loop is to append are distinct
    and none of them is a word of the reply yet, the loop ends after one
    iteration for each of them, and the reply is its words followed by
    them, joined with spaces and closed with a full stop. *)
Theorem reply_loop_appends (min_words : Z) (predictions : list Prediction)
    (words : list string) (generated_sentence : string) (fuel : nat) :
  NoDup (wanted min_words predictions words) ->
  (forall w, In w (wanted min_words predictions words) -> ~ In w words) ->
  (length (wanted min_words predictions words) < fuel)%nat ->
  extend_reply fuel min_words predictions words generated_sentence
  = Some (words ++ wanted min_words predictions words,
          match wanted min_words predictions words with
          | [] => generated_sentence
          | _ :: _ =>
              (PyStr.join " " (words ++ wanted min_words predictions words)
               ++ ".")%string
          end).
Proof.
  intros Hnodup Hfresh Hfuel.
  remember (Z.to_nat (min_words - Z.of_nat (length words))) as missing eqn:Hm.
  revert fuel words generated_sentence Hm Hnodup Hfresh Hfuel.
  induction missing as [| missing IH];
    intros fuel words sentence Hm Hnodup Hfresh Hfuel;
    (destruct fuel as [| fuel]; [lia |]); cbn [extend_reply].
  - assert (Hge : (Z.of_nat (length words) <? min_words)%Z = false)
      by (apply Z.ltb_ge; lia).
    rewrite Hge. cbn [andb]. unfold wanted. rewrite <- Hm. simpl.
    now rewrite app_nil_r.
  - assert (Hlt : (Z.of_nat (length words) <? min_words)%Z = true)
      by (apply Z.ltb_lt; lia).
    rewrite Hlt. cbn [andb].
    destruct (Nat.ltb_spec (length words) (length predictions)) as [Hmore | Hnone].
    + revert Hnodup Hfresh Hfuel. unfold wanted at 1 2 3 4 5 6. rewrite <- Hm.
      rewrite (skipn_nth_cons (A := Prediction) _ _ ("", 0%Q) Hmore).
      cbn [firstn map length].
      set (next_word := fst (nth (length words) predictions ("", 0%Q))).
      intros Hnodup Hfresh Hfuel.
      assert (Hnew : PyStr.mem next_word words = false).
      { destruct (PyStr.mem next_word words) eqn:E; [| reflexivity].
        apply in_of_mem in E. exfalso. apply (Hfresh next_word); [now left | exact E]. }
      rewrite Hnew. cbn [negb].
      assert (Hlen : length (words ++ [next_word]) = S (length words))
        by (rewrite length_app; simpl; lia).
      assert (Hwanted : wanted min_words predictions (words ++ [next_word])
                        = map fst (firstn missing
                                     (skipn (S (length words)) predictions))).
      { unfold wanted. rewrite Hlen. f_equal. f_equal. lia. }
      rewrite (IH fuel (words ++ [next_word])); rewrite ?Hwanted.
      * rewrite <- !app_assoc. cbn [app].
        destruct (map fst (firstn missing (skipn (S (length words)) predictions)));
          reflexivity.
      * rewrite Hlen. lia.
      * now inversion Hnodup.
      * intros w Hw Hin. apply in_app_or in Hin as [Hin | [<- | []]].
        -- apply (Hfresh w); [now right | exact Hin].
        -- now inversion Hnodup.
      * lia.
    + unfold wanted. rewrite skipn_all2 by lia. rewrite firstn_nil. simpl.
      now rewrite app_nil_r.
Qed.

Lemma reply_loop_appends_witness :
  extend_reply 3 3 [("fast", 0.5%Q); ("pc", 0.4%Q); ("compute", 0.1%Q)]
               ["Computer"] "Computer"
  = Some (["Computer"]
          ++ wanted 3 [("fast", 0.5%Q); ("pc", 0.4%Q); ("compute", 0.1%Q)]
                    ["Computer"],
          match wanted 3 [("fast", 0.5%Q); ("pc", 0.4%Q); ("compute", 0.1%Q)]
                       ["Computer"] with
          | [] => "Computer"
          | _ :: _ =>
              (PyStr.join " "
                 (["Computer"]
                  ++ wanted 3 [("fast", 0.5%Q); ("pc", 0.4%Q); ("compute", 0.1%Q)]
                            ["Computer"]) ++ ".")%string
          end).
Proof.
  apply (reply_loop_appends 3
           [("fast", 0.5%Q); ("pc", 0.4%Q); ("compute", 0.1%Q)]
           ["Computer"] "Computer" 3).
  - unfold wanted. simpl. repeat constructor; simpl; intuition discriminate.
  - unfold wanted. simpl. intros w [<- | [<- | []]] [H | []]; discriminate.
  - unfold wanted. simpl. lia.
Defined.

(** ** Conversation history *)

(** update_conversation_history, lines 960-965: with a window of at least
    one exchange the history keeps its last [2 * context_window] entries, the
    new exchange among them; with a window of 0 the slice [[-0:]] is the whole
    list, so nothing is ever dropped. *)
Theorem conversation_history_window (conversation_history : list (string * string))
    (context_window : Z) (user_input ai_response : string) :
  (0 <= context_window)%Z ->
  (context_window = 0%Z ->
   update_conversation_history conversation_history context_window
     user_input ai_response
   = conversation_history ++ [("user", user_input); ("ai", ai_response)])
  /\ (1 <= context_window ->
      Z.of_nat (length (update_conversation_history conversation_history
                          context_window user_input ai_response))
      = Z.min (Z.of_nat (length conversation_history) + 2) (2 * context_window)
      /\ exists dropped older,
           conversation_history = dropped ++ older
           /\ update_conversation_history conversation_history context_window
                user_input ai_response
              = older ++ [("user", user_input); ("ai", ai_response)])%Z.
Proof.
  intros Hwindow. unfold update_conversation_history, slice_from.
  set (new := [("user", user_input); ("ai", ai_response)]).
  assert (Hlen : length (conversation_history ++ new)
                 = (length conversation_history + 2)%nat)
    by (rewrite length_app; reflexivity).
  split.
  - intros ->. simpl. destruct (conversation_history ++ new); reflexivity.
  - intros Hone.
    destruct (Z.ltb_spec (context_window * 2)
                (Z.of_nat (length (conversation_history ++ new)))) as [Hlong | Hshort].
    + destruct (Z.ltb_spec (- context_window * 2) 0) as [_ | Hneg]; [| lia].
      set (n := Z.to_nat (Z.of_nat (length (conversation_history ++ new))
                          + - context_window * 2)).
      assert (Hn : (n <= length conversation_history)%nat) by lia.
      split.
      * rewrite length_skipn. lia.
      * exists (firstn n conversation_history), (skipn n conversation_history).
        split; [now rewrite firstn_skipn |].
        rewrite skipn_app.
        replace (n - length conversation_history)%nat with 0%nat by lia.
        reflexivity.
    + split; [lia |]. exists [], conversation_history. split; reflexivity.
Qed.

Lemma conversation_history_window_witness :
  (1%Z = 0%Z ->
   update_conversation_history [("user", "hi"); ("ai", "Hi.")] 1 "bye" "Bye."
   = [("user", "hi"); ("ai", "Hi.")] ++ [("user", "bye"); ("ai", "Bye.")])
  /\ (1 <= 1 ->
      Z.of_nat (length (update_conversation_history [("user", "hi"); ("ai", "Hi.")]
                          1 "bye" "Bye."))
      = Z.min (Z.of_nat (length [("user", "hi"); ("ai", "Hi.")]) + 2) (2 * 1)
      /\ exists dropped older,
           [("user", "hi"); ("ai", "Hi.")] = dropped ++ older
           /\ update_conversation_history [("user", "hi"); ("ai", "Hi.")] 1
                "bye" "Bye."
              = older ++ [("user", "bye"); ("ai", "Bye.")])%Z.
Proof.
  apply (conversation_history_window [("user", "hi"); ("ai", "Hi.")] 1
           "bye" "Bye.").
  lia.
Defined.

(** ** What an analysis lists *)

Lemma same_setup_readable : Readable same_setup.
Proof.
  apply pattern_blind_readable.
  - intros s. split; [apply same_lexicon_refl | reflexivity].
  - intros s1 s2 s3 [H12 M12] [H23 M23]. split.
    + eapply same_lexicon_trans; eassumption.
    + congruence.
  - intros p s. split; [apply same_lexicon_patterns | reflexivity].
  - intros w. apply hoare_rel_row. intros r s.
    split; [apply same_lexicon_relationships | reflexivity].
  - intros w1 w2. apply hoare_rel_read. intros r s.
    split; [apply same_lexicon_relationships | reflexivity].
Qed.

Lemma same_setup_trans (s1 s2 s3 : LLM) :
  same_setup s1 s2 -> same_setup s2 s3 -> same_setup s1 s3.
Proof. apply (rd_trans same_setup same_setup_readable). Qed.

Lemma bind_ret {A B : Type} (a : A) (k : A -> M B) (s : LLM) :
  bind (ret a) k s = k a s.
Proof. reflexivity. Qed.

Lemma analyze_loop_lists (s0 : LLM) (items : list (nat * string))
    (words : list string) (result : Analysis) (s : LLM) :
  operation_mode s0 <> "training" ->
  same_setup s0 s ->
  Forall (fun r => (0 <= snd r)%Q) (relationship_patterns result) ->
  exists r,
    fst (analyze_loop items words result s) = Some r
    /\ word_classes r
       = word_classes result
         ++ map (fun '(i, word) => (word, _get_word_class s0 word))
                (filter (fun '(_, word) => negb (PyStr.in_punctuation word)) items)
    /\ position_patterns r
       = position_patterns result
         ++ map (fun '(i, word) => (word, _get_word_position i (length words)))
                (filter (fun '(_, word) => negb (PyStr.in_punctuation word)) items)
    /\ Forall (fun r => (0 <= snd r)%Q) (relationship_patterns r)
    /\ sentence_type r = sentence_type result
    /\ tense r = tense result
    /\ known_words_ratio r = known_words_ratio result
    /\ context r = context result.
Proof.
  intros Hmode. revert result s.
  induction items as [| [i word] items IH]; intros result s Hs Hrels;
    cbn [analyze_loop filter].
  - exists result. cbn [map]. rewrite !app_nil_r. unfold ret. cbn [fst].
    repeat (split; [reflexivity || assumption |]). reflexivity.
  - destruct (PyStr.in_punctuation word) eqn:Epunct; cbn [negb];
      [now apply IH |].
    rewrite bind_gets.
    pose proof (hoare_state same_setup any _ s
                  (readable_build_relationship_patterns same_setup
                     same_setup_readable word words i)) as Hs1.
    destruct (_build_relationship_patterns word words i s) as [u s1] eqn:E1.
    cbn [snd] in Hs1. rewrite (bind_eq _ _ _ _ _ E1). rewrite bind_gets.
    assert (Hs01 : same_setup s0 s1) by (eapply same_setup_trans; eassumption).
    assert (Htraining : String.eqb (operation_mode s1) "training" = false).
    { destruct Hs01 as [_ ->]. now apply String.eqb_neq. }
    rewrite Htraining, bind_ret. cbn [negb].
    assert (Hclass : _get_word_class s word = _get_word_class s0 word)
      by (apply get_word_class_same_lexicon; apply Hs).
    rewrite Hclass.
    destruct ((0 <? i)%nat && not_punctuation (nth (i - 1) words "")).
    + pose proof (readable_pattern_relationship same_setup same_setup_readable
                    (nth (i - 1) words "") word words i s1) as [Hs2 Hstrength].
      destruct (_calculate_pattern_relationship (nth (i - 1) words "") word
                  words i s1) as [strength s2] eqn:E2.
      cbn [fst snd] in Hs2, Hstrength.
      rewrite (bind_eq _ _ s1 s2 [(nth (i - 1) words "", word, strength)])
        by (unfold bind; now rewrite E2).
      destruct (IH (mkAnalysis (word_classes result ++ [(word, _get_word_class s0 word)])
                      (sentence_type result) (tense result)
                      (relationship_patterns result
                       ++ [(nth (i - 1) words "", word, strength)])
                      (known_words_ratio result)
                      (position_patterns result
                       ++ [(word, _get_word_position i (length words))])
                      (context result)) s2)
        as (r & Hr & Hc & Hp & Hf & Hrest).
      * eapply same_setup_trans; eassumption.
      * cbn [relationship_patterns]. apply Forall_app. split; [exact Hrels |].
        constructor; [exact Hstrength | constructor].
      * exists r. cbn [word_classes position_patterns] in Hc, Hp.
        rewrite <- app_assoc in Hc, Hp.
        split; [exact Hr | split; [exact Hc | split; [exact Hp | split; [exact Hf |]]]].
        exact Hrest.
    + rewrite bind_ret.
      destruct (IH (mkAnalysis (word_classes result ++ [(word, _get_word_class s0 word)])
                      (sentence_type result) (tense result)
                      (relationship_patterns result ++ [])
                      (known_words_ratio result)
                      (position_patterns result
                       ++ [(word, _get_word_position i (length words))])
                      (context result)) s1)
        as (r & Hr & Hc & Hp & Hf & Hrest).
      * exact Hs01.
      * cbn [relationship_patterns]. now rewrite app_nil_r.
      * exists r. cbn [word_classes position_patterns] in Hc, Hp.
        rewrite <- app_assoc in Hc, Hp.
        split; [exact Hr | split; [exact Hc | split; [exact Hp | split; [exact Hf |]]]].
        exact Hrest.
Qed.

(** analyze_patterns, lines 562-595, on an ASCII sentence, whose tokens
    are those of [PyStr.findall_words_or_symbols]: outside the training mode
    an analysis
    always returns, and it lists every token that is not punctuation once and
    in the order of the sentence, with the class [_get_word_class] gives it
    and with its position in the sentence; no relationship strength it reports
    is negative, and the sentence type, the tense and the ratio of known words
    are those of the tokens of the sentence. *)
Theorem analysis_lists_every_word (sentence : string) (s : LLM) :
  PyStr.is_ascii sentence = true ->
  operation_mode s <> "training" ->
  exists result,
    fst (analyze_patterns sentence s) = Some result
    /\ word_classes result
       = map (fun '(i, word) => (word, _get_word_class s word))
             (analysed (PyStr.findall_words_or_symbols (PyStr.lower sentence)))
    /\ position_patterns result
       = map (fun '(i, word) =>
                (word,
                 _get_word_position i
                   (length (PyStr.findall_words_or_symbols (PyStr.lower sentence)))))
             (analysed (PyStr.findall_words_or_symbols (PyStr.lower sentence)))
    /\ Forall (fun r => (0 <= snd r)%Q) (relationship_patterns result)
    /\ sentence_type result
       = _detect_sentence_type s
           (PyStr.findall_words_or_symbols (PyStr.lower sentence))
    /\ tense result
       = _detect_tense s (PyStr.findall_words_or_symbols (PyStr.lower sentence))
    /\ known_words_ratio result
       = _calculate_known_words_ratio s
           (PyStr.findall_words_or_symbols (PyStr.lower sentence)).
Proof.
  intros _ Hmode. unfold analyze_patterns. rewrite bind_gets.
  set (words := PyStr.findall_words_or_symbols (PyStr.lower sentence)).
  destruct (analyze_loop_lists s (enumerate words) words
              (mkAnalysis [] (_detect_sentence_type s words) (_detect_tense s words)
                 [] (_calculate_known_words_ratio s words) []
                 (_deduce_context s sentence)) s Hmode)
    as (r & Hr & Hc & Hp & Hf & Ht & Hte & Hk & _).
  - apply (rd_refl same_setup same_setup_readable).
  - constructor.
  - exists r. unfold analysed.
    split; [exact Hr | split; [exact Hc | split; [exact Hp | split; [exact Hf |]]]].
    split; [exact Ht | split; [exact Hte | exact Hk]].
Qed.

Lemma analysis_lists_every_word_witness :
  exists result,
    fst (analyze_patterns "The computer, fast!" engine) = Some result
    /\ word_classes result
       = map (fun '(i, word) => (word, _get_word_class engine word))
             (analysed (PyStr.findall_words_or_symbols
                          (PyStr.lower "The computer, fast!")))
    /\ position_patterns result
       = map (fun '(i, word) =>
                (word,
                 _get_word_position i
                   (length (PyStr.findall_words_or_symbols
                              (PyStr.lower "The computer, fast!")))))
             (analysed (PyStr.findall_words_or_symbols
                          (PyStr.lower "The computer, fast!")))
    /\ Forall (fun r => (0 <= snd r)%Q) (relationship_patterns result)
    /\ sentence_type result
       = _detect_sentence_type engine
           (PyStr.findall_words_or_symbols (PyStr.lower "The computer, fast!"))
    /\ tense result
       = _detect_tense engine
           (PyStr.findall_words_or_symbols (PyStr.lower "The computer, fast!"))
    /\ known_words_ratio result
       = _calculate_known_words_ratio engine
           (PyStr.findall_words_or_symbols (PyStr.lower "The computer, fast!")).
Proof.
  apply (analysis_lists_every_word "The computer, fast!" engine).
  - reflexivity.
  - vm_compute. discriminate.
Defined.

Lemma truncate_zero (generated_words : list string) : truncate 0 generated_words = [].
Proof.
  unfold truncate, slice_to. destruct generated_words as [| w l]; reflexivity.
Qed.

(** generate_sentence, lines 1065-1118: with [max_words] at 0 (the flag
    [--max0] sets it) every word is cut, and the method returns the text it
    was given, neither capitalised nor closed with a full stop. *)
Theorem no_words_allowed_returns_the_text (text : string)
    (predictions : list Prediction) (s : LLM) :
  max_words s = 0%Z ->
  fst (generate_sentence text predictions s) = text.
Proof.
  intros Hmax. unfold generate_sentence.
  destruct (text_words text) as [| w ws]; [reflexivity |].
  rewrite bind_gets.
  destruct (generate_words_shape (w :: ws) predictions s) as (s1 & g1 & _ & _ & Hg).
  rewrite Hmax, truncate_zero in Hg.
  destruct (generate_words (w :: ws) predictions s) as [g s2] eqn:E.
  cbn [fst] in Hg. subst g.
  rewrite (bind_eq _ _ _ _ _ E). reflexivity.
Qed.

Lemma no_words_allowed_returns_the_text_witness :
  fst (generate_sentence "the computer" [("compute", 0.5%Q)]
         (snd (handle_word_limits "--max0" engine)))
  = "the computer".
Proof.
  apply (no_words_allowed_returns_the_text "the computer" [("compute", 0.5%Q)]
           (snd (handle_word_limits "--max0" engine))).
  vm_compute. reflexivity.
Defined.

(** ** Ranked predictions *)

(** predict_next with _simple_relationship_prediction,
    _complex_relationship_prediction and _get_top_predictions: the list each
    mode returns for a list of words that is not empty is in descending order
    of score, scores may tie, holds scores greater than 0 only and has ten
    entries at most; so does the list of every pair [predict_next]
    returns. *)
Theorem predictions_are_ranked (words : list string) (s : LLM) :
  words <> [] ->
  ranked (fst (_simple_relationship_prediction words s))
  /\ ranked (fst (_complex_relationship_prediction words s))
  /\ forall text mode l ratio,
       fst (predict_next text mode s) = Pair l ratio -> ranked l.
Proof.
  intros _.
  assert (Htop : forall scores, ranked (_get_top_predictions scores)).
  { intros scores. destruct (top_predictions_ranked scores) as (H1 & H2 & H3 & _).
    split; [exact H1 | split; [exact H2 | exact H3]]. }
  split; [| split].
  - destruct (simple_prediction_is_top words s) as [scores ->]. apply Htop.
  - destruct (complex_prediction_is_top words s) as [scores ->]. apply Htop.
  - intros text mode l ratio H.
    destruct (predict_next_pair_is_top text mode s l ratio H) as [scores ->].
    apply Htop.
Qed.

Lemma predictions_are_ranked_witness :
  ranked (fst (_simple_relationship_prediction ["hello"] engine))
  /\ ranked (fst (_complex_relationship_prediction ["hello"] engine))
  /\ forall text mode l ratio,
       fst (predict_next text mode engine) = Pair l ratio -> ranked l.
Proof.
  apply (predictions_are_ranked ["hello"] engine). discriminate.
Defined.
